(** * APITize: the API versioning service

    A shallow embedding of [APIVersioningService] (version store, compatibility
    analyzer, lifecycle policy engine, migration plan generator) together with
    the properties its specification states about it.

    The service talks to three DynamoDB tables and one S3 bucket; they are
    modelled as lists of items threaded through a state-and-exception monad,
    and every request to them is answered.  [marshall] throws on a number
    that is not a safe integer; the item it builds otherwise is read back by
    [unmarshall] as the record.  A query returns the items of a partition in
    the order of their sort key.  A request runs alone.  [Date.now()] and
    [Math.random()] are explicit inputs of each operation, the clock being
    read as one instant per request, within the range of [Date].  Timestamps
    are kept as milliseconds since the epoch (the value [toISOString]
    renders; it throws on a time out of the range of [Date]).  Numbers are
    integers.  Strings are the bytes of their UTF-8 encoding.  Logging has no
    effect on the model.

    The last part embeds the cloning criteria, the royalty split and the tier
    selection of [RoyaltyDistributionService], whose numbers are binary64
    floats. *)

From Stdlib Require Import List String Ascii ZArith NArith Lia Bool.
From Stdlib Require Import Permutation Sorted DecimalString DecimalNat DecimalZ.
From Stdlib Require Floats.
Import ListNotations.

Local Open Scope string_scope.
Local Open Scope Z_scope.

(* ================================================================== *)
(** ** Errors and results *)

(** The exceptions the service can raise.  The first six are the plain
    [Error] objects the source throws itself, told apart by their message;
    [message] gives the text.  The last three come out of what it calls. *)
Inductive error : Type :=
| InvalidVersionFormat   (* createVersion *)
| DuplicateVersion       (* createVersion *)
| VersionNotFound        (* deprecateVersion, retireVersion *)
| VersionsNotFound       (* compareVersions *)
| InvalidDeprecation     (* deprecateVersion *)
| InvalidRetirement      (* retireVersion *)
| TypeError              (* the semver package, on a version it cannot parse *)
| UnsafeNumber           (* marshall, on a number that is not a safe integer *)
| RangeError.            (* toISOString, on a time out of the range of Date *)

Definition message (e : error) : option string :=
  match e with
  | InvalidVersionFormat => Some "Invalid semantic version format"
  | DuplicateVersion => Some "Version already exists"
  | VersionNotFound => Some "Version not found"
  | VersionsNotFound => Some "One or both versions not found"
  | InvalidDeprecation => Some "Only published versions can be deprecated"
  | InvalidRetirement => Some "Only deprecated versions can be retired"
  | TypeError | UnsafeNumber | RangeError => None
  end.

(** The specification's error taxonomy: both status-precondition failures are
    its [InvalidTransition]. *)
Definition InvalidTransition (e : error) : bool :=
  match e with
  | InvalidDeprecation | InvalidRetirement => true
  | _ => false
  end.

Inductive result (A : Type) : Type :=
| Ok (a : A)
| Throw (e : error).
Arguments Ok {A} a.
Arguments Throw {A} e.

(* ================================================================== *)
(** ** JavaScript array helpers *)

Module Js.

Definition includes (l : list string) (s : string) : bool :=
  existsb (String.eqb s) l.

Section Sort.
Context {A : Type} (cmp : A -> A -> comparison).

(** [x] goes in front of the first element it does not exceed, so equal
    elements keep their order. *)
Fixpoint insert (x : A) (l : list A) : list A :=
  match l with
  | [] => [x]
  | y :: l' =>
      match cmp x y with
      | Gt => y :: insert x l'
      | _ => x :: l
      end
  end.

(** [Array.prototype.sort] with a consistent comparator: a stable sort. *)
Fixpoint sort (l : list A) : list A :=
  match l with
  | [] => []
  | x :: l' => insert x (sort l')
  end.
End Sort.

(** [Array.prototype.slice(0, n)]: a negative [n] counts from the end. *)
Definition slice0 {A : Type} (l : list A) (n : Z) : list A :=
  if n <? 0 then firstn (Z.to_nat (Z.of_nat (List.length l) + n)) l
  else firstn (Z.to_nat n) l.

Definition show_nat (n : nat) : string := NilZero.string_of_uint (Nat.to_uint n).
Definition show_Z (z : Z) : string := NilZero.string_of_int (Z.to_int z).

Definition upper_char (c : ascii) : ascii :=
  let n := nat_of_ascii c in
  if ((97 <=? n) && (n <=? 122))%nat then ascii_of_nat (n - 32) else c.

(** [String.prototype.toUpperCase] on the ASCII range. *)
Fixpoint toUpperCase (s : string) : string :=
  match s with
  | EmptyString => EmptyString
  | String c s' => String (upper_char c) (toUpperCase s')
  end.

(** A string is held as the bytes of its UTF-8 encoding, taken as well
    formed. *)

(** The number of bytes of the white-space or line-terminator character of
    ECMAScript that [s] starts with, 0 if it starts with none.  They are TAB,
    LF, VT, FF, CR, SP, U+00A0, U+1680, U+2000 to U+200A, U+2028, U+2029,
    U+202F, U+205F, U+3000 and U+FEFF. *)
Definition space_width (s : string) : nat :=
  match s with
  | EmptyString => 0
  | String c1 s1 =>
      let b1 := nat_of_ascii c1 in
      if ((b1 =? 32) || ((9 <=? b1) && (b1 <=? 13)))%nat then 1
      else
        match s1 with
        | EmptyString => 0
        | String c2 s2 =>
            let b2 := nat_of_ascii c2 in
            if ((b1 =? 194) && (b2 =? 160))%nat then 2
            else
              match s2 with
              | EmptyString => 0
              | String c3 _ =>
                  let b3 := nat_of_ascii c3 in
                  if ((b1 =? 225) && (b2 =? 154) && (b3 =? 128))%nat then 3
                  else if ((b1 =? 226) && (b2 =? 128)
                           && (((128 <=? b3) && (b3 <=? 138))
                               || (b3 =? 168) || (b3 =? 169) || (b3 =? 175)))%nat then 3
                  else if ((b1 =? 226) && (b2 =? 129) && (b3 =? 159))%nat then 3
                  else if ((b1 =? 227) && (b2 =? 128) && (b3 =? 128))%nat then 3
                  else if ((b1 =? 239) && (b2 =? 187) && (b3 =? 191))%nat then 3
                  else 0
              end
        end
  end.

Fixpoint drop (n : nat) (s : string) : string :=
  match n, s with
  | S n', String _ s' => drop n' s'
  | _, _ => s
  end.

Fixpoint trimStart_from (fuel : nat) (s : string) : string :=
  match fuel with
  | O => s
  | S fuel' =>
      match space_width s with
      | O => s
      | k => trimStart_from fuel' (drop k s)
      end
  end.

(** [String.prototype.trimStart], [trimEnd] and [trim]. *)
Definition trimStart (s : string) : string := trimStart_from (String.length s) s.

(** What is left of [s] once its trailing white space is cut: nothing of a
    string that is white space throughout. *)
Fixpoint trimEnd (s : string) : string :=
  match s with
  | EmptyString => EmptyString
  | String c s' =>
      match trimStart s with
      | EmptyString => EmptyString
      | _ => String c (trimEnd s')
      end
  end.

Definition trim (s : string) : string := trimEnd (trimStart s).

(** [s.length], the number of UTF-16 code units: one for each character of
    up to three bytes, two for each of four. *)
Fixpoint utf16_length (s : string) : nat :=
  match s with
  | EmptyString => 0
  | String c s' =>
      let b := nat_of_ascii c in
      ((if (128 <=? b) && (b <=? 191) then 0 else if 240 <=? b then 2 else 1)
       + utf16_length s')%nat
  end.

End Js.

(* ================================================================== *)
(** ** The semver package

    Modelled from the spec: [semver] is an npm dependency, not part of the
    repository.  The service uses [valid], [diff], [compare] and [rcompare];
    the definitions below follow node-semver 7 in its strict (non-loose)
    mode ([diff] as in its releases 7.6 and later; on versions without
    prerelease tags all releases agree).  The package reads a version more
    generously than the grammar of Semantic Versioning 2.0.0: it trims white
    space and lets one [v] go first; and more strictly: at most 256
    characters, no number above [MAX_SAFE_INTEGER] in the main part. *)

Module SemVer.

Inductive identifier : Type :=
| INum (n : N)
| IStr (s : string).

Record t : Type := mk {
  major : N;
  minor : N;
  patch : N;
  prerelease : list identifier;
  build : list string
}.

Definition MAX_LENGTH : nat := 256.
Definition MAX_SAFE_INTEGER : N := 9007199254740991.

Definition code (c : ascii) : nat := nat_of_ascii c.

Definition is_digit (c : ascii) : bool := ((48 <=? code c) && (code c <=? 57))%nat.
Definition is_letter (c : ascii) : bool :=
  (((65 <=? code c) && (code c <=? 90)) || ((97 <=? code c) && (code c <=? 122)))%nat.
Definition is_ident_char (c : ascii) : bool :=
  is_digit c || is_letter c || (code c =? 45)%nat.
Fixpoint all_chars (p : ascii -> bool) (s : string) : bool :=
  match s with
  | EmptyString => true
  | String c s' => p c && all_chars p s'
  end.

(** Cut [s] at the first [sep]: the text before it, and the text after it when
    [sep] occurs. *)
Fixpoint cut (sep : ascii) (s : string) : string * option string :=
  match s with
  | EmptyString => (EmptyString, None)
  | String c s' =>
      if Ascii.eqb c sep then (EmptyString, Some s')
      else let (a, b) := cut sep s' in (String c a, b)
  end.

(** [String.prototype.split(sep)]. *)
Fixpoint split (sep : ascii) (s : string) : list string :=
  match s with
  | EmptyString => [EmptyString]
  | String c s' =>
      if Ascii.eqb c sep then EmptyString :: split sep s'
      else match split sep s' with
           | x :: xs => String c x :: xs
           | [] => [String c EmptyString]
           end
  end.

Fixpoint digits_value (acc : N) (s : string) : N :=
  match s with
  | EmptyString => acc
  | String c s' => digits_value (10 * acc + N.of_nat (code c - 48)) s'
  end.

Definition number (s : string) : N := digits_value 0%N s.

(** NUMERICIDENTIFIER: [0|[1-9]\d*]. *)
Definition numeric_identifier (s : string) : bool :=
  match s with
  | EmptyString => false
  | String c EmptyString => is_digit c
  | String c s' => is_digit c && negb (code c =? 48)%nat && all_chars is_digit s'
  end.

(** NONNUMERICIDENTIFIER: [\d*[a-zA-Z-][a-zA-Z0-9-]*]. *)
Definition nonnumeric_identifier (s : string) : bool :=
  all_chars is_ident_char s && negb (all_chars is_digit s).

(** BUILDIDENTIFIER: [[a-zA-Z0-9-]+]. *)
Definition build_identifier (s : string) : bool :=
  match s with
  | EmptyString => false
  | _ => all_chars is_ident_char s
  end.

Definition parse_number (s : string) : option N :=
  if numeric_identifier s && (number s <=? MAX_SAFE_INTEGER)%N
  then Some (number s) else None.

(** The double nearest to [n], ties going to the even one: the number that
    [+id] reads from a string of digits. *)
Definition toDouble (n : N) : N :=
  let bits := N.size n in
  if (bits <=? 53)%N then n
  else
    let s := (bits - 53)%N in
    let q := N.shiftr n s in
    let r := (n - N.shiftl q s)%N in
    let half := N.shiftl 1 (s - 1) in
    let up := (half <? r)%N || ((r =? half)%N && N.odd q) in
    N.shiftl (if up then q + 1 else q)%N s.

(** A prerelease identifier made of digits only is a number.  The package
    keeps those below [MAX_SAFE_INTEGER] as numbers and the others as text,
    and converts the text to a number when it compares: either way the
    identifier counts as the double its digits denote. *)
Definition parse_identifier (s : string) : option identifier :=
  if numeric_identifier s then Some (INum (toDouble (number s)))
  else if nonnumeric_identifier s then Some (IStr s)
  else None.

Fixpoint traverse {A B : Type} (f : A -> option B) (l : list A) : option (list B) :=
  match l with
  | [] => Some []
  | x :: l' =>
      match f x, traverse f l' with
      | Some y, Some ys => Some (y :: ys)
      | _, _ => None
      end
  end.

Definition parse_prerelease (s : option string) : option (list identifier) :=
  match s with
  | None => Some []
  | Some p => traverse parse_identifier (split "." p)
  end.

Definition parse_build (s : option string) : option (list string) :=
  match s with
  | None => Some []
  | Some b => traverse (fun i => if build_identifier i then Some i else None) (split "." b)
  end.

Definition strip_v (s : string) : string :=
  match s with
  | String "v" s' => s'
  | _ => s
  end.

(** [new SemVer(version)]: [None] where the constructor throws.  The length
    is that of the text as given; the FULL pattern, applied to the trimmed
    text, is [^v?N.N.N(-PRERELEASE)?(+BUILD)?$]; since neither the main part
    nor a prerelease contains [+], and the main part contains no [-], the
    match is found by cutting at the first [+] and then at the first [-]. *)
Definition parse (version : string) : option t :=
  if (MAX_LENGTH <? Js.utf16_length version)%nat then None
  else
    let (front, bld) := cut "+" (strip_v (Js.trim version)) in
    let (main, pre) := cut "-" front in
    match split "." main with
    | [a; b; c] =>
        match parse_number a, parse_number b, parse_number c,
              parse_prerelease pre, parse_build bld with
        | Some ma, Some mi, Some pa, Some pr, Some bu => Some (mk ma mi pa pr bu)
        | _, _, _, _, _ => None
        end
    | _ => None
    end.

(** [semver.valid] returns the normalised version text or [null]; callers test
    its truthiness only, and the text is never empty. *)
Definition valid (version : string) : bool :=
  match parse version with
  | Some _ => true
  | None => false
  end.

Definition lex (c1 c2 : comparison) : comparison :=
  match c1 with
  | Eq => c2
  | _ => c1
  end.

Definition compareMain (a b : t) : comparison :=
  lex (N.compare (major a) (major b))
      (lex (N.compare (minor a) (minor b)) (N.compare (patch a) (patch b))).

(** [compareIdentifiers]: numbers before text, numbers by value, text in
    ASCII order. *)
Definition compareIdentifiers (a b : identifier) : comparison :=
  match a, b with
  | INum x, INum y => N.compare x y
  | INum _, IStr _ => Lt
  | IStr _, INum _ => Gt
  | IStr x, IStr y => String.compare x y
  end.

Fixpoint compareIds (a b : list identifier) : comparison :=
  match a, b with
  | [], [] => Eq
  | [], _ :: _ => Lt
  | _ :: _, [] => Gt
  | x :: a', y :: b' => lex (compareIdentifiers x y) (compareIds a' b')
  end.

(** [comparePre]: a version without prerelease is above one with. *)
Definition comparePrerelease (pa pb : list identifier) : comparison :=
  match pa, pb with
  | [], [] => Eq
  | _ :: _, [] => Lt
  | [], _ :: _ => Gt
  | _, _ => compareIds pa pb
  end.

Definition comparePre (a b : t) : comparison :=
  comparePrerelease (prerelease a) (prerelease b).

(** [SemVer.prototype.compare]; build metadata is ignored. *)
Definition compareSV (a b : t) : comparison :=
  lex (compareMain a b) (comparePre a b).

Inductive release : Type :=
| major_r | premajor | minor_r | preminor | patch_r | prepatch | prerelease_r.

Definition hasPre (v : t) : bool :=
  match prerelease v with
  | [] => false
  | _ => true
  end.

Definition diffMain (prefix : bool) (v1 v2 : t) : release :=
  if negb (major v1 =? major v2)%N then (if prefix then premajor else major_r)
  else if negb (minor v1 =? minor v2)%N then (if prefix then preminor else minor_r)
  else if negb (patch v1 =? patch v2)%N then (if prefix then prepatch else patch_r)
  else prerelease_r.

(** [semver.diff] on parsed versions; [None] is the [null] returned for equal
    versions. *)
Definition diffSV (v1 v2 : t) : option release :=
  match compareSV v1 v2 with
  | Eq => None
  | c =>
      let high := match c with Gt => v1 | _ => v2 end in
      let low := match c with Gt => v2 | _ => v1 end in
      if hasPre low && negb (hasPre high) then
        if (patch low =? 0)%N && (minor low =? 0)%N then Some major_r
        else
          match compareMain low high with
          | Eq =>
              if negb (minor low =? 0)%N && (patch low =? 0)%N
              then Some minor_r else Some patch_r
          | _ => Some (diffMain (hasPre high) v1 v2)
          end
      else Some (diffMain (hasPre high) v1 v2)
  end.

(** The string-level entry points throw on text that does not parse. *)
Definition compare (a b : string) : result comparison :=
  match parse a, parse b with
  | Some x, Some y => Ok (compareSV x y)
  | _, _ => Throw TypeError
  end.

Definition rcompare (a b : string) : result comparison := compare b a.

Definition diff (version1 version2 : string) : result (option release) :=
  match parse version1, parse version2 with
  | Some x, Some y => Ok (diffSV x y)
  | _, _ => Throw TypeError
  end.

End SemVer.

(* ================================================================== *)
(** ** JSON values

    The [any]-typed parts of an OpenAPI document, as they come out of a JSON
    body.  Numbers are kept as integers: the analyzer only tests them for
    truthiness and passes them to the serialiser. *)

Module Json.

#[local] Set Warnings "-register-all".

Inductive value : Type :=
| Null
| Bool (b : bool)
| Num (n : Z)
| Str (s : string)
| Arr (items : list value)
| Obj (fields : list (string * value)).

(** A JavaScript expression's value; [None] is [undefined]. *)
Definition any : Type := option value.

Definition truthy (a : any) : bool :=
  match a with
  | None => false
  | Some Null => false
  | Some (Bool b) => b
  | Some (Num n) => negb (n =? 0)
  | Some (Str s) => negb (String.eqb s "")
  | Some (Arr _) => true
  | Some (Obj _) => true
  end.

Fixpoint chars (s : string) : list value :=
  match s with
  | EmptyString => []
  | String c s' => Str (String c EmptyString) :: chars s'
  end.

Definition indexed (l : list value) : list (string * value) :=
  combine (map Js.show_nat (seq 0 (List.length l))) l.

(** An object is written as the list of its properties in enumeration order;
    if a key is repeated, its first binding is the property. *)
Fixpoint distinct (l : list (string * value)) : list (string * value) :=
  match l with
  | [] => []
  | kv :: r => kv :: filter (fun x => negb (String.eqb (fst kv) (fst x))) (distinct r)
  end.

(** Own enumerable string-keyed properties. *)
Definition entries (v : value) : list (string * value) :=
  match v with
  | Obj f => distinct f
  | Arr l => indexed l
  | Str s => indexed (chars s)
  | _ => []
  end.

(** [Object.keys(v)]. *)
Definition keys (v : value) : list string := map fst (entries v).

Fixpoint lookup (k : string) (l : list (string * value)) : any :=
  match l with
  | [] => None
  | (k', v) :: r => if String.eqb k k' then Some v else lookup k r
  end.

(** [a[k]] and [a?.k].  The analyzer reads [a[k]] only where [a] is truthy,
    and only for [k] an own key of [a] or one of the names [responses], [200],
    [content], so own enumerable properties are all that is ever looked up;
    on [null] and [undefined] the result is that of [?.]. *)
Definition get (a : any) (k : string) : any :=
  match a with
  | None => None
  | Some v => lookup k (entries v)
  end.

(** [a || {}]. *)
Definition orEmpty (a : any) : value :=
  match a with
  | Some v => if truthy a then v else Obj []
  | None => Obj []
  end.

End Json.

(* ================================================================== *)
(** ** Data model *)

Definition timestamp : Type := Z.

Inductive Status : Type := draft | published | deprecated | retired.
Inductive CompatibilityLevel : Type := patch | minor | major.
Inductive Environment : Type := development | staging | production.

Definition Status_eqb (a b : Status) : bool :=
  match a, b with
  | draft, draft | published, published
  | deprecated, deprecated | retired, retired => true
  | _, _ => false
  end.

(** Position of a status along draft, published, deprecated, retired. *)
Definition rank (s : Status) : nat :=
  match s with
  | draft => 0
  | published => 1
  | deprecated => 2
  | retired => 3
  end.

Module Info.
Record t : Type := mk {
  title : string;
  description : string;
  version : string;
  contact : option (string * string);   (* name, email *)
  license : option (string * string)    (* name, url *)
}.
End Info.

Module Specification.
Record t : Type := mk {
  openapi : string;
  info : Info.t;
  servers : list (string * string);     (* url, description *)
  paths : Json.any;
  components : Json.any
}.
End Specification.

Module Deployment.
Record t : Type := mk {
  environment : Environment;
  endpoint : string;
  containerImage : string;
  replicas : Z;
  resources : string * string;          (* cpu, memory *)
  healthCheck : string * Z * Z          (* path, interval, timeout *)
}.
End Deployment.

Module Metrics.
Record t : Type := mk {
  requests : Z;
  errors : Z;
  responseTime : Z;
  uptime : Z;
  adoption : Z
}.
End Metrics.

Module DeprecationPlan.
Record t : Type := mk {
  reason : string;
  migrationGuide : string;
  supportEndDate : timestamp;
  replacementVersion : option string
}.
End DeprecationPlan.

Module APIVersion.
Record t : Type := mk {
  apiId : string;
  tenantId : string;
  version : string;
  status : Status;
  createdAt : timestamp;
  publishedAt : option timestamp;
  deprecatedAt : option timestamp;
  retiredAt : option timestamp;
  createdBy : string;
  changelog : string;
  breakingChanges : bool;
  compatibilityLevel : CompatibilityLevel;
  specification : Specification.t;
  deployment : Deployment.t;
  metrics : Metrics.t;
  deprecationPlan : option DeprecationPlan.t
}.
End APIVersion.

(** [Omit<APIVersion, 'createdAt' | 'metrics'>], the argument of
    [createVersion]. *)
Module VersionData.
Record t : Type := mk {
  apiId : string;
  tenantId : string;
  version : string;
  status : Status;
  publishedAt : option timestamp;
  deprecatedAt : option timestamp;
  retiredAt : option timestamp;
  createdBy : string;
  changelog : string;
  breakingChanges : bool;
  compatibilityLevel : CompatibilityLevel;
  specification : Specification.t;
  deployment : Deployment.t;
  deprecationPlan : option DeprecationPlan.t
}.
End VersionData.

Inductive BreakingChangePolicy : Type := major_only | allowed | forbidden.

Module Policy.
Record t : Type := mk {
  maxVersions : Z;
  supportPeriod : Z;                    (* days *)
  deprecationWarning : Z;
  autoRetirement : bool;
  retirementPeriod : Z;
  breakingChangePolicy : BreakingChangePolicy;
  backwardCompatibility : bool * string (* required, testSuite *)
}.
End Policy.

Module Notification.
Record t : Type := mk {
  enabled : bool;
  recipients : list string;
  template : string
}.
End Notification.

Module APILifecyclePolicy.
Record t : Type := mk {
  tenantId : string;
  apiId : string;
  policy : Policy.t;
  notifications : Notification.t * Notification.t   (* deprecation, retirement *)
}.
End APILifecyclePolicy.

Inductive StepType : Type := preparation | deployment | verification | cleanup.
Inductive StepStatus : Type := pending | running | step_completed | step_failed | skipped.

Module StepValidation.
Record t : Type := mk {
  healthCheck : bool;
  contractTests : bool;
  performanceTests : bool
}.
End StepValidation.

Module MigrationStep.
Record t : Type := mk {
  id : string;
  name : string;
  description : string;
  type : StepType;
  status : StepStatus;
  duration : option Z;
  startedAt : option timestamp;
  completedAt : option timestamp;
  dependencies : list string;
  commands : list string;
  validation : StepValidation.t
}.
End MigrationStep.

Inductive TestType : Type := contract | integration | performance | security.

Module ValidationTest.
Record t : Type := mk {
  name : string;
  type : TestType;
  endpoint : string;
  method : string;
  expectedStatus : Z;
  expectedResponse : Json.any;
  timeout : Z;
  retries : Z
}.
End ValidationTest.

Inductive PlanStatus : Type := planned | in_progress | completed | failed.

Module RollbackPlan.
Record t : Type := mk {
  enabled : bool;
  conditions : list string;
  steps : list string
}.
End RollbackPlan.

Module PlanValidation.
Record t : Type := mk {
  preDeployment : list ValidationTest.t;
  postDeployment : list ValidationTest.t;
  contractTests : list string
}.
End PlanValidation.

Module PlanMetrics.
Record t : Type := mk {
  successRate : Z;
  errorRate : Z;
  performanceImpact : Z
}.
End PlanMetrics.

Module MigrationPlan.
Record t : Type := mk {
  id : string;
  fromVersion : string;
  toVersion : string;
  apiId : string;
  tenantId : string;
  status : PlanStatus;
  createdAt : timestamp;
  startedAt : option timestamp;
  completedAt : option timestamp;
  strategy : string;
  steps : list MigrationStep.t;
  rollbackPlan : RollbackPlan.t;
  validation : PlanValidation.t;
  metrics : PlanMetrics.t
}.
End MigrationPlan.

Inductive ChangeType : Type :=
| removed_endpoint | changed_schema | added_required_field | changed_response_format.
Inductive Severity : Type := low | medium | high | critical.

Module BreakingChange.
Record t : Type := mk {
  type : ChangeType;
  path : string;
  description : string;
  severity : Severity;
  impact : string;
  mitigation : option string
}.
End BreakingChange.

Module Warning.
Record t : Type := mk {
  type : string;
  description : string;
  recommendation : string
}.
End Warning.

Module CompatibilityReport.
Record t : Type := mk {
  version1 : string;
  version2 : string;
  compatible : bool;
  breakingChanges : list BreakingChange.t;
  warnings : list Warning.t;
  score : Z
}.
End CompatibilityReport.

(* ================================================================== *)
(** ** The stores and the service monad *)

Module S3Object.
Record t : Type := mk {
  Body : Specification.t;               (* stored as its JSON text *)
  Metadata : string * string * string * timestamp  (* apiId, version, tenantId, createdAt *)
}.
End S3Object.

(** The three DynamoDB tables and the S3 bucket. *)
Record World : Type := mkWorld {
  versionsTable : list APIVersion.t;              (* key: apiId, version *)
  policiesTable : list APILifecyclePolicy.t;      (* key: apiId *)
  plansTable : list MigrationPlan.t;
  bucket : list (string * S3Object.t)
}.

(** A computation runs on the stores and either returns or throws; the stores
    as they are at that moment come back in both cases. *)
Definition M (A : Type) : Type := World -> World * result A.

Definition ret {A : Type} (a : A) : M A := fun w => (w, Ok a).
Definition throw {A : Type} (e : error) : M A := fun w => (w, Throw e).
Definition bind {A B : Type} (m : M A) (k : A -> M B) : M B :=
  fun w =>
    match m w with
    | (w', Ok a) => k a w'
    | (w', Throw e) => (w', Throw e)
    end.

(** A pure library call that may throw. *)
Definition lift {A : Type} (r : result A) : M A := fun w => (w, r).

Declare Scope service_scope.
Delimit Scope service_scope with service.
Notation "x <- m ;; k" := (bind m (fun x => k))
  (at level 61, m at next level, right associativity) : service_scope.
Notation "m ;; k" := (bind m (fun _ => k))
  (at level 61, right associativity) : service_scope.
Local Open Scope service_scope.

(** [for (const x of l) await f(x)]. *)
Fixpoint forEach {A : Type} (f : A -> M unit) (l : list A) : M unit :=
  match l with
  | [] => ret tt
  | x :: l' => f x ;; forEach f l'
  end.

Module JsM.
Section Sort.
Context {A : Type} (cmp : A -> A -> result comparison).

Fixpoint insert (x : A) (l : list A) : result (list A) :=
  match l with
  | [] => Ok [x]
  | y :: l' =>
      match cmp x y with
      | Throw e => Throw e
      | Ok Gt =>
          match insert x l' with
          | Ok r => Ok (y :: r)
          | Throw e => Throw e
          end
      | Ok _ => Ok (x :: l)
      end
  end.

(** [Array.prototype.sort(cmp)]: stable; an exception of the comparator
    leaves the sort.  With fewer than two elements the comparator is not
    called. *)
Fixpoint sort (l : list A) : result (list A) :=
  match l with
  | [] => Ok []
  | x :: l' =>
      match sort l' with
      | Ok s => insert x s
      | Throw e => Throw e
      end
  end.
End Sort.
End JsM.

Definition has_key (apiId version : string) (v : APIVersion.t) : bool :=
  String.eqb (APIVersion.apiId v) apiId && String.eqb (APIVersion.version v) version.

(** [PutItemCommand] on the versions table: the item replaces the one with its
    key, or is added. *)
Fixpoint putItem (item : APIVersion.t) (table : list APIVersion.t) : list APIVersion.t :=
  match table with
  | [] => [item]
  | v :: table' =>
      if has_key (APIVersion.apiId item) (APIVersion.version item) v
      then item :: table'
      else v :: putItem item table'
  end.

(** [UpdateItemCommand] with a SET expression, on an item that exists. *)
Definition updateItem (apiId version : string) (set : APIVersion.t -> APIVersion.t)
    (table : list APIVersion.t) : list APIVersion.t :=
  map (fun v => if has_key apiId version v then set v else v) table.

Fixpoint putObject (key : string) (o : S3Object.t) (b : list (string * S3Object.t))
    : list (string * S3Object.t) :=
  match b with
  | [] => [(key, o)]
  | (k, o') :: b' =>
      if String.eqb k key then (key, o) :: b' else (k, o') :: putObject key o b'
  end.

(** [PutItemCommand] on the migration plans table, keyed by the plan's [id]. *)
Fixpoint putPlan (plan : MigrationPlan.t) (table : list MigrationPlan.t)
    : list MigrationPlan.t :=
  match table with
  | [] => [plan]
  | p :: table' =>
      if String.eqb (MigrationPlan.id p) (MigrationPlan.id plan)
      then plan :: table'
      else p :: putPlan plan table'
  end.

Definition setVersions (f : list APIVersion.t -> list APIVersion.t) : M unit :=
  fun w => (mkWorld (f (versionsTable w)) (policiesTable w) (plansTable w) (bucket w), Ok tt).

Definition setBucket (f : list (string * S3Object.t) -> list (string * S3Object.t)) : M unit :=
  fun w => (mkWorld (versionsTable w) (policiesTable w) (plansTable w) (f (bucket w)), Ok tt).

Definition setPlans (f : list MigrationPlan.t -> list MigrationPlan.t) : M unit :=
  fun w => (mkWorld (versionsTable w) (policiesTable w) (f (plansTable w)) (bucket w), Ok tt).

(* ================================================================== *)
(** ** APIVersioningService *)

Definition getVersion (apiId version : string) : M (option APIVersion.t) :=
  fun w => (w, Ok (find (has_key apiId version) (versionsTable w))).

(** The order of the sort key of the versions table: the version strings by
    their bytes. *)
Definition bySortKey (a b : APIVersion.t) : comparison :=
  String.compare (APIVersion.version a) (APIVersion.version b).

(** The query returns the items of the partition in the order of their sort
    key. *)
Definition getVersions (apiId : string) : M (list APIVersion.t) :=
  fun w => (w, Ok (Js.sort bySortKey
                     (filter (fun v => String.eqb (APIVersion.apiId v) apiId)
                             (versionsTable w)))).

Definition getLatestVersion (apiId : string) : M (option APIVersion.t) :=
  versions <- getVersions apiId ;;
  match versions with
  | [] => ret None
  | _ =>
      sortedVersions <- lift (JsM.sort (fun a b =>
          SemVer.rcompare (APIVersion.version a) (APIVersion.version b)) versions) ;;
      ret (hd_error sortedVersions)
  end.

Definition getLifecyclePolicy (apiId : string) : M (option APILifecyclePolicy.t) :=
  fun w => (w, Ok (find (fun p => String.eqb (APILifecyclePolicy.apiId p) apiId)
                        (policiesTable w))).

Definition specificationKey (version : APIVersion.t) : string :=
  "api-specifications/" ++ APIVersion.tenantId version ++ "/" ++ APIVersion.apiId version
    ++ "/" ++ APIVersion.version version ++ "/openapi.json".

Definition storeSpecification (version : APIVersion.t) : M unit :=
  setBucket (putObject (specificationKey version)
    (S3Object.mk (APIVersion.specification version)
       (APIVersion.apiId version, APIVersion.version version,
        APIVersion.tenantId version, APIVersion.createdAt version))).

(** [SET #status = 'deprecated', deprecatedAt = now, deprecationPlan = plan]. *)
Definition setDeprecated (now : timestamp) (plan : DeprecationPlan.t)
    (v : APIVersion.t) : APIVersion.t :=
  APIVersion.mk (APIVersion.apiId v) (APIVersion.tenantId v) (APIVersion.version v)
    deprecated
    (APIVersion.createdAt v) (APIVersion.publishedAt v)
    (Some now)
    (APIVersion.retiredAt v) (APIVersion.createdBy v) (APIVersion.changelog v)
    (APIVersion.breakingChanges v) (APIVersion.compatibilityLevel v)
    (APIVersion.specification v) (APIVersion.deployment v) (APIVersion.metrics v)
    (Some plan).

(** [SET #status = 'retired', retiredAt = now]. *)
Definition setRetired (now : timestamp) (v : APIVersion.t) : APIVersion.t :=
  APIVersion.mk (APIVersion.apiId v) (APIVersion.tenantId v) (APIVersion.version v)
    retired
    (APIVersion.createdAt v) (APIVersion.publishedAt v) (APIVersion.deprecatedAt v)
    (Some now)
    (APIVersion.createdBy v) (APIVersion.changelog v)
    (APIVersion.breakingChanges v) (APIVersion.compatibilityLevel v)
    (APIVersion.specification v) (APIVersion.deployment v) (APIVersion.metrics v)
    (APIVersion.deprecationPlan v).

(** Both only write a log line. *)
Definition sendDeprecationNotification (version : APIVersion.t)
    (deprecationPlan : DeprecationPlan.t) : M unit := ret tt.
Definition removeDeployment (version : APIVersion.t) : M unit := ret tt.

(** The plan is passed on with a non-null assertion; it is taken as present. *)
Definition deprecateVersion (now : timestamp) (apiId version : string)
    (deprecationPlan : DeprecationPlan.t) : M unit :=
  apiVersion <- getVersion apiId version ;;
  match apiVersion with
  | None => throw VersionNotFound
  | Some apiVersion =>
      if negb (Status_eqb (APIVersion.status apiVersion) published)
      then throw InvalidDeprecation
      else
        setVersions (updateItem apiId version (setDeprecated now deprecationPlan)) ;;
        sendDeprecationNotification apiVersion deprecationPlan
  end.

Definition retireVersion (now : timestamp) (apiId version : string) : M unit :=
  apiVersion <- getVersion apiId version ;;
  match apiVersion with
  | None => throw VersionNotFound
  | Some apiVersion =>
      if negb (Status_eqb (APIVersion.status apiVersion) deprecated)
      then throw InvalidRetirement
      else
        setVersions (updateItem apiId version (setRetired now)) ;;
        removeDeployment apiVersion
  end.

Definition msPerDay : Z := 24 * 60 * 60 * 1000.

(** The range of [Date]: 100,000,000 days either side of the epoch. *)
Definition maxTime : Z := 8640000000000000.

(** [new Date(t).toISOString()]: a [RangeError] for a time out of range. *)
Definition toISOString (t : Z) : result timestamp :=
  if (- maxTime <=? t) && (t <=? maxTime) then Ok t else Throw RangeError.

(** The plan passed to [deprecateVersion] by the lifecycle policy; building
    it throws when the support period ends out of the range of [Date]. *)
Definition policyPlan (now : timestamp) (policy : APILifecyclePolicy.t)
    (version : APIVersion.t) : result DeprecationPlan.t :=
  match toISOString
          (now + Policy.supportPeriod (APILifecyclePolicy.policy policy) * msPerDay) with
  | Ok supportEndDate =>
      Ok (DeprecationPlan.mk
            "Exceeded maximum version policy"
            "Please migrate to the latest version"
            supportEndDate
            (Some (APIVersion.version version)))
  | Throw e => Throw e
  end.

Definition isPublished (v : APIVersion.t) : bool :=
  Status_eqb (APIVersion.status v) published.

Definition applyLifecyclePolicy (now : timestamp) (version : APIVersion.t) : M unit :=
  policy <- getLifecyclePolicy (APIVersion.apiId version) ;;
  match policy with
  | None => ret tt
  | Some policy =>
      versions <- getVersions (APIVersion.apiId version) ;;
      let activeVersions := filter isPublished versions in
      let maxVersions := Policy.maxVersions (APILifecyclePolicy.policy policy) in
      if maxVersions <? Z.of_nat (List.length activeVersions) then
        sortedVersions <- lift (JsM.sort (fun a b =>
            SemVer.compare (APIVersion.version a) (APIVersion.version b)) activeVersions) ;;
        let toDeprecate :=
          Js.slice0 sortedVersions (Z.of_nat (List.length activeVersions) - maxVersions) in
        forEach (fun oldVersion =>
            deprecationPlan <- lift (policyPlan now policy version) ;;
            deprecateVersion now (APIVersion.apiId oldVersion) (APIVersion.version oldVersion)
              deprecationPlan)
          toDeprecate
      else ret tt
  end.

Definition levelOfDiff (d : option SemVer.release) : CompatibilityLevel :=
  match d with
  | Some SemVer.major_r => major
  | Some SemVer.minor_r => minor
  | _ => patch
  end.

Definition initialMetrics : Metrics.t := Metrics.mk 0 0 0 100 0.

Definition newVersion (versionData : VersionData.t) (compatibilityLevel : CompatibilityLevel)
    (now : timestamp) : APIVersion.t :=
  APIVersion.mk
    (VersionData.apiId versionData) (VersionData.tenantId versionData)
    (VersionData.version versionData) (VersionData.status versionData)
    now
    (VersionData.publishedAt versionData) (VersionData.deprecatedAt versionData)
    (VersionData.retiredAt versionData) (VersionData.createdBy versionData)
    (VersionData.changelog versionData) (VersionData.breakingChanges versionData)
    compatibilityLevel
    (VersionData.specification versionData) (VersionData.deployment versionData)
    initialMetrics
    (VersionData.deprecationPlan versionData).

(** [Number.MAX_SAFE_INTEGER], and the numbers [marshall] takes. *)
Definition MAX_SAFE_INTEGER : Z := 9007199254740991.

Definition safe (n : Z) : bool := (- MAX_SAFE_INTEGER <=? n) && (n <=? MAX_SAFE_INTEGER).

(** Every number in a value is safe.  Of a key written twice only the first
    binding is a property of the object. *)
Fixpoint safeValue (v : Json.value) : bool :=
  match v with
  | Json.Num n => safe n
  | Json.Arr l =>
      (fix all (l : list Json.value) : bool :=
         match l with
         | [] => true
         | x :: r => safeValue x && all r
         end) l
  | Json.Obj f =>
      (fix all (seen : list string) (f : list (string * Json.value)) : bool :=
         match f with
         | [] => true
         | (k, x) :: r => (Js.includes seen k || safeValue x) && all (k :: seen) r
         end) [] f
  | _ => true
  end.

Definition safeAny (a : Json.any) : bool :=
  match a with
  | Some v => safeValue v
  | None => true
  end.

Definition safeVersion (version : APIVersion.t) : bool :=
  let deployment := APIVersion.deployment version in
  let metrics := APIVersion.metrics version in
  let specification := APIVersion.specification version in
  safeAny (Specification.paths specification)
  && safeAny (Specification.components specification)
  && safe (Deployment.replicas deployment)
  && safe (snd (fst (Deployment.healthCheck deployment)))
  && safe (snd (Deployment.healthCheck deployment))
  && safe (Metrics.requests metrics) && safe (Metrics.errors metrics)
  && safe (Metrics.responseTime metrics) && safe (Metrics.uptime metrics)
  && safe (Metrics.adoption metrics).

(** [marshall(version)] throws on a number that is not a safe integer; the
    item it builds otherwise is read back as the record. *)
Definition marshall (version : APIVersion.t) : result APIVersion.t :=
  if safeVersion version then Ok version else Throw UnsafeNumber.

Definition createVersion (now : timestamp) (versionData : VersionData.t) : M APIVersion.t :=
  if negb (SemVer.valid (VersionData.version versionData)) then throw InvalidVersionFormat
  else
    existingVersion <- getVersion (VersionData.apiId versionData)
                                  (VersionData.version versionData) ;;
    match existingVersion with
    | Some _ => throw DuplicateVersion
    | None =>
        latestVersion <- getLatestVersion (VersionData.apiId versionData) ;;
        compatibilityLevel <-
          match latestVersion with
          | None => ret patch
          | Some latestVersion =>
              diff <- lift (SemVer.diff (APIVersion.version latestVersion)
                                        (VersionData.version versionData)) ;;
              ret (levelOfDiff diff)
          end ;;
        let version := newVersion versionData compatibilityLevel now in
        item <- lift (marshall version) ;;
        setVersions (putItem item) ;;
        storeSpecification version ;;
        applyLifecyclePolicy now version ;;
        ret version
    end.

(** *** Compatibility analyzer *)

Section Analyzer.

(** [JSON.stringify] on a defined value; the analyzer relies on nothing but
    its being a function. *)
Variable JSON_stringify : Json.value -> string.

(** [JSON.stringify(a)], which is [undefined] for [undefined]. *)
Definition stringify (a : Json.any) : option string := option_map JSON_stringify a.

(** [schema1 !== schema2] on values that are a string or [undefined]. *)
Definition differ (schema1 schema2 : option string) : bool :=
  match schema1, schema2 with
  | None, None => false
  | Some a, Some b => negb (String.eqb a b)
  | _, _ => true
  end.

Definition removedEndpoint (path : string) : BreakingChange.t :=
  BreakingChange.mk removed_endpoint path
    ("Endpoint " ++ path ++ " was removed")
    critical
    "Clients using this endpoint will fail"
    (Some "Provide alternative endpoint or keep for backward compatibility").

Definition changedResponseFormat (method path : string) : BreakingChange.t :=
  BreakingChange.mk changed_response_format
    (Js.toUpperCase method ++ " " ++ path)
    "Response format changed"
    high
    "Client parsing may fail"
    (Some "Use content negotiation or versioned endpoints").

Definition analyzeBreakingChanges (spec1 spec2 : Specification.t) : list BreakingChange.t :=
  let paths1 := Json.keys (Json.orEmpty (Specification.paths spec1)) in
  let paths2 := Json.keys (Json.orEmpty (Specification.paths spec2)) in
  (* removed endpoints *)
  let removed :=
    flat_map (fun path =>
      if negb (Js.includes paths2 path) then [removedEndpoint path] else []) paths1 in
  (* changed response schemas *)
  let changed :=
    flat_map (fun path =>
      if Js.includes paths1 path then
        let item1 := Json.get (Specification.paths spec1) path in
        let item2 := Json.get (Specification.paths spec2) path in
        let methods1 := Json.keys (Json.orEmpty item1) in
        let methods2 := Json.keys (Json.orEmpty item2) in
        flat_map (fun method =>
          if Js.includes methods1 method then
            let responses1 := Json.get (Json.get item1 method) "responses" in
            let responses2 := Json.get (Json.get item2 method) "responses" in
            if Json.truthy responses1 && Json.truthy responses2 then
              let schema1 := stringify (Json.get (Json.get responses1 "200") "content") in
              let schema2 := stringify (Json.get (Json.get responses2 "200") "content") in
              if differ schema1 schema2 then [changedResponseFormat method path] else []
            else []
          else []) methods2
      else []) paths2 in
  (removed ++ changed)%list.

Definition deduction (s : Severity) : Z :=
  match s with
  | critical => 25
  | high => 15
  | medium => 10
  | low => 5
  end.

Definition compareVersions (apiId version1 version2 : string) : M CompatibilityReport.t :=
  v1 <- getVersion apiId version1 ;;
  v2 <- getVersion apiId version2 ;;
  match v1, v2 with
  | Some v1, Some v2 =>
      let breakingChanges :=
        analyzeBreakingChanges (APIVersion.specification v1) (APIVersion.specification v2) in
      let scoreDeduction :=
        fold_left (fun acc change => acc + deduction (BreakingChange.severity change))
                  breakingChanges 0 in
      ret (CompatibilityReport.mk version1 version2
             (Nat.eqb (List.length breakingChanges) 0)
             breakingChanges
             []
             (Z.max 0 (100 - scoreDeduction)))
  | _, _ => throw VersionsNotFound
  end.

(** *** Migration plan generator *)

Definition step (id name description : string) (type : StepType)
    (dependencies commands : list string) (healthCheck contractTests performanceTests : bool)
    : MigrationStep.t :=
  MigrationStep.mk id name description type pending None None None
    dependencies commands (StepValidation.mk healthCheck contractTests performanceTests).

Definition prepStep : MigrationStep.t :=
  step "prep-1" "Pre-deployment Validation" "Run pre-deployment tests and validations"
    preparation [] ["npm test"; "npm run lint"; "npm run security-check"] true true false.

Definition blueGreenSteps : list MigrationStep.t :=
  [ step "deploy-1" "Deploy Green Environment" "Deploy new version to green environment"
      deployment ["prep-1"] ["kubectl apply -f green-deployment.yaml"] true true true;
    step "deploy-2" "Switch Traffic" "Switch traffic from blue to green"
      deployment ["deploy-1"] ["kubectl patch service api-service -p '...'"] true false true ].

Definition canarySteps : list MigrationStep.t :=
  [ step "deploy-1" "Deploy Canary (10%)" "Deploy new version to 10% of traffic"
      deployment ["prep-1"] ["kubectl apply -f canary-10-deployment.yaml"] true true true;
    step "deploy-2" "Increase to 50%" "Increase canary traffic to 50%"
      deployment ["deploy-1"] ["kubectl apply -f canary-50-deployment.yaml"] true false true;
    step "deploy-3" "Full Deployment" "Route 100% traffic to new version"
      deployment ["deploy-2"] ["kubectl apply -f full-deployment.yaml"] true false true ].

Definition cleanupStep (steps : list MigrationStep.t) : MigrationStep.t :=
  step "cleanup-1" "Cleanup Old Resources" "Remove old deployment resources"
    cleanup [MigrationStep.id (last steps prepStep)]
    ["kubectl delete deployment old-api-deployment"] false false false.

Definition generateMigrationSteps (strategy : string)
    (compatibilityReport : CompatibilityReport.t) : list MigrationStep.t :=
  let steps := [prepStep] in
  let steps :=
    if String.eqb strategy "blue-green" then (steps ++ blueGreenSteps)%list
    else if String.eqb strategy "canary" then (steps ++ canarySteps)%list
    else steps in
  (steps ++ [cleanupStep steps])%list.

Inductive Phase : Type := pre | post.

Definition generateValidationTests (phase : Phase) (fromVersion toVersion : string)
    : list ValidationTest.t :=
  let tests :=
    [ ValidationTest.mk "Health Check" integration "/health" "GET" 200 None 5000 3;
      ValidationTest.mk "API Compatibility" contract "/api/v1/test" "GET" 200 None 10000 2 ] in
  match phase with
  | post =>
      (tests ++ [ValidationTest.mk "Performance Baseline" performance "/api/v1/benchmark"
                   "GET" 200 None 15000 1])%list
  | pre => tests
  end.

(** [random] stands for [Math.random().toString(36).substr(2, 9)]. *)
Definition createMigrationPlan (now : timestamp) (random : string)
    (apiId fromVersion toVersion strategy : string) : M MigrationPlan.t :=
  compatibilityReport <- compareVersions apiId fromVersion toVersion ;;
  let migrationPlan :=
    MigrationPlan.mk
      ("migration-" ++ Js.show_Z now ++ "-" ++ random)
      fromVersion toVersion apiId ""
      planned now None None
      strategy
      (generateMigrationSteps strategy compatibilityReport)
      (RollbackPlan.mk true
         ["error-rate > 5%"; "response-time > 2000ms"]
         ["Stop traffic to new version"; "Route all traffic to old version";
          "Investigate issues"])
      (PlanValidation.mk
         (generateValidationTests pre fromVersion toVersion)
         (generateValidationTests post fromVersion toVersion)
         ["contract-test-suite"])
      (PlanMetrics.mk 0 0 0) in
  setPlans (putPlan migrationPlan) ;;
  ret migrationPlan.

End Analyzer.

(* ================================================================== *)
(** ** Sample data for the examples *)

Module Sample.

Definition quote : string := String (ascii_of_nat 34) EmptyString.

(** A compact JSON rendering (no escaping), used to run the analyzer. *)
Fixpoint render (v : Json.value) : string :=
  match v with
  | Json.Null => "null"
  | Json.Bool true => "true"
  | Json.Bool false => "false"
  | Json.Num n => Js.show_Z n
  | Json.Str s => quote ++ s ++ quote
  | Json.Arr l =>
      "[" ++ (fix items (l : list Json.value) : string :=
                match l with
                | [] => ""
                | [x] => render x
                | x :: r => render x ++ "," ++ items r
                end) l ++ "]"
  | Json.Obj f =>
      "{" ++ (fix fields (f : list (string * Json.value)) : string :=
                match f with
                | [] => ""
                | [(k, x)] => quote ++ k ++ quote ++ ":" ++ render x
                | (k, x) :: r => quote ++ k ++ quote ++ ":" ++ render x ++ "," ++ fields r
                end) f ++ "}"
  end.

Definition info : Info.t := Info.mk "Orders" "Order API" "1" None None.

Definition spec (paths : Json.any) : Specification.t :=
  Specification.mk "3.0.0" info [("https://api.example.com", "prod")] paths None.

(** A path item with one GET operation answering 200 with [content]. *)
Definition getOp (content : Json.value) : Json.value :=
  Json.Obj [("get", Json.Obj [("responses",
     Json.Obj [("200", Json.Obj [("content", content)])])])].

Definition specA : Specification.t :=
  spec (Some (Json.Obj [("/orders", getOp (Json.Str "order"));
                        ("/users", getOp (Json.Str "user"))])).
Definition specB : Specification.t :=
  spec (Some (Json.Obj [("/orders", getOp (Json.Str "order"))])).

Definition deploymentOf : Deployment.t :=
  Deployment.mk production "https://api.example.com" "orders:1" 2
    ("500m", "256Mi") ("/health", 30, 5).

Definition data (apiId version : string) (status : Status) (s : Specification.t)
    : VersionData.t :=
  VersionData.mk apiId "tenant-1" version status None None None "alice" "changes"
    false major s deploymentOf None.

Definition empty : World := mkWorld [] [] [] [].

Definition policyOf (apiId : string) (maxVersions supportPeriod : Z) : APILifecyclePolicy.t :=
  APILifecyclePolicy.mk "tenant-1" apiId
    (Policy.mk maxVersions supportPeriod 7 false 30 allowed (false, "suite"))
    (Notification.mk true [] "d", Notification.mk true [] "r").

Definition withPolicy (p : APILifecyclePolicy.t) (w : World) : World :=
  mkWorld (versionsTable w) (p :: policiesTable w) (plansTable w) (bucket w).

(** Run a sequence of creations, ignoring the failed ones. *)
Fixpoint createAll (now : timestamp) (l : list VersionData.t) (w : World) : World :=
  match l with
  | [] => w
  | d :: l' => createAll now l' (fst (createVersion now d w))
  end.

Definition statuses (w : World) : list (string * Status) :=
  map (fun v => (APIVersion.version v, APIVersion.status v)) (versionsTable w).

End Sample.

(* ================================================================== *)
(** ** Vocabulary of the properties *)

(** The service's public operations, as one request type. *)
Inductive Operation : Type :=
| CreateVersion (versionData : VersionData.t)
| GetVersion (apiId version : string)
| GetLatestVersion (apiId : string)
| GetVersions (apiId : string)
| DeprecateVersion (apiId version : string) (deprecationPlan : DeprecationPlan.t)
| RetireVersion (apiId version : string)
| CompareVersions (apiId version1 version2 : string)
| CreateMigrationPlan (random apiId fromVersion toVersion strategy : string).

(** The stores after a request, whether it returned or threw. *)
Definition perform (JSON_stringify : Json.value -> string) (now : timestamp)
    (op : Operation) (w : World) : World :=
  match op with
  | CreateVersion versionData => fst (createVersion now versionData w)
  | GetVersion apiId version => fst (getVersion apiId version w)
  | GetLatestVersion apiId => fst (getLatestVersion apiId w)
  | GetVersions apiId => fst (getVersions apiId w)
  | DeprecateVersion apiId version plan => fst (deprecateVersion now apiId version plan w)
  | RetireVersion apiId version => fst (retireVersion now apiId version w)
  | CompareVersions apiId version1 version2 =>
      fst (compareVersions JSON_stringify apiId version1 version2 w)
  | CreateMigrationPlan random apiId fromVersion toVersion strategy =>
      fst (createMigrationPlan JSON_stringify now random apiId fromVersion toVersion strategy w)
  end.

(** The worlds the service can be in: it starts on empty tables, serves
    requests, and tenant administrators write the policies table. *)
Inductive reachable : World -> Prop :=
| reachable_empty : reachable (mkWorld [] [] [] [])
| reachable_perform JSON_stringify now op w :
    reachable w -> reachable (perform JSON_stringify now op w)
| reachable_policies policies w :
    reachable w ->
    reachable (mkWorld (versionsTable w) policies (plansTable w) (bucket w)).

(** The stored record of a version, if any. *)
Definition stored (w : World) (apiId version : string) : option APIVersion.t :=
  find (has_key apiId version) (versionsTable w).

Definition key (v : APIVersion.t) : string * string :=
  (APIVersion.apiId v, APIVersion.version v).

(** Keys are unique and every stored version string is valid. *)
Definition table_wf (table : list APIVersion.t) : Prop :=
  NoDup (map key table) /\
  Forall (fun v => SemVer.valid (APIVersion.version v) = true) table.

Definition store_wf (w : World) : Prop := table_wf (versionsTable w).

(** All versions of an api, as a query lists them, and its published ones. *)
Definition versionsOf (apiId : string) (w : World) : list APIVersion.t :=
  Js.sort bySortKey
    (filter (fun v => String.eqb (APIVersion.apiId v) apiId) (versionsTable w)).

Definition publishedOf (apiId : string) (w : World) : list APIVersion.t :=
  filter isPublished (versionsOf apiId w).

(** [a] does not come after [b] in semantic-version precedence. *)
Definition precedes (a b : string) : Prop :=
  exists c, SemVer.compare a b = Ok c /\ c <> Gt.

(** Membership of a record's key in a list of records. *)
Definition memberOf (l : list APIVersion.t) (v : APIVersion.t) : bool :=
  existsb (fun o => has_key (APIVersion.apiId o) (APIVersion.version o) v) l.

(** No stored record has moved backward between two states of the table. *)
Definition advances (table table' : list APIVersion.t) : Prop :=
  forall apiId version v,
    find (has_key apiId version) table = Some v ->
    exists v', find (has_key apiId version) table' = Some v' /\
               (rank (APIVersion.status v) <= rank (APIVersion.status v'))%nat.

(** The stores right after [createVersion] has written [version] to the
    versions table and its specification to the bucket, before the lifecycle
    policy runs. *)
Definition persisted (version : APIVersion.t) (w : World) : World :=
  mkWorld (putItem version (versionsTable w)) (policiesTable w) (plansTable w)
    (putObject (specificationKey version)
       (S3Object.mk (APIVersion.specification version)
          (APIVersion.apiId version, APIVersion.version version,
           APIVersion.tenantId version, APIVersion.createdAt version))
       (bucket w)).

(** [a] does not come after [b] under [cmp]. *)
Definition noLater {A : Type} (cmp : A -> A -> comparison) (a b : A) : Prop :=
  cmp a b <> Gt.

(** A comparison that is a strict total order, with [Eq] meaning equality. *)
Record StrictTotal {A : Type} (cmp : A -> A -> comparison) : Prop := {
  cmp_refl : forall a, cmp a a = Eq;
  cmp_eq : forall a b, cmp a b = Eq -> a = b;
  cmp_antisym : forall a b, cmp b a = CompOpp (cmp a b);
  cmp_lt_trans : forall a b c, cmp a b = Lt -> cmp b c = Lt -> cmp a c = Lt
}.

(** A comparison that is a total preorder ([Eq] may relate different
    elements, as versions differing in build metadata). *)
Record TotalPreorder {A : Type} (cmp : A -> A -> comparison) : Prop := {
  pre_antisym : forall a b, cmp b a = CompOpp (cmp a b);
  pre_trans : forall a b c, cmp a b <> Gt -> cmp b c <> Gt -> cmp a c <> Gt
}.

Definition lexPair {A B : Type} (c1 : A -> A -> comparison) (c2 : B -> B -> comparison)
    (x y : A * B) : comparison :=
  SemVer.lex (c1 (fst x) (fst y)) (c2 (snd x) (snd y)).

(** The part of a version that decides precedence. *)
Definition precedenceKey (v : SemVer.t) : N * (N * (N * list SemVer.identifier)) :=
  (SemVer.major v, (SemVer.minor v, (SemVer.patch v, SemVer.prerelease v))).

(** The parsed version of a record (of a valid one). *)
Definition semverOf (v : APIVersion.t) : SemVer.t :=
  match SemVer.parse (APIVersion.version v) with
  | Some x => x
  | None => SemVer.mk 0 0 0 [] []
  end.

(** Ascending and descending precedence on records. *)
Definition ascending (a b : APIVersion.t) : comparison :=
  SemVer.compareSV (semverOf a) (semverOf b).
Definition descending (a b : APIVersion.t) : comparison :=
  SemVer.compareSV (semverOf b) (semverOf a).

(** The sum of the deductions of a list of findings. *)
Definition totalDeduction (l : list BreakingChange.t) : Z :=
  fold_right (fun change acc => deduction (BreakingChange.severity change) + acc) 0 l.

(** Is [f] a removed-endpoint finding for [path]? *)
Definition removalOf (path : string) (f : BreakingChange.t) : bool :=
  match BreakingChange.type f with
  | removed_endpoint => String.eqb (BreakingChange.path f) path
  | _ => false
  end.

(** The path keys of a specification, as the analyzer enumerates them. *)
Definition pathKeys (s : Specification.t) : list string :=
  Json.keys (Json.orEmpty (Specification.paths s)).

(** Every step after the first depends on exactly the step before it. *)
Fixpoint chained (steps : list MigrationStep.t) : Prop :=
  match steps with
  | [] => True
  | s :: rest =>
      match rest with
      | [] => True
      | t :: _ => MigrationStep.dependencies t = [MigrationStep.id s] /\ chained rest
      end
  end.

(* ================================================================== *)
(** ** Scenarios *)

Module Scenario.

Definition orders (version : string) (status : Status) : VersionData.t :=
  Sample.data "orders" version status Sample.specA.

(** Five published versions under a policy that allows five. *)
Definition policy5 : APILifecyclePolicy.t := Sample.policyOf "orders" 5 30.

Definition five : World :=
  Sample.createAll 0
    (map (fun version => orders version published)
         ["1.0.0"; "1.1.0"; "1.2.0"; "0.9.0"; "2.0.0"])
    (Sample.withPolicy policy5 Sample.empty).

Definition sixth : World * result APIVersion.t :=
  createVersion 9 (orders "3.0.0" published) five.

Definition returned (r : World * result APIVersion.t) (d : VersionData.t) : APIVersion.t :=
  match snd r with
  | Ok v => v
  | Throw _ => newVersion d patch 0
  end.

Definition sixthRecord : APIVersion.t := returned sixth (orders "3.0.0" published).
Definition afterSixth : World := fst sixth.

(** A published 1.0.0 with two endpoints and a draft 3.0.0 that lacks one. *)
Definition two : World :=
  Sample.createAll 0
    [orders "1.0.0" published; Sample.data "orders" "3.0.0" draft Sample.specB]
    Sample.empty.

Definition third : World * result APIVersion.t :=
  createVersion 1 (orders "3.0.1" draft) two.

Definition thirdRecord : APIVersion.t := returned third (orders "3.0.1" draft).

Definition supportEnds : DeprecationPlan.t :=
  DeprecationPlan.mk "superseded" "see the changelog" 100 (Some "3.0.0").

(** The published versions once the sixth is written, before the policy
    runs. *)
Definition active : list APIVersion.t := publishedOf "orders" (persisted sixthRecord five).

(** The two records of [two]. *)
Definition firstRecord : APIVersion.t := newVersion (orders "1.0.0" published) patch 0.
Definition secondRecord : APIVersion.t :=
  newVersion (Sample.data "orders" "3.0.0" draft Sample.specB) major 0.

End Scenario.

(* ================================================================== *)
(** ** The HTTP routes

    [initializeRoutes]: each handler forwards to one operation and turns an
    exception of any kind into status 500 with a fixed message.  The path
    parameters, the tenant identifier put on the request by the tenant
    middleware, and the JSON body are the handler's inputs. *)

Inductive ResponseBody : Type :=
| VersionBody (version : APIVersion.t)
| VersionsBody (versions : list APIVersion.t)
| ReportBody (comparison : CompatibilityReport.t)
| PlanBody (migrationPlan : MigrationPlan.t)
| MessageBody (message : string)
| ErrorBody (error : string).

(** [res.status(code).json(body)]; [res.json(body)] answers 200. *)
Record Response : Type := mkResponse {
  statusCode : Z;
  payload : ResponseBody
}.

(** [{ ...req.body, apiId, tenantId }]. *)
Definition withIds (body : VersionData.t) (apiId tenantId : string) : VersionData.t :=
  VersionData.mk apiId tenantId
    (VersionData.version body) (VersionData.status body)
    (VersionData.publishedAt body) (VersionData.deprecatedAt body)
    (VersionData.retiredAt body) (VersionData.createdBy body)
    (VersionData.changelog body) (VersionData.breakingChanges body)
    (VersionData.compatibilityLevel body) (VersionData.specification body)
    (VersionData.deployment body) (VersionData.deprecationPlan body).

Inductive Request : Type :=
| PostVersion (apiId : string) (tenantId : option string) (body : VersionData.t)
    (* POST /apis/:apiId/versions; [tenantId] is [req.tenant?.tenantId] *)
| GetVersionsRoute (apiId : string)
    (* GET /apis/:apiId/versions *)
| GetVersionRoute (apiId version : string)
    (* GET /apis/:apiId/versions/:version *)
| GetCompare (apiId version1 version2 : string)
    (* GET /apis/:apiId/versions/:version1/compare/:version2 *)
| PostDeprecate (apiId version : string) (body : DeprecationPlan.t)
    (* POST /apis/:apiId/versions/:version/deprecate *)
| PostMigrate (apiId fromVersion toVersion strategy : string).
    (* POST /apis/:apiId/versions/:fromVersion/migrate/:toVersion *)

(** [try { ok } catch { res.status(500).json({ error }) }]. *)
Definition answer {A : Type} (r : World * result A) (ok : A -> ResponseBody)
    (error : string) : World * Response :=
  match r with
  | (w, Ok a) => (w, mkResponse 200 (ok a))
  | (w, Throw _) => (w, mkResponse 500 (ErrorBody error))
  end.

Definition handle (JSON_stringify : Json.value -> string) (now : timestamp)
    (random : string) (req : Request) (w : World) : World * Response :=
  match req with
  | PostVersion apiId tenant body =>
      match tenant with
      | Some tenantId =>
          if String.eqb tenantId ""
          then (w, mkResponse 400 (ErrorBody "Tenant context required"))
          else answer (createVersion now (withIds body apiId tenantId) w)
                      VersionBody "Failed to create version"
      | None => (w, mkResponse 400 (ErrorBody "Tenant context required"))
      end
  | GetVersionsRoute apiId =>
      answer (getVersions apiId w) VersionsBody "Failed to get versions"
  | GetVersionRoute apiId version =>
      match getVersion apiId version w with
      | (w', Ok (Some apiVersion)) => (w', mkResponse 200 (VersionBody apiVersion))
      | (w', Ok None) => (w', mkResponse 404 (ErrorBody "Version not found"))
      | (w', Throw _) => (w', mkResponse 500 (ErrorBody "Failed to get version"))
      end
  | GetCompare apiId version1 version2 =>
      answer (compareVersions JSON_stringify apiId version1 version2 w)
             ReportBody "Failed to compare versions"
  | PostDeprecate apiId version body =>
      answer (deprecateVersion now apiId version body w)
             (fun _ => MessageBody "Version deprecated successfully")
             "Failed to deprecate version"
  | PostMigrate apiId fromVersion toVersion strategy =>
      answer (createMigrationPlan JSON_stringify now random apiId fromVersion toVersion
                strategy w)
             PlanBody "Failed to create migration plan"
  end.

(* ================================================================== *)
(** ** Further vocabulary *)

(** Every record of [table] is still stored in [table'], related by [R]. *)
Definition tracks (R : APIVersion.t -> APIVersion.t -> Prop)
    (table table' : list APIVersion.t) : Prop :=
  forall apiId version v,
    find (has_key apiId version) table = Some v ->
    exists v', find (has_key apiId version) table' = Some v' /\ R v v'.

(** Everything in a record but its lifecycle fields (status, deprecatedAt,
    retiredAt, deprecationPlan). *)
Definition content (v : APIVersion.t) :=
  (APIVersion.apiId v, APIVersion.tenantId v, APIVersion.version v,
   APIVersion.createdAt v, APIVersion.publishedAt v, APIVersion.createdBy v,
   APIVersion.changelog v, APIVersion.breakingChanges v,
   APIVersion.compatibilityLevel v, APIVersion.specification v,
   APIVersion.deployment v, APIVersion.metrics v).

(** The object stored in the bucket under a key, and the plan stored under an
    identifier. *)
Definition object (w : World) (key : string) : option S3Object.t :=
  option_map snd (find (fun kv => String.eqb (fst kv) key) (bucket w)).

Definition planOf (w : World) (id : string) : option MigrationPlan.t :=
  find (fun p => String.eqb (MigrationPlan.id p) id) (plansTable w).

(** The record written last among those of [table] whose specification goes
    under the object key [k]. *)
Definition lastUnder (k : string) (table : list APIVersion.t) : option APIVersion.t :=
  find (fun u => String.eqb (specificationKey u) k) (rev table).

(** The specification document of a record. *)
Definition documentOf (u : APIVersion.t) : S3Object.t :=
  S3Object.mk (APIVersion.specification u)
    (APIVersion.apiId u, APIVersion.version u, APIVersion.tenantId u,
     APIVersion.createdAt u).

(** The configured policy of an api, if any. *)
Definition policyOfApi (w : World) (apiId : string) : option APILifecyclePolicy.t :=
  find (fun p => String.eqb (APILifecyclePolicy.apiId p) apiId) (policiesTable w).

(** The time at which the support ends of a version that the policy
    deprecates at [now], and whether a [Date] holds a time. *)
Definition supportEnd (now : timestamp) (policy : APILifecyclePolicy.t) : Z :=
  now + Policy.supportPeriod (APILifecyclePolicy.policy policy) * 86400000.

Definition dateHolds (t : Z) : bool :=
  (-8640000000000000 <=? t) && (t <=? 8640000000000000).

(** No number in the data of a request is beyond the safe integers: the
    replicas, the interval and the timeout of the health check, and the
    numbers in the paths and the components of the specification. *)
Definition marshallable (versionData : VersionData.t) : bool :=
  safeVersion (newVersion versionData patch 0).


(** The number of findings of a severity. *)
Definition countSeverity (s : Severity) (l : list BreakingChange.t) : Z :=
  Z.of_nat (List.length (filter (fun f => match BreakingChange.severity f, s with
                                          | critical, critical => true
                                          | high, high => true
                                          | medium, medium => true
                                          | low, low => true
                                          | _, _ => false
                                          end) l)).

(** The share of findings of each kind. *)
Definition countType (t : ChangeType) (l : list BreakingChange.t) : nat :=
  List.length (filter (fun f => match BreakingChange.type f, t with
                                | removed_endpoint, removed_endpoint => true
                                | changed_response_format, changed_response_format => true
                                | changed_schema, changed_schema => true
                                | added_required_field, added_required_field => true
                                | _, _ => false
                                end) l).

(* ================================================================== *)
(** ** Further scenarios *)

Module Cases.

(** [five] with one published version of a second api. *)
Definition mixed : World :=
  Sample.createAll 0 [Sample.data "billing" "1.0.0" published Sample.specA] Scenario.five.


Definition deprecateFirst : Request :=
  PostDeprecate "orders" "1.0.0" Scenario.supportEnds.

Definition postInvalid : Request :=
  PostVersion "orders" (Some "tenant-9") (Scenario.orders "v1" draft).

(** A published 1.0.0, and the creation of a next version after it. *)
Definition one : World :=
  Sample.createAll 0 [Scenario.orders "1.0.0" published] Sample.empty.

Definition next (version : string) : World * result APIVersion.t :=
  createVersion 1 (Scenario.orders version draft) one.

(** Two versions whose tenant and api identifiers spell one object key. *)
Definition shared : World :=
  Sample.createAll 0
    [withIds (Sample.data "b" "1.0.0" published Sample.specA) "b" "t/a";
     withIds (Sample.data "a/b" "1.0.0" published Sample.specB) "a/b" "t"]
    Sample.empty.

Definition sharedFirst : APIVersion.t :=
  newVersion (withIds (Sample.data "b" "1.0.0" published Sample.specA) "b" "t/a") patch 0.
Definition sharedSecond : APIVersion.t :=
  newVersion (withIds (Sample.data "a/b" "1.0.0" published Sample.specB) "a/b" "t") patch 0.

(** Five published versions under a policy whose support period, of a
    hundred million days and one, ends after the last time value. *)
Definition endless : World :=
  Sample.createAll 0
    (map (fun version => Scenario.orders version published)
         ["1.0.0"; "1.1.0"; "1.2.0"; "0.9.0"; "2.0.0"])
    (Sample.withPolicy (Sample.policyOf "orders" 5 100000001) Sample.empty).

Definition postSixth : Request :=
  PostVersion "orders" (Some "tenant-1") (Scenario.orders "3.0.0" published).

End Cases.

(* ================================================================== *)
(** * The royalty distribution service: cloning criteria and shares

    [RoyaltyDistributionService] computes on JavaScript numbers, which are
    binary64 floats, so they are modelled by the primitive floats.  The
    [metrics] objects are untyped in the source.  A numeric field that is
    absent reads as [undefined], which compares and adds like NaN, and that
    is how an absent field is represented; [innovation] is also passed to a
    parameter with a default value, so it is optional. *)

Module Royalty.
Import PrimFloat.
#[local] Set Warnings "-inexact-float".
Local Open Scope float_scope.

(** [Math.min] of two numbers: NaN if either is, and the negative zero of
    two zeros. *)
Definition Math_min (a b : float) : float :=
  if is_nan a || is_nan b then nan
  else if a <? b then a
  else if b <? a then b
  else if get_sign a then a else b.

Module ContainerMetrics.
Record t := mk {
  successRate : float;
  uptime : float;
  averageRating : float;
  monthlyRevenue : float;
  userRetentionRate : float;
  growthRate : float;
  avgResponseTime : float;
  innovation : option float
}.
End ContainerMetrics.

Module Criterion.
Record t := mk {
  name : string;
  check : bool;
  weight : float
}.
End Criterion.

Module CloningValidation.
Record t := mk {
  eligible : bool;
  score : float;
  failures : list string
}.
End CloningValidation.

Module CloneRoyalty.
Record t := mk {
  cloneId : string;
  originalCreatorId : string;
  cloneCreatorId : string;
  originalShare : float;
  cloneShare : float;
  performanceBonus : float
}.
End CloneRoyalty.

Module RoyaltyTier.
Record t := mk {
  tier : string;
  minSuccessRate : float;
  minUptime : float;
  minUserRating : float;
  royaltyBonus : float
}.
End RoyaltyTier.

Module TierInfo.
Record t := mk {
  currentTier : string;
  nextTier : option string;
  progressToNext : float
}.
End TierInfo.

(** The criteria of [validateCloningCriteria]; each [check] is a closure
    over [metrics] that the loop calls once. *)
Definition criteria (metrics : ContainerMetrics.t) : list Criterion.t :=
  [ Criterion.mk "Success Rate ≥ 98%"
      (98 <=? ContainerMetrics.successRate metrics) 25;
    Criterion.mk "Uptime ≥ 99.5%"
      (99.5 <=? ContainerMetrics.uptime metrics) 20;
    Criterion.mk "User Rating ≥ 4.5"
      (4.5 <=? ContainerMetrics.averageRating metrics) 15;
    Criterion.mk "Monthly Revenue ≥ $10K"
      (10000 <=? ContainerMetrics.monthlyRevenue metrics) 15;
    Criterion.mk "User Retention ≥ 85%"
      (85 <=? ContainerMetrics.userRetentionRate metrics) 10;
    Criterion.mk "Growth Rate ≥ 15%"
      (15 <=? ContainerMetrics.growthRate metrics) 10;
    Criterion.mk "Response Time ≤ 150ms"
      (ContainerMetrics.avgResponseTime metrics <=? 150) 5 ].

Definition validateCloningCriteria (metrics : ContainerMetrics.t)
  : CloningValidation.t :=
  let '(failures, totalScore, maxScore) :=
    fold_left
      (fun '(failures, totalScore, maxScore) criterion =>
         let maxScore := maxScore + Criterion.weight criterion in
         if Criterion.check criterion
         then (failures, totalScore + Criterion.weight criterion, maxScore)
         else ((failures ++ [Criterion.name criterion])%list, totalScore, maxScore))
      (criteria metrics) ([], 0, 0) in
  let score := (totalScore / maxScore) * 100 in
  let eligible := 85 <=? score in
  CloningValidation.mk eligible score failures.

(** [innovation] is [None] when the caller passes [undefined]; the default
    0.5 then applies. *)
Definition calculateOriginalCreatorShare (successRate : float)
    (innovation : option float) : float :=
  let innovation := match innovation with Some i => i | None => 0.5 end in
  let baseShare := 18 in
  let performanceBonus :=
    if 99 <? successRate then 7 else if 97 <? successRate then 4 else 0 in
  let innovationBonus :=
    if 0.8 <? innovation then 5 else if 0.6 <? innovation then 2 else 0 in
  Math_min 30 (baseShare + performanceBonus + innovationBonus).

Definition newline : string := String (ascii_of_nat 10) EmptyString.

(** [cloneSuccessfulContainer], as far as the royalty set-up it returns.
    What the awaited calls answer is a parameter: [sourceMetrics] (the
    container's metrics), [creatorId] (the creator in the source container's
    royalty configuration), [cloneId] (the container id in the answer of the
    deployment request).  [cloneCreatorId] is [enhancements.cloneCreatorId].
    The error carries the message built from the failed criteria.  The
    cloning cost, the ROI projection and the configurations written to the
    store do not enter the royalty set-up and are left out. *)
Definition cloneSuccessfulContainer (sourceMetrics : ContainerMetrics.t)
    (creatorId : string) (cloneCreatorId : option string) (cloneId : string)
  : string + CloneRoyalty.t :=
  let cloningValidation := validateCloningCriteria sourceMetrics in
  if negb (CloningValidation.eligible cloningValidation) then
    inl ("Container does not meet cloning criteria:" ++ newline ++
         String.concat newline
           (map (fun f => "- " ++ f) (CloningValidation.failures cloningValidation)))%string
  else
    let originalCreatorShare :=
      calculateOriginalCreatorShare (ContainerMetrics.successRate sourceMetrics)
                                    (ContainerMetrics.innovation sourceMetrics) in
    let performanceBonus :=
      if 99 <? ContainerMetrics.successRate sourceMetrics then 5
      else if 97 <? ContainerMetrics.successRate sourceMetrics then 3 else 0 in
    inr (CloneRoyalty.mk
           cloneId
           creatorId
           (match cloneCreatorId with
            | Some c => if String.eqb c "" then "anonymous" else c
            | None => "anonymous"
            end)
           (originalCreatorShare + performanceBonus)
           (100 - (originalCreatorShare + performanceBonus))
           performanceBonus).

(** The condition under which the loop of [calculateTierInfo] moves to a
    tier. *)
Definition meetsTier (metrics : ContainerMetrics.t) (tier : RoyaltyTier.t) : bool :=
  (RoyaltyTier.minSuccessRate tier <=? ContainerMetrics.successRate metrics)
  && (RoyaltyTier.minUptime tier <=? ContainerMetrics.uptime metrics)
  && (RoyaltyTier.minUserRating tier <=? ContainerMetrics.averageRating metrics).

(** One round of the loop of [calculateTierInfo], at index [i]. *)
Definition tierStep (metrics : ContainerMetrics.t) (tiers : list RoyaltyTier.t)
    (info : TierInfo.t) (i : nat) : TierInfo.t :=
  match nth_error tiers i with
  | None => info
  | Some tier =>
      if meetsTier metrics tier then
        let nextTier :=
          if (i <? List.length tiers - 1)%nat
          then option_map RoyaltyTier.tier (nth_error tiers (i + 1))
          else None in
        let progressToNext :=
          match nextTier, nth_error tiers (i + 1) with
          | Some n, Some nextTierReq =>
              if String.eqb n "" then TierInfo.progressToNext info
              else
                let successProgress :=
                  (ContainerMetrics.successRate metrics - RoyaltyTier.minSuccessRate tier)
                  / (RoyaltyTier.minSuccessRate nextTierReq - RoyaltyTier.minSuccessRate tier) in
                let uptimeProgress :=
                  (ContainerMetrics.uptime metrics - RoyaltyTier.minUptime tier)
                  / (RoyaltyTier.minUptime nextTierReq - RoyaltyTier.minUptime tier) in
                let ratingProgress :=
                  (ContainerMetrics.averageRating metrics - RoyaltyTier.minUserRating tier)
                  / (RoyaltyTier.minUserRating nextTierReq - RoyaltyTier.minUserRating tier) in
                Math_min 100 ((successProgress + uptimeProgress + ratingProgress) / 3 * 100)
          | _, _ => TierInfo.progressToNext info
          end in
        TierInfo.mk (RoyaltyTier.tier tier) nextTier progressToNext
      else info
  end.

Definition calculateTierInfo (metrics : ContainerMetrics.t)
    (tiers : list RoyaltyTier.t) : TierInfo.t :=
  fold_left (tierStep metrics tiers) (seq 0 (List.length tiers))
            (TierInfo.mk "bronze" None 0).

(** The weight of the criteria that [metrics] fails. *)
Definition lostWeight (metrics : ContainerMetrics.t) : Z :=
  ((if (98 <=? ContainerMetrics.successRate metrics)%float then 0 else 25)
   + (if (99.5 <=? ContainerMetrics.uptime metrics)%float then 0 else 20)
   + (if (4.5 <=? ContainerMetrics.averageRating metrics)%float then 0 else 15)
   + (if (10000 <=? ContainerMetrics.monthlyRevenue metrics)%float then 0 else 15)
   + (if (85 <=? ContainerMetrics.userRetentionRate metrics)%float then 0 else 10)
   + (if (15 <=? ContainerMetrics.growthRate metrics)%float then 0 else 10)
   + (if (ContainerMetrics.avgResponseTime metrics <=? 150)%float then 0 else 5))%Z.

(** The metrics that [getContainerMetrics] answers for every container. *)
Definition getContainerMetrics (containerId : string) : ContainerMetrics.t :=
  ContainerMetrics.mk 98.7 99.8 4.8 25000 92 28 95 (Some 0.9).

(** The tiers that [setupAdvancedCloneRoyalty] configures. *)
Definition royaltyTiers : list RoyaltyTier.t :=
  [ RoyaltyTier.mk "bronze" 90 95 3.5 1.0;
    RoyaltyTier.mk "silver" 95 98 4.0 1.2;
    RoyaltyTier.mk "gold" 98 99 4.5 1.5;
    RoyaltyTier.mk "platinum" 99 99.5 4.7 2.0 ].

(** Metrics below the minimums of every configured tier. *)
Definition newcomer : ContainerMetrics.t :=
  ContainerMetrics.mk 80 90 3 0 0 0 500 None.

End Royalty.

(* ================================================================== *)
(** * Properties *)

(** ** The stores *)

Ltac run := unfold bind, ret, throw, lift, setVersions, setBucket, setPlans; simpl.

Lemma has_key_true (apiId version : string) (v : APIVersion.t) :
  has_key apiId version v = true <->
  APIVersion.apiId v = apiId /\ APIVersion.version v = version.
Proof.
  unfold has_key. rewrite andb_true_iff, !String.eqb_eq. tauto.
Qed.

Lemma has_key_self (v : APIVersion.t) :
  has_key (APIVersion.apiId v) (APIVersion.version v) v = true.
Proof. apply has_key_true. tauto. Qed.

Lemma has_key_setDeprecated apiId version now plan v :
  has_key apiId version (setDeprecated now plan v) = has_key apiId version v.
Proof. reflexivity. Qed.

Lemma has_key_setRetired apiId version now v :
  has_key apiId version (setRetired now v) = has_key apiId version v.
Proof. reflexivity. Qed.

(** An update that keeps the key of every item acts on a lookup pointwise. *)
Lemma find_updateItem apiId version apiId' version' set table :
  (forall v, has_key apiId version (set v) = has_key apiId version v) ->
  find (has_key apiId version) (updateItem apiId' version' set table) =
  option_map (fun v => if has_key apiId' version' v then set v else v)
             (find (has_key apiId version) table).
Proof.
  intros Hset. induction table as [|v table IH]; simpl; [reflexivity|].
  destruct (has_key apiId' version' v) eqn:Hk.
  - rewrite Hset. destruct (has_key apiId version v); simpl; [now rewrite Hk | exact IH].
  - destruct (has_key apiId version v); simpl; [now rewrite Hk | exact IH].
Qed.

Lemma find_putItem_same item table :
  find (has_key (APIVersion.apiId item) (APIVersion.version item)) (putItem item table)
  = Some item.
Proof.
  induction table as [|v table IH]; simpl.
  - now rewrite has_key_self.
  - destruct (has_key _ _ v) eqn:Hk; simpl.
    + now rewrite has_key_self.
    + now rewrite Hk.
Qed.

Lemma find_putItem_other apiId version item table :
  has_key apiId version item = false ->
  find (has_key apiId version) (putItem item table) = find (has_key apiId version) table.
Proof.
  intros Hk. induction table as [|v table IH]; simpl.
  - now rewrite Hk.
  - destruct (has_key (APIVersion.apiId item) (APIVersion.version item) v) eqn:Hv; simpl.
    + rewrite Hk. apply has_key_true in Hv. destruct Hv as [Ha Hv].
      unfold has_key in *. rewrite Ha, Hv. now rewrite Hk.
    + destruct (has_key apiId version v); [reflexivity | exact IH].
Qed.

Lemma putItem_fresh item table :
  find (has_key (APIVersion.apiId item) (APIVersion.version item)) table = None ->
  putItem item table = (table ++ [item])%list.
Proof.
  induction table as [|v table IH]; simpl; [reflexivity|].
  destruct (has_key _ _ v); [discriminate|]. intros H. now rewrite IH.
Qed.

(** ** The order of a query *)

Lemma Js_insert_perm {A : Type} (cmp : A -> A -> comparison) x l :
  Permutation (Js.insert cmp x l) (x :: l).
Proof.
  induction l as [|y l IH]; simpl; [reflexivity|].
  destruct (cmp x y); try reflexivity.
  rewrite IH. apply perm_swap.
Qed.

Lemma Js_sort_perm {A : Type} (cmp : A -> A -> comparison) l :
  Permutation (Js.sort cmp l) l.
Proof.
  induction l as [|x l IH]; simpl; [reflexivity|].
  rewrite Js_insert_perm. now constructor.
Qed.

Lemma Js_sort_In {A : Type} (cmp : A -> A -> comparison) l x :
  In x (Js.sort cmp l) <-> In x l.
Proof.
  split; apply Permutation_in; [|apply Permutation_sym]; apply Js_sort_perm.
Qed.

(** The versions of an api are the stored records with its identifier. *)
Lemma In_versionsOf apiId w u :
  In u (versionsOf apiId w) <-> In u (versionsTable w) /\ APIVersion.apiId u = apiId.
Proof.
  unfold versionsOf. rewrite Js_sort_In, filter_In, String.eqb_eq. tauto.
Qed.

Lemma In_publishedOf apiId w u :
  In u (publishedOf apiId w) <->
  In u (versionsTable w) /\ APIVersion.apiId u = apiId /\ APIVersion.status u = published.
Proof.
  unfold publishedOf, isPublished. rewrite filter_In, In_versionsOf.
  split.
  - intros [[H1 H2] H3]. repeat split; try assumption.
    destruct (APIVersion.status u); simpl in H3; congruence.
  - intros (H1 & H2 & H3). rewrite H3. repeat split; assumption.
Qed.

Lemma Permutation_filter {A : Type} (p : A -> bool) l l' :
  Permutation l l' -> Permutation (filter p l) (filter p l').
Proof.
  induction 1 as [|x l l' _ IH|x y l|l l' l'' _ IH1 _ IH2]; simpl.
  - constructor.
  - destruct (p x); [now constructor | exact IH].
  - destruct (p x), (p y); try reflexivity. apply perm_swap.
  - now transitivity (filter p l').
Qed.

(** Up to their order, the published versions of an api are the stored
    records with its identifier and status published. *)
Lemma publishedOf_perm apiId w :
  Permutation (publishedOf apiId w)
    (filter isPublished
       (filter (fun v => String.eqb (APIVersion.apiId v) apiId) (versionsTable w))).
Proof.
  unfold publishedOf, versionsOf. apply Permutation_filter. apply Js_sort_perm.
Qed.

Lemma NoDup_key_versionsOf apiId w :
  NoDup (map key (versionsTable w)) -> NoDup (map key (publishedOf apiId w)).
Proof.
  intros Hnd.
  eapply Permutation_NoDup;
    [apply Permutation_map, Permutation_sym, publishedOf_perm|].
  clear -Hnd. induction (versionsTable w) as [|x l IH]; simpl; [constructor|].
  inversion Hnd as [|? ? Hx Hnd']; subst. specialize (IH Hnd').
  assert (Hsub : forall y, In y (map key (filter isPublished
                   (filter (fun v => String.eqb (APIVersion.apiId v) apiId) l))) ->
                 In y (map key l)).
  { intros y Hy. apply in_map_iff in Hy. destruct Hy as (z & <- & Hz).
    apply filter_In in Hz. destruct Hz as [Hz _]. apply filter_In in Hz.
    apply in_map. tauto. }
  destruct (String.eqb (APIVersion.apiId x) apiId); simpl; [|exact IH].
  destruct (isPublished x); simpl; [|exact IH].
  constructor; [|exact IH]. intros Hin. apply Hx. now apply Hsub.
Qed.

(** ** What each store operation does, by cases *)

Lemma deprecateVersion_unfold now apiId version plan w :
  deprecateVersion now apiId version plan w =
  match find (has_key apiId version) (versionsTable w) with
  | None => (w, Throw VersionNotFound)
  | Some v =>
      if Status_eqb (APIVersion.status v) published
      then (mkWorld (updateItem apiId version (setDeprecated now plan) (versionsTable w))
                    (policiesTable w) (plansTable w) (bucket w), Ok tt)
      else (w, Throw InvalidDeprecation)
  end.
Proof.
  unfold deprecateVersion, getVersion. run.
  destruct (find _ _) as [v|]; [|reflexivity].
  destruct (Status_eqb _ _); reflexivity.
Qed.

Lemma retireVersion_unfold now apiId version w :
  retireVersion now apiId version w =
  match find (has_key apiId version) (versionsTable w) with
  | None => (w, Throw VersionNotFound)
  | Some v =>
      if Status_eqb (APIVersion.status v) deprecated
      then (mkWorld (updateItem apiId version (setRetired now) (versionsTable w))
                    (policiesTable w) (plansTable w) (bucket w), Ok tt)
      else (w, Throw InvalidRetirement)
  end.
Proof.
  unfold retireVersion, getVersion. run.
  destruct (find _ _) as [v|]; [|reflexivity].
  destruct (Status_eqb _ _); reflexivity.
Qed.

Lemma Status_eqb_eq a b : Status_eqb a b = true <-> a = b.
Proof. destruct a, b; simpl; split; congruence. Qed.

(** ** createVersion: rejections *)

Lemma createVersion_duplicate now versionData w existing :
  SemVer.valid (VersionData.version versionData) = true ->
  find (has_key (VersionData.apiId versionData) (VersionData.version versionData))
       (versionsTable w) = Some existing ->
  createVersion now versionData w = (w, Throw DuplicateVersion).
Proof.
  intros Hv Hf. unfold createVersion, getVersion. rewrite Hv. run. now rewrite Hf.
Qed.

(** ** Reading operations leave the stores alone *)

Lemma getLatestVersion_world apiId w : fst (getLatestVersion apiId w) = w.
Proof.
  unfold getLatestVersion, getVersions. unfold bind, ret, lift. cbn [fst snd].
  destruct (Js.sort bySortKey _); [reflexivity|].
  destruct (JsM.sort _ _); reflexivity.
Qed.

Lemma compareVersions_world JSON_stringify apiId v1 v2 w :
  fst (compareVersions JSON_stringify apiId v1 v2 w) = w.
Proof.
  unfold compareVersions, getVersion. run.
  destruct (find _ _); [destruct (find _ _)|]; reflexivity.
Qed.

(** ** The lifecycle loop *)

(** Whatever holds of the versions table and is kept by deprecating a
    published record holds after the loop, whether it finished or threw; the
    other stores are not touched. *)
Lemma forEach_deprecate_invariant now plan (P : list APIVersion.t -> Prop) :
  (forall table apiId version v,
      P table -> find (has_key apiId version) table = Some v ->
      APIVersion.status v = published ->
      P (updateItem apiId version (setDeprecated now plan) table)) ->
  forall l w,
    P (versionsTable w) ->
    let w' := fst (forEach (fun o => deprecateVersion now (APIVersion.apiId o)
                                       (APIVersion.version o) plan) l w) in
    P (versionsTable w') /\ policiesTable w' = policiesTable w /\
    plansTable w' = plansTable w /\ bucket w' = bucket w.
Proof.
  intros Hstep l. induction l as [|o l IH]; intros w HP; simpl; [tauto|].
  unfold bind. rewrite deprecateVersion_unfold.
  destruct (find _ _) as [v|] eqn:Hf; simpl; [|tauto].
  destruct (Status_eqb _ _) eqn:Hs; simpl; [|tauto].
  apply Status_eqb_eq in Hs.
  specialize (IH (mkWorld (updateItem (APIVersion.apiId o) (APIVersion.version o)
                             (setDeprecated now plan) (versionsTable w))
                          (policiesTable w) (plansTable w) (bucket w))).
  simpl in IH. apply IH. eapply Hstep; eauto.
Qed.

Lemma forEach_ext {A : Type} (f g : A -> M unit) l :
  (forall o w, f o w = g o w) -> forall w, forEach f l w = forEach g l w.
Proof.
  intros Hfg. induction l as [|o l IH]; intros w; simpl; [reflexivity|].
  unfold bind. rewrite Hfg. destruct (g o w) as [w' [[]|e]]; [apply IH | reflexivity].
Qed.

(** A loop whose rounds start by building the same plan: it stops in its
    first round if that throws, and does nothing on an empty list. *)
Lemma forEach_with_plan {A : Type} (r : result DeprecationPlan.t)
    (f : A -> DeprecationPlan.t -> M unit) l w :
  forEach (fun o => plan <- lift r ;; f o plan) l w =
  match l, r with
  | [], _ => (w, Ok tt)
  | _ :: _, Throw e => (w, Throw e)
  | _ :: _, Ok plan => forEach (fun o => f o plan) l w
  end.
Proof.
  destruct l as [|o l]; [reflexivity|].
  destruct r as [plan|e]; [|reflexivity].
  apply forEach_ext. intros o' w'. reflexivity.
Qed.

Lemma applyLifecyclePolicy_unfold now version w :
  applyLifecyclePolicy now version w =
  match find (fun p => String.eqb (APILifecyclePolicy.apiId p) (APIVersion.apiId version))
             (policiesTable w) with
  | None => (w, Ok tt)
  | Some policy =>
      let activeVersions := publishedOf (APIVersion.apiId version) w in
      let maxVersions := Policy.maxVersions (APILifecyclePolicy.policy policy) in
      if maxVersions <? Z.of_nat (List.length activeVersions) then
        match JsM.sort (fun a b => SemVer.compare (APIVersion.version a) (APIVersion.version b))
                       activeVersions with
        | Throw e => (w, Throw e)
        | Ok sortedVersions =>
            let toDeprecate :=
              Js.slice0 sortedVersions (Z.of_nat (List.length activeVersions) - maxVersions) in
            match toDeprecate, policyPlan now policy version with
            | [], _ => (w, Ok tt)
            | _ :: _, Throw e => (w, Throw e)
            | _ :: _, Ok plan =>
                forEach (fun o => deprecateVersion now (APIVersion.apiId o)
                                    (APIVersion.version o) plan) toDeprecate w
            end
        end
      else (w, Ok tt)
  end.
Proof.
  unfold applyLifecyclePolicy, getLifecyclePolicy, getVersions, publishedOf, versionsOf.
  unfold bind at 1 2. cbn [fst snd].
  destruct (find _ _) as [policy|]; [|reflexivity].
  destruct (_ <? _); [|reflexivity].
  unfold bind at 1, lift at 1.
  destruct (JsM.sort _ _) as [sorted|e]; [|reflexivity].
  cbv zeta.
  apply (forEach_with_plan (policyPlan now policy version)
           (fun o plan => deprecateVersion now (APIVersion.apiId o) (APIVersion.version o) plan)).
Qed.

Lemma applyLifecyclePolicy_invariant now version (P : list APIVersion.t -> Prop) :
  (forall plan table apiId version v,
      P table -> find (has_key apiId version) table = Some v ->
      APIVersion.status v = published ->
      P (updateItem apiId version (setDeprecated now plan) table)) ->
  forall w,
    P (versionsTable w) ->
    let w' := fst (applyLifecyclePolicy now version w) in
    P (versionsTable w') /\ policiesTable w' = policiesTable w /\
    plansTable w' = plansTable w /\ bucket w' = bucket w.
Proof.
  intros Hstep w HP. rewrite applyLifecyclePolicy_unfold.
  destruct (find _ _) as [policy|]; simpl; [|tauto].
  destruct (_ <? _); simpl; [|tauto].
  destruct (JsM.sort _ _) as [sorted|e]; simpl; [|tauto].
  destruct (Js.slice0 _ _) as [|o old]; simpl; [tauto|].
  destruct (policyPlan _ _ _) as [plan|e]; simpl; [|tauto].
  apply (forEach_deprecate_invariant now plan P (Hstep plan) (o :: old)). exact HP.
Qed.

(** ** createVersion, step by step *)

(** The level [createVersion] computes from the latest stored version. *)
Lemma createVersion_unfold now versionData w :
  createVersion now versionData w =
  if negb (SemVer.valid (VersionData.version versionData))
  then (w, Throw InvalidVersionFormat)
  else
    match stored w (VersionData.apiId versionData) (VersionData.version versionData) with
    | Some _ => (w, Throw DuplicateVersion)
    | None =>
        match snd (getLatestVersion (VersionData.apiId versionData) w) with
        | Throw e => (w, Throw e)
        | Ok latest =>
            let level :=
              match latest with
              | None => Ok patch
              | Some l =>
                  match SemVer.diff (APIVersion.version l) (VersionData.version versionData) with
                  | Ok d => Ok (levelOfDiff d)
                  | Throw e => Throw e
                  end
              end in
            match level with
            | Throw e => (w, Throw e)
            | Ok level =>
                let version := newVersion versionData level now in
                if safeVersion version then
                  let w1 := mkWorld (putItem version (versionsTable w)) (policiesTable w)
                              (plansTable w)
                              (putObject (specificationKey version)
                                 (S3Object.mk (APIVersion.specification version)
                                    (APIVersion.apiId version, APIVersion.version version,
                                     APIVersion.tenantId version, APIVersion.createdAt version))
                                 (bucket w)) in
                  match applyLifecyclePolicy now version w1 with
                  | (w', Ok _) => (w', Ok version)
                  | (w', Throw e) => (w', Throw e)
                  end
                else (w, Throw UnsafeNumber)
            end
        end
    end.
Proof.
  unfold createVersion, stored, getVersion.
  destruct (negb _); [reflexivity|]. run.
  destruct (find _ _); [reflexivity|].
  pose proof (getLatestVersion_world (VersionData.apiId versionData) w) as Hw.
  destruct (getLatestVersion _ w) as [w0 [latest|e]]; simpl in *; subst w0; [|reflexivity].
  destruct latest as [l|]; simpl.
  - destruct (SemVer.diff _ _) as [d|e]; simpl; [|reflexivity].
    unfold marshall. destruct (safeVersion _); [|reflexivity].
    unfold storeSpecification. run. reflexivity.
  - unfold marshall. destruct (safeVersion _); [|reflexivity].
    unfold storeSpecification. run. reflexivity.
Qed.

(** ** Status transitions *)

Lemma find_has_key apiId version table v :
  find (has_key apiId version) table = Some v -> has_key apiId version v = true.
Proof. intros H. now apply find_some in H. Qed.

Lemma has_key_unique apiId version apiId' version' v :
  has_key apiId version v = true -> has_key apiId' version' v = true ->
  apiId' = apiId /\ version' = version.
Proof. rewrite !has_key_true. intuition congruence. Qed.

Lemma advances_refl table : advances table table.
Proof. intros a v r H. exists r. split; [exact H | lia]. Qed.

Lemma advances_trans t1 t2 t3 : advances t1 t2 -> advances t2 t3 -> advances t1 t3.
Proof.
  intros H12 H23 a v r H. destruct (H12 _ _ _ H) as (r2 & H2 & L2).
  destruct (H23 _ _ _ H2) as (r3 & H3 & L3). exists r3. split; [exact H3 | lia].
Qed.

Lemma advances_update apiId version set (s' : Status) table v :
  (forall a0 v0 u, has_key a0 v0 (set u) = has_key a0 v0 u) ->
  (forall u, APIVersion.status (set u) = s') ->
  find (has_key apiId version) table = Some v ->
  (rank (APIVersion.status v) <= rank s')%nat ->
  advances table (updateItem apiId version set table).
Proof.
  intros Hkey Hset Hf Hle a0 v0 r Hr.
  rewrite find_updateItem, Hr by (intros; apply Hkey). simpl.
  destruct (has_key apiId version r) eqn:Hk.
  - destruct (has_key_unique _ _ _ _ _ (find_has_key _ _ _ _ Hr) Hk) as [-> ->].
    assert (r = v) by congruence. subst r.
    eexists. split; [reflexivity|]. now rewrite Hset.
  - exists r. split; [reflexivity | lia].
Qed.

Lemma advances_putItem item table :
  find (has_key (APIVersion.apiId item) (APIVersion.version item)) table = None ->
  advances table (putItem item table).
Proof.
  intros Hnone a v r Hr. exists r. split; [|lia].
  rewrite find_putItem_other; [exact Hr|].
  destruct (has_key a v item) eqn:Hk; [|reflexivity].
  apply has_key_true in Hk. destruct Hk as [<- <-]. congruence.
Qed.

Lemma deprecateVersion_advances now apiId version plan w :
  advances (versionsTable w) (versionsTable (fst (deprecateVersion now apiId version plan w))).
Proof.
  rewrite deprecateVersion_unfold.
  destruct (find _ _) as [v|] eqn:Hf; simpl; [|apply advances_refl].
  destruct (Status_eqb _ _) eqn:Hs; simpl; [|apply advances_refl].
  apply Status_eqb_eq in Hs.
  eapply advances_update with (s' := deprecated); eauto.
  rewrite Hs. simpl. lia.
Qed.

Lemma retireVersion_advances now apiId version w :
  advances (versionsTable w) (versionsTable (fst (retireVersion now apiId version w))).
Proof.
  rewrite retireVersion_unfold.
  destruct (find _ _) as [v|] eqn:Hf; simpl; [|apply advances_refl].
  destruct (Status_eqb _ _) eqn:Hs; simpl; [|apply advances_refl].
  apply Status_eqb_eq in Hs.
  eapply advances_update with (s' := retired); eauto.
  rewrite Hs. simpl. lia.
Qed.

Lemma applyLifecyclePolicy_advances now version w :
  advances (versionsTable w) (versionsTable (fst (applyLifecyclePolicy now version w))).
Proof.
  apply (applyLifecyclePolicy_invariant now version (advances (versionsTable w)));
    [|apply advances_refl].
  intros plan table a v r Hadv Hf Hs.
  eapply advances_trans; [exact Hadv|].
  eapply advances_update with (s' := deprecated); eauto.
  rewrite Hs. simpl. lia.
Qed.

Lemma createVersion_advances now versionData w :
  advances (versionsTable w) (versionsTable (fst (createVersion now versionData w))).
Proof.
  rewrite createVersion_unfold.
  destruct (negb _); simpl; [apply advances_refl|].
  destruct (stored _ _ _) eqn:Hst; simpl; [apply advances_refl|].
  destruct (snd (getLatestVersion _ _)) as [latest|e]; simpl; [|apply advances_refl].
  match goal with |- context [match ?L with Ok _ => _ | Throw _ => _ end] =>
    destruct L as [level|e] end; simpl; [|apply advances_refl].
  destruct (safeVersion _); simpl; [|apply advances_refl].
  match goal with |- context [applyLifecyclePolicy now ?V ?W] =>
    pose proof (applyLifecyclePolicy_advances now V W) as Hadv;
    destruct (applyLifecyclePolicy now V W) as [w' [[]|e]] end; simpl in *.
  - eapply advances_trans; [|exact Hadv]. apply advances_putItem. exact Hst.
  - eapply advances_trans; [|exact Hadv]. apply advances_putItem. exact Hst.
Qed.

Lemma perform_advances JSON_stringify now op w :
  advances (versionsTable w) (versionsTable (perform JSON_stringify now op w)).
Proof.
  destruct op; simpl.
  - apply createVersion_advances.
  - apply advances_refl.
  - rewrite getLatestVersion_world. apply advances_refl.
  - apply advances_refl.
  - apply deprecateVersion_advances.
  - apply retireVersion_advances.
  - rewrite compareVersions_world. apply advances_refl.
  - unfold createMigrationPlan, bind.
    pose proof (compareVersions_world JSON_stringify apiId fromVersion toVersion w) as Hw.
    destruct (compareVersions _ _ _ _ w) as [w0 [report|e]]; simpl in *; subst w0;
      apply advances_refl.
Qed.

(** C2: for a stored version, [deprecateVersion] succeeds exactly from status
    published (the record becomes deprecated, with [deprecatedAt] recorded)
    and [retireVersion] exactly from status deprecated (the record becomes
    retired, with [retiredAt] recorded); from any other status they throw the
    invalid-transition error and leave every store as it was.  And over any
    request the service handles, the status of a stored version never moves
    backward along draft, published, deprecated, retired. *)
Theorem status_moves_forward JSON_stringify now plan op w apiId version v :
  stored w apiId version = Some v ->
  (match APIVersion.status v with
   | published =>
       exists w' v',
         deprecateVersion now apiId version plan w = (w', Ok tt) /\
         stored w' apiId version = Some v' /\
         APIVersion.status v' = deprecated /\ APIVersion.deprecatedAt v' = Some now
   | _ =>
       exists e, deprecateVersion now apiId version plan w = (w, Throw e) /\
                 InvalidTransition e = true
   end) /\
  (match APIVersion.status v with
   | deprecated =>
       exists w' v',
         retireVersion now apiId version w = (w', Ok tt) /\
         stored w' apiId version = Some v' /\
         APIVersion.status v' = retired /\ APIVersion.retiredAt v' = Some now
   | _ =>
       exists e, retireVersion now apiId version w = (w, Throw e) /\
                 InvalidTransition e = true
   end) /\
  (exists v', stored (perform JSON_stringify now op w) apiId version = Some v' /\
              (rank (APIVersion.status v) <= rank (APIVersion.status v'))%nat).
Proof.
  unfold stored. intros Hf. split; [|split].
  - rewrite deprecateVersion_unfold, Hf.
    destruct (APIVersion.status v) eqn:Hs; simpl;
      try (eexists; split; [reflexivity | reflexivity]).
    eexists; eexists. split; [reflexivity|]. simpl.
    rewrite find_updateItem, Hf by reflexivity. simpl.
    rewrite (find_has_key _ _ _ _ Hf). auto.
  - rewrite retireVersion_unfold, Hf.
    destruct (APIVersion.status v) eqn:Hs; simpl;
      try (eexists; split; [reflexivity | reflexivity]).
    eexists; eexists. split; [reflexivity|]. simpl.
    rewrite find_updateItem, Hf by reflexivity. simpl.
    rewrite (find_has_key _ _ _ _ Hf). auto.
  - apply perform_advances. exact Hf.
Qed.

(** ** Well-formed stores *)

Lemma map_key_updateItem apiId version set table :
  (forall u, key (set u) = key u) ->
  map key (updateItem apiId version set table) = map key table.
Proof.
  intros Hset. unfold updateItem. rewrite map_map. apply map_ext.
  intros u. destruct (has_key _ _ u); [apply Hset | reflexivity].
Qed.

Lemma find_none_key item table :
  find (has_key (APIVersion.apiId item) (APIVersion.version item)) table = None ->
  ~ In (key item) (map key table).
Proof.
  intros Hnone Hin. apply in_map_iff in Hin. destruct Hin as (x & Hk & Hx).
  eapply find_none in Hnone; [|exact Hx].
  unfold key in Hk. injection Hk as Ha Hv.
  assert (has_key (APIVersion.apiId item) (APIVersion.version item) x = true)
    by (apply has_key_true; split; assumption).
  congruence.
Qed.

Lemma wf_update apiId version set w :
  (forall u, key (set u) = key u) ->
  store_wf w ->
  store_wf (mkWorld (updateItem apiId version set (versionsTable w))
                    (policiesTable w) (plansTable w) (bucket w)).
Proof.
  intros Hset [Hnd Hval]. split; simpl.
  - now rewrite map_key_updateItem.
  - unfold updateItem. apply Forall_map. eapply Forall_impl; [|exact Hval]. simpl.
    intros u Hu. destruct (has_key _ _ u); [|exact Hu].
    specialize (Hset u). unfold key in Hset. injection Hset as _ Hv. now rewrite Hv.
Qed.

Lemma table_wf_update apiId version set table :
  (forall u, key (set u) = key u) ->
  table_wf table -> table_wf (updateItem apiId version set table).
Proof.
  intros Hset Hwf.
  apply (wf_update apiId version set (mkWorld table [] [] []) Hset Hwf).
Qed.

Lemma table_wf_putItem item table :
  SemVer.valid (APIVersion.version item) = true ->
  find (has_key (APIVersion.apiId item) (APIVersion.version item)) table = None ->
  table_wf table -> table_wf (putItem item table).
Proof.
  intros Hv Hnone [Hnd Hval]. rewrite putItem_fresh by exact Hnone. split.
  - rewrite map_app. simpl.
    apply NoDup_app; [exact Hnd | repeat constructor; simpl; tauto |].
    intros k Hk [<-|[]]. now apply (find_none_key item table).
  - apply Forall_app. split; [exact Hval | repeat constructor; exact Hv].
Qed.

Lemma applyLifecyclePolicy_wf now version w :
  store_wf w -> store_wf (fst (applyLifecyclePolicy now version w)).
Proof.
  intros Hwf.
  apply (applyLifecyclePolicy_invariant now version table_wf); [|exact Hwf].
  intros plan table a v r Ht _ _. now apply table_wf_update.
Qed.

Lemma createVersion_wf now versionData w :
  store_wf w -> store_wf (fst (createVersion now versionData w)).
Proof.
  intros Hwf. rewrite createVersion_unfold.
  destruct (negb _) eqn:Hvalid; simpl; [exact Hwf|].
  destruct (stored _ _ _) eqn:Hst; simpl; [exact Hwf|].
  destruct (snd (getLatestVersion _ _)) as [latest|e]; simpl; [|exact Hwf].
  match goal with |- context [match ?L with Ok _ => _ | Throw _ => _ end] =>
    destruct L as [level|e] end; simpl; [|exact Hwf].
  destruct (safeVersion _); simpl; [|exact Hwf].
  match goal with |- context [applyLifecyclePolicy now ?V ?W] =>
    pose proof (applyLifecyclePolicy_wf now V W) as Hpol;
    destruct (applyLifecyclePolicy now V W) as [w' [[]|e]] end; simpl in *;
    apply Hpol; apply table_wf_putItem; simpl;
      solve [ now apply negb_false_iff in Hvalid | exact Hst | exact Hwf ].
Qed.

Lemma perform_wf JSON_stringify now op w :
  store_wf w -> store_wf (perform JSON_stringify now op w).
Proof.
  intros Hwf. destruct op; simpl.
  - now apply createVersion_wf.
  - exact Hwf.
  - now rewrite getLatestVersion_world.
  - exact Hwf.
  - rewrite deprecateVersion_unfold.
    destruct (find _ _) as [v|]; simpl; [|exact Hwf].
    destruct (Status_eqb _ _); simpl; [|exact Hwf]. now apply wf_update.
  - rewrite retireVersion_unfold.
    destruct (find _ _) as [v|]; simpl; [|exact Hwf].
    destruct (Status_eqb _ _); simpl; [|exact Hwf]. now apply wf_update.
  - now rewrite compareVersions_world.
  - unfold createMigrationPlan, bind.
    pose proof (compareVersions_world JSON_stringify apiId fromVersion toVersion w) as Hw.
    destruct (compareVersions _ _ _ _ w) as [w0 [report|e]]; simpl in *; subst w0;
      exact Hwf.
Qed.

(** Every world the service reaches has unique keys and valid version
    strings. *)
Lemma reachable_wf w : reachable w -> store_wf w.
Proof.
  induction 1.
  - split; constructor.
  - now apply perform_wf.
  - exact IHreachable.
Qed.

(** ** Duplicates *)

(** C7: in a world the service has reached, a call to [createVersion] for an
    (apiId, version) pair that already has a record throws the duplicate
    error, and the stores are those it was called on: nothing is created or
    overwritten. *)
Theorem createVersion_existing_pair now versionData w existing :
  reachable w ->
  stored w (VersionData.apiId versionData) (VersionData.version versionData) = Some existing ->
  createVersion now versionData w = (w, Throw DuplicateVersion).
Proof.
  intros Hreach Hst. apply createVersion_duplicate with (existing := existing); [|exact Hst].
  destruct (reachable_wf w Hreach) as [_ Hval].
  rewrite Forall_forall in Hval.
  pose proof (find_some _ _ Hst) as [Hin Hk].
  apply has_key_true in Hk. destruct Hk as [_ <-]. now apply Hval.
Qed.

(** A second call with the pair of a call that succeeded fails in the same
    way, in any world. *)
Lemma createVersion_twice now now' versionData versionData' w w1 v :
  createVersion now versionData w = (w1, Ok v) ->
  VersionData.apiId versionData' = VersionData.apiId versionData ->
  VersionData.version versionData' = VersionData.version versionData ->
  createVersion now' versionData' w1 = (w1, Throw DuplicateVersion).
Proof.
  intros Hc Ha Hv. rewrite createVersion_unfold in Hc.
  destruct (negb _) eqn:Hvalid; [discriminate|].
  destruct (stored _ _ _) eqn:Hst; [discriminate|].
  destruct (snd (getLatestVersion _ _)) as [latest|e]; [|discriminate].
  cbv zeta in Hc.
  match type of Hc with context [match ?L with Ok _ => _ | Throw _ => _ end] =>
    destruct L as [level|e] end; [|discriminate].
  destruct (safeVersion _); [|discriminate].
  match type of Hc with context [applyLifecyclePolicy now ?V ?W] =>
    pose proof (applyLifecyclePolicy_advances now V W) as Hadv;
    destruct (applyLifecyclePolicy now V W) as [w' [[]|e]] end; [|discriminate].
  injection Hc as -> <-. simpl in Hadv.
  destruct (Hadv (VersionData.apiId versionData) (VersionData.version versionData)
                 (newVersion versionData level now)) as (r & Hr & _).
  { apply (find_putItem_same (newVersion versionData level now)). }
  apply createVersion_duplicate with (existing := r).
  - rewrite Hv. now apply negb_false_iff in Hvalid.
  - rewrite Ha, Hv. exact Hr.
Qed.

(** ** A successful createVersion *)

Lemma createVersion_Ok now versionData w w' v :
  createVersion now versionData w = (w', Ok v) ->
  SemVer.valid (VersionData.version versionData) = true /\
  stored w (VersionData.apiId versionData) (VersionData.version versionData) = None /\
  exists latest level,
    snd (getLatestVersion (VersionData.apiId versionData) w) = Ok latest /\
    match latest with
    | None => level = patch
    | Some l =>
        exists d, SemVer.diff (APIVersion.version l) (VersionData.version versionData) = Ok d /\
                  level = levelOfDiff d
    end /\
    v = newVersion versionData level now /\
    applyLifecyclePolicy now v (persisted v w) = (w', Ok tt).
Proof.
  intros Hc. rewrite createVersion_unfold in Hc.
  destruct (negb _) eqn:Hvalid; [discriminate|].
  destruct (stored _ _ _) eqn:Hst; [discriminate|].
  destruct (snd (getLatestVersion _ _)) as [latest|e] eqn:Hl; [|discriminate].
  cbv zeta in Hc.
  apply negb_false_iff in Hvalid. split; [exact Hvalid|]. split; [reflexivity|].
  exists latest.
  destruct latest as [l|].
  - destruct (SemVer.diff _ _) as [d|e] eqn:Hd; [|discriminate].
    destruct (safeVersion _); [|discriminate].
    exists (levelOfDiff d). split; [reflexivity|]. split; [now exists d|].
    fold (persisted (newVersion versionData (levelOfDiff d) now) w) in Hc.
    destruct (applyLifecyclePolicy _ _ _) as [w1 [[]|e]] eqn:Hp; [|discriminate].
    injection Hc as -> <-. split; [reflexivity | exact Hp].
  - destruct (safeVersion _); [|discriminate].
    exists patch. split; [reflexivity|]. split; [reflexivity|].
    fold (persisted (newVersion versionData patch now) w) in Hc.
    destruct (applyLifecyclePolicy _ _ _) as [w1 [[]|e]] eqn:Hp; [|discriminate].
    injection Hc as -> <-. split; [reflexivity | exact Hp].
Qed.

(** The record of the new version after the lifecycle policy has run: it is
    the record written, unless the policy deprecated it. *)
Lemma applyLifecyclePolicy_new_record now v w :
  let w' := fst (applyLifecyclePolicy now v (persisted v w)) in
  exists r,
    stored w' (APIVersion.apiId v) (APIVersion.version v) = Some r /\
    APIVersion.metrics r = APIVersion.metrics v /\
    APIVersion.compatibilityLevel r = APIVersion.compatibilityLevel v /\
    (r = v \/ (APIVersion.status v = published /\ APIVersion.status r = deprecated)).
Proof.
  apply (applyLifecyclePolicy_invariant now v
    (fun table => exists r,
       find (has_key (APIVersion.apiId v) (APIVersion.version v)) table = Some r /\
       APIVersion.metrics r = APIVersion.metrics v /\
       APIVersion.compatibilityLevel r = APIVersion.compatibilityLevel v /\
       (r = v \/ (APIVersion.status v = published /\ APIVersion.status r = deprecated)))).
  - intros plan table a ver x (r & Hr & Hm & Hc & Hs) Hx Hpub.
    rewrite find_updateItem, Hr by reflexivity. simpl.
    destruct (has_key a ver r) eqn:Hk.
    + destruct (has_key_unique _ _ _ _ _ (find_has_key _ _ _ _ Hr) Hk) as [-> ->].
      assert (x = r) by congruence. subst x.
      eexists. split; [reflexivity|]. simpl. repeat split; try assumption.
      right. split; [|reflexivity].
      destruct Hs as [->|[_ Hdep]]; [exact Hpub | congruence].
    + exists r. split; [reflexivity | tauto].
  - exists v. simpl. rewrite find_putItem_same. tauto.
Qed.

(** ** Semantic-version precedence is a total preorder *)

Lemma StrictTotal_N : StrictTotal N.compare.
Proof.
  split.
  - apply N.compare_refl.
  - intros a b. apply N.compare_eq_iff.
  - intros a b. apply N.compare_antisym.
  - intros a b c. rewrite !N.compare_lt_iff. lia.
Qed.

Lemma Ascii_compare_refl c : Ascii.compare c c = Eq.
Proof. unfold Ascii.compare. apply N.compare_refl. Qed.

Lemma String_compare_refl s : String.compare s s = Eq.
Proof. induction s as [|c s IH]; simpl; [reflexivity|]. now rewrite Ascii_compare_refl. Qed.

Lemma String_compare_lt_trans a : forall b c,
  String.compare a b = Lt -> String.compare b c = Lt -> String.compare a c = Lt.
Proof.
  induction a as [|x a IH]; intros [|y b] [|z c]; simpl; try congruence.
  destruct (Ascii.compare x y) eqn:Hxy; try discriminate;
    destruct (Ascii.compare y z) eqn:Hyz; try discriminate.
  - apply Ascii.compare_eq_iff in Hxy, Hyz. subst.
    rewrite Ascii_compare_refl. apply IH.
  - apply Ascii.compare_eq_iff in Hxy. subst. now rewrite Hyz.
  - apply Ascii.compare_eq_iff in Hyz. subst. now rewrite Hxy.
  - unfold Ascii.compare in *. rewrite N.compare_lt_iff in Hxy, Hyz.
    assert (Hxz : (N_of_ascii x ?= N_of_ascii z)%N = Lt) by (apply N.compare_lt_iff; lia).
    now rewrite Hxz.
Qed.

Lemma StrictTotal_String : StrictTotal String.compare.
Proof.
  split.
  - apply String_compare_refl.
  - apply String.compare_eq_iff.
  - intros a b. apply String.compare_antisym.
  - intros a b c. apply String_compare_lt_trans.
Qed.

Lemma StrictTotal_identifier : StrictTotal SemVer.compareIdentifiers.
Proof.
  split.
  - intros [n|s]; simpl; [apply N.compare_refl | apply String_compare_refl].
  - intros [n|s] [m|t]; simpl; try discriminate; intros H.
    + apply N.compare_eq_iff in H. now subst.
    + apply String.compare_eq_iff in H. now subst.
  - intros [n|s] [m|t]; simpl; try reflexivity.
    + apply N.compare_antisym.
    + apply String.compare_antisym.
  - intros [n|s] [m|t] [k|u]; simpl; try congruence.
    + apply (cmp_lt_trans _ StrictTotal_N).
    + apply String_compare_lt_trans.
Qed.

(** Lexicographic combinations of strict total orders. *)
Lemma lex_lt_trans {A : Type} (c1 : A -> A -> comparison) (x y z : A) (r1 r2 r3 : comparison) :
  StrictTotal c1 ->
  (c1 x y = Eq -> c1 y z = Eq -> r1 = Lt -> r2 = Lt -> r3 = Lt) ->
  SemVer.lex (c1 x y) r1 = Lt -> SemVer.lex (c1 y z) r2 = Lt ->
  SemVer.lex (c1 x z) r3 = Lt.
Proof.
  intros H1 Hrest. unfold SemVer.lex.
  destruct (c1 x y) eqn:Hxy; try discriminate;
    destruct (c1 y z) eqn:Hyz; try discriminate; intros Ha Hb.
  - pose proof (cmp_eq _ H1 _ _ Hxy). pose proof (cmp_eq _ H1 _ _ Hyz). subst.
    rewrite (cmp_refl _ H1). apply Hrest; auto.
  - pose proof (cmp_eq _ H1 _ _ Hxy). subst. now rewrite Hyz.
  - pose proof (cmp_eq _ H1 _ _ Hyz). subst. now rewrite Hxy.
  - now rewrite (cmp_lt_trans _ H1 _ _ _ Hxy Hyz).
Qed.

Lemma StrictTotal_lexPair {A B : Type} (c1 : A -> A -> comparison) (c2 : B -> B -> comparison) :
  StrictTotal c1 -> StrictTotal c2 -> StrictTotal (lexPair c1 c2).
Proof.
  intros H1 H2. unfold lexPair. split.
  - intros [a b]. simpl. now rewrite (cmp_refl _ H1), (cmp_refl _ H2).
  - intros [a b] [a' b']. simpl. unfold SemVer.lex.
    destruct (c1 a a') eqn:Ha; try discriminate. intros Hb.
    now rewrite (cmp_eq _ H1 _ _ Ha), (cmp_eq _ H2 _ _ Hb).
  - intros [a b] [a' b']. simpl. rewrite (cmp_antisym _ H1 a a'), (cmp_antisym _ H2 b b').
    unfold SemVer.lex. destruct (c1 a a'); reflexivity.
  - intros [a b] [a' b'] [a'' b'']. simpl.
    apply lex_lt_trans; [exact H1|]. intros _ _. apply (cmp_lt_trans _ H2).
Qed.

Lemma StrictTotal_compareIds : StrictTotal SemVer.compareIds.
Proof.
  pose proof StrictTotal_identifier as HI. split.
  - induction a as [|x a IH]; simpl; [reflexivity|].
    now rewrite (cmp_refl _ HI), IH.
  - induction a as [|x a IH]; intros [|y b]; simpl; try discriminate; [reflexivity|].
    unfold SemVer.lex. destruct (SemVer.compareIdentifiers x y) eqn:Hxy; try discriminate.
    intros Hab. now rewrite (cmp_eq _ HI _ _ Hxy), (IH _ Hab).
  - induction a as [|x a IH]; intros [|y b]; simpl; try reflexivity.
    rewrite (cmp_antisym _ HI x y), IH. unfold SemVer.lex.
    destruct (SemVer.compareIdentifiers x y); reflexivity.
  - induction a as [|x a IH]; intros [|y b] [|z c]; simpl; try congruence.
    apply lex_lt_trans; [exact HI|]. intros _ _. apply IH.
Qed.

Lemma StrictTotal_comparePrerelease : StrictTotal SemVer.comparePrerelease.
Proof.
  pose proof StrictTotal_compareIds as HI. split.
  - intros [|x a]; [reflexivity|]. apply (cmp_refl _ HI).
  - intros [|x a] [|y b]; simpl; try discriminate; [reflexivity|].
    apply (cmp_eq _ HI (x :: a) (y :: b)).
  - intros [|x a] [|y b]; try reflexivity.
    apply (cmp_antisym _ HI (x :: a) (y :: b)).
  - intros [|x a] [|y b] [|z c]; simpl; try congruence.
    apply (cmp_lt_trans _ HI (x :: a) (y :: b) (z :: c)).
Qed.

Lemma StrictTotal_TotalPreorder {A : Type} (cmp : A -> A -> comparison) :
  StrictTotal cmp -> TotalPreorder cmp.
Proof.
  intros H. split; [apply (cmp_antisym _ H)|].
  intros a b c Hab Hbc.
  destruct (cmp a b) eqn:E1; [| |congruence].
  - apply (cmp_eq _ H) in E1. now subst.
  - destruct (cmp b c) eqn:E2; [| |congruence].
    + apply (cmp_eq _ H) in E2. subst. now rewrite E1.
    + now rewrite (cmp_lt_trans _ H _ _ _ E1 E2).
Qed.

Lemma compareSV_key a b :
  SemVer.compareSV a b =
  lexPair N.compare (lexPair N.compare (lexPair N.compare SemVer.comparePrerelease))
          (precedenceKey a) (precedenceKey b).
Proof.
  unfold SemVer.compareSV, SemVer.compareMain, SemVer.comparePre, lexPair, precedenceKey.
  simpl. unfold SemVer.lex.
  destruct (SemVer.major a ?= SemVer.major b)%N; try reflexivity.
  destruct (SemVer.minor a ?= SemVer.minor b)%N; reflexivity.
Qed.

Lemma TotalPreorder_compareSV : TotalPreorder SemVer.compareSV.
Proof.
  assert (H : StrictTotal (lexPair N.compare (lexPair N.compare
                (lexPair N.compare SemVer.comparePrerelease)))).
  { repeat apply StrictTotal_lexPair;
      auto using StrictTotal_N, StrictTotal_comparePrerelease. }
  apply StrictTotal_TotalPreorder in H. split.
  - intros a b. rewrite !compareSV_key. apply (pre_antisym _ H).
  - intros a b c. rewrite !compareSV_key. apply (pre_trans _ H).
Qed.

Lemma TotalPreorder_ascending : TotalPreorder ascending.
Proof.
  pose proof TotalPreorder_compareSV as H. split; unfold ascending.
  - intros a b. apply (pre_antisym _ H).
  - intros a b c. apply (pre_trans _ H).
Qed.

Lemma TotalPreorder_descending : TotalPreorder descending.
Proof.
  pose proof TotalPreorder_compareSV as H. split; unfold descending.
  - intros a b. apply (pre_antisym _ H).
  - intros a b c Hab Hbc. exact (pre_trans _ H _ _ _ Hbc Hab).
Qed.

(** ** Sorting *)

Lemma In_firstn {A : Type} k (l : list A) x : In x (firstn k l) -> In x l.
Proof. intros H. rewrite <- (firstn_skipn k l). apply in_or_app. now left. Qed.

Lemma In_skipn {A : Type} k (l : list A) x : In x (skipn k l) -> In x l.
Proof. intros H. rewrite <- (firstn_skipn k l). apply in_or_app. now right. Qed.

Section SortFacts.
Context {A : Type} (cmp : A -> A -> comparison).
Hypothesis cmp_pre : TotalPreorder cmp.


Lemma insert_perm x l : Permutation (Js.insert cmp x l) (x :: l).
Proof.
  induction l as [|y l IH]; simpl; [reflexivity|].
  destruct (cmp x y); try reflexivity.
  rewrite IH. apply perm_swap.
Qed.

Lemma sort_perm l : Permutation (Js.sort cmp l) l.
Proof.
  induction l as [|x l IH]; simpl; [reflexivity|].
  rewrite insert_perm. now constructor.
Qed.

Lemma insert_sorted x l :
  StronglySorted (noLater cmp) l -> StronglySorted (noLater cmp) (Js.insert cmp x l).
Proof.
  induction 1 as [|y l Hs IH Hy]; simpl.
  - repeat constructor.
  - destruct (cmp x y) eqn:Hxy.
    + constructor; [now constructor|].
      constructor; [unfold noLater; congruence|].
      eapply Forall_impl; [|exact Hy]. intros z Hz.
      apply (pre_trans _ cmp_pre x y z); [congruence | exact Hz].
    + constructor; [now constructor|].
      constructor; [unfold noLater; congruence|].
      eapply Forall_impl; [|exact Hy]. intros z Hz.
      apply (pre_trans _ cmp_pre x y z); [congruence | exact Hz].
    + constructor; [exact IH|].
      apply Forall_forall. intros z Hz.
      apply (Permutation_in _ (insert_perm x l)) in Hz. destruct Hz as [<-|Hz].
      * unfold noLater. rewrite (pre_antisym _ cmp_pre x y), Hxy. discriminate.
      * rewrite Forall_forall in Hy. now apply Hy.
Qed.

Lemma sort_sorted l : StronglySorted (noLater cmp) (Js.sort cmp l).
Proof.
  induction l as [|x l IH]; simpl; [constructor | now apply insert_sorted].
Qed.

(** In a sorted list, whatever is taken from the front does not exceed
    whatever is left. *)
Lemma sorted_firstn_skipn k l o u :
  StronglySorted (noLater cmp) l -> In o (firstn k l) -> In u (skipn k l) -> cmp o u <> Gt.
Proof.
  intros Hs. revert k. induction Hs as [|y l Hs IH Hy]; intros k Ho Hu.
  - destruct k; contradiction.
  - destruct k as [|k]; [contradiction|]. simpl in Ho, Hu.
    destruct Ho as [<-|Ho]; [|now apply (IH k)].
    rewrite Forall_forall in Hy. apply Hy. eapply In_skipn. exact Hu.
Qed.

Variable cmpM : A -> A -> result comparison.

Lemma insertM_pure x l :
  (forall b, In b l -> cmpM x b = Ok (cmp x b)) ->
  JsM.insert cmpM x l = Ok (Js.insert cmp x l).
Proof.
  induction l as [|y l IH]; intros Hc; simpl; [reflexivity|].
  rewrite (Hc y) by now left.
  destruct (cmp x y); try reflexivity.
  rewrite IH; [reflexivity|]. intros b Hb. apply Hc. now right.
Qed.

Lemma sortM_pure l :
  (forall a b, In a l -> In b l -> cmpM a b = Ok (cmp a b)) ->
  JsM.sort cmpM l = Ok (Js.sort cmp l).
Proof.
  induction l as [|x l IH]; intros Hc; simpl; [reflexivity|].
  rewrite IH by (intros a b Ha Hb; apply Hc; now right).
  apply insertM_pure. intros b Hb. apply Hc; [now left|].
  right. exact (Permutation_in _ (sort_perm l) Hb).
Qed.
End SortFacts.

Lemma parse_valid s : SemVer.valid s = true -> exists x, SemVer.parse s = Some x.
Proof. unfold SemVer.valid. destruct (SemVer.parse s) as [x|]; [eauto | discriminate]. Qed.

Lemma compare_ascending a b :
  SemVer.valid (APIVersion.version a) = true ->
  SemVer.valid (APIVersion.version b) = true ->
  SemVer.compare (APIVersion.version a) (APIVersion.version b) = Ok (ascending a b).
Proof.
  intros Ha Hb. unfold SemVer.compare, ascending, semverOf.
  destruct (parse_valid _ Ha) as [x ->]. destruct (parse_valid _ Hb) as [y ->]. reflexivity.
Qed.

Lemma rcompare_descending a b :
  SemVer.valid (APIVersion.version a) = true ->
  SemVer.valid (APIVersion.version b) = true ->
  SemVer.rcompare (APIVersion.version a) (APIVersion.version b) = Ok (descending a b).
Proof.
  intros Ha Hb. unfold SemVer.rcompare, SemVer.compare, descending, semverOf.
  destruct (parse_valid _ Ha) as [x ->]. destruct (parse_valid _ Hb) as [y ->]. reflexivity.
Qed.

(** ** The latest version *)

Lemma versionsOf_valid apiId w :
  store_wf w ->
  Forall (fun v => SemVer.valid (APIVersion.version v) = true) (versionsOf apiId w).
Proof.
  intros [_ Hval]. apply Forall_forall. intros v Hv.
  apply In_versionsOf in Hv. rewrite Forall_forall in Hval. now apply Hval.
Qed.

(** On a well-formed store [getLatestVersion] returns, and what it returns is
    a stored version of the api that no stored version of the api exceeds. *)
Lemma getLatestVersion_spec apiId w :
  store_wf w ->
  exists latest,
    getLatestVersion apiId w = (w, Ok latest) /\
    match versionsOf apiId w with
    | [] => latest = None
    | _ => exists l, latest = Some l /\ In l (versionsOf apiId w) /\
                     forall u, In u (versionsOf apiId w) ->
                               precedes (APIVersion.version u) (APIVersion.version l)
    end.
Proof.
  intros Hwf. pose proof (versionsOf_valid apiId w Hwf) as Hval.
  unfold getLatestVersion, getVersions. run. fold (versionsOf apiId w).
  destruct (versionsOf apiId w) as [|x l] eqn:Hl; [now exists None|].
  rewrite Forall_forall in Hval.
  rewrite (sortM_pure descending)
    by (intros a b Ha Hb; apply rcompare_descending; apply Hval; assumption).
  pose proof (sort_perm descending (x :: l)) as Hperm.
  pose proof (sort_sorted descending TotalPreorder_descending (x :: l)) as Hsorted.
  destruct (Js.sort descending (x :: l)) as [|m s] eqn:Hs.
  { apply Permutation_nil in Hperm. discriminate. }
  exists (Some m). split; [reflexivity|]. exists m. split; [reflexivity|].
  assert (Hm : In m (x :: l)) by (apply (Permutation_in _ Hperm); now left).
  split; [exact Hm|]. intros u Hu.
  exists (ascending u m). split; [apply compare_ascending; now apply Hval|].
  apply (Permutation_in _ (Permutation_sym Hperm)) in Hu.
  inversion Hsorted as [|? ? _ Hall]; subst. destruct Hu as [<-|Hu].
  - unfold ascending.
    pose proof (pre_antisym _ TotalPreorder_compareSV (semverOf m) (semverOf m)) as Hanti.
    destruct (SemVer.compareSV (semverOf m) (semverOf m)); discriminate.
  - rewrite Forall_forall in Hall. exact (Hall u Hu).
Qed.

(** ** The compatibility level of a new version *)

(** Between two versions without prerelease tags, the level is read off the
    first number that differs. *)
Lemma levelOfDiff_release a b :
  SemVer.prerelease a = [] -> SemVer.prerelease b = [] ->
  levelOfDiff (SemVer.diffSV a b)
  = if negb (SemVer.major a =? SemVer.major b)%N then major
    else if negb (SemVer.minor a =? SemVer.minor b)%N then minor
    else patch.
Proof.
  intros Ha Hb.
  assert (Hpre : forall c : comparison,
            SemVer.hasPre (match c with Gt => b | _ => a end) = false /\
            SemVer.hasPre (match c with Gt => a | _ => b end) = false).
  { intros c. unfold SemVer.hasPre. destruct c; rewrite Ha, Hb; auto. }
  unfold SemVer.diffSV, SemVer.compareSV, SemVer.comparePre, SemVer.comparePrerelease.
  rewrite Ha, Hb. unfold SemVer.compareMain, SemVer.diffMain.
  destruct (N.eqb_spec (SemVer.major a) (SemVer.major b)) as [E1|E1].
  - rewrite E1, N.compare_refl. simpl.
    destruct (N.eqb_spec (SemVer.minor a) (SemVer.minor b)) as [E2|E2].
    + rewrite E2, N.compare_refl. simpl.
      destruct (N.compare_spec (SemVer.patch a) (SemVer.patch b)) as [E3|E3|E3]; simpl.
      * reflexivity.
      * destruct (Hpre Lt) as [-> ->]. simpl.
        destruct (N.eqb_spec (SemVer.patch a) (SemVer.patch b)); [lia | reflexivity].
      * destruct (Hpre Gt) as [-> ->]. simpl.
        destruct (N.eqb_spec (SemVer.patch a) (SemVer.patch b)); [lia | reflexivity].
    + destruct (N.compare_spec (SemVer.minor a) (SemVer.minor b)) as [E3|E3|E3]; simpl.
      * contradiction.
      * destruct (Hpre Lt) as [-> ->]. reflexivity.
      * destruct (Hpre Gt) as [-> ->]. reflexivity.
  - destruct (N.compare_spec (SemVer.major a) (SemVer.major b)) as [E3|E3|E3]; simpl.
    + contradiction.
    + destruct (Hpre Lt) as [-> ->]. reflexivity.
    + destruct (Hpre Gt) as [-> ->]. reflexivity.
Qed.

(** C1 (as the code has it): after a successful [createVersion] the stored
    record carries the level returned.  With no stored version of the api the
    level is patch.  Otherwise it classifies [semver.diff] between the latest
    stored version of the api, whatever its status, and the new version:
    major for a major difference, minor for a minor one, patch for anything
    else.  Between two versions without prerelease tags that is major when
    the major numbers differ, else minor when the minor numbers differ, else
    patch: from 1.0.0, 2.0.0 is major, 1.1.0 minor and 1.0.1 patch. *)
Theorem createVersion_compatibilityLevel now versionData w w' v :
  reachable w ->
  createVersion now versionData w = (w', Ok v) ->
  (exists r,
      stored w' (VersionData.apiId versionData) (VersionData.version versionData) = Some r /\
      APIVersion.compatibilityLevel r = APIVersion.compatibilityLevel v) /\
  match versionsOf (VersionData.apiId versionData) w with
  | [] => APIVersion.compatibilityLevel v = patch
  | _ =>
      exists latest a b d,
        In latest (versionsOf (VersionData.apiId versionData) w) /\
        (forall u, In u (versionsOf (VersionData.apiId versionData) w) ->
                   precedes (APIVersion.version u) (APIVersion.version latest)) /\
        SemVer.parse (APIVersion.version latest) = Some a /\
        SemVer.parse (VersionData.version versionData) = Some b /\
        SemVer.diff (APIVersion.version latest) (VersionData.version versionData) = Ok d /\
        APIVersion.compatibilityLevel v
        = match d with
          | Some SemVer.major_r => major
          | Some SemVer.minor_r => minor
          | _ => patch
          end /\
        (SemVer.prerelease a = [] -> SemVer.prerelease b = [] ->
         APIVersion.compatibilityLevel v
         = if negb (SemVer.major a =? SemVer.major b)%N then major
           else if negb (SemVer.minor a =? SemVer.minor b)%N then minor
           else patch)
  end.
Proof.
  intros Hreach Hc.
  destruct (createVersion_Ok _ _ _ _ _ Hc) as (_ & _ & latest & level & Hl & Hlevel & Hv & Hp).
  split.
  - pose proof (applyLifecyclePolicy_new_record now v w) as Hrec. simpl in Hrec.
    rewrite Hp in Hrec. simpl in Hrec. destruct Hrec as (r & Hr & _ & Hcl & _).
    exists r. split; [|exact Hcl]. rewrite Hv in Hr. exact Hr.
  - destruct (getLatestVersion_spec (VersionData.apiId versionData) w (reachable_wf w Hreach))
      as (latest' & Hg & Hspec).
    rewrite Hg in Hl. simpl in Hl. injection Hl as ->.
    destruct (versionsOf _ w) as [|x l].
    + subst latest. subst level. now rewrite Hv.
    + destruct Hspec as (m & -> & Hin & Hmax). destruct Hlevel as (d & Hd & ->).
      pose proof Hd as Hd'. unfold SemVer.diff in Hd'.
      destruct (SemVer.parse (APIVersion.version m)) as [a|] eqn:Ha; [|discriminate].
      destruct (SemVer.parse (VersionData.version versionData)) as [b|] eqn:Hb;
        [|discriminate].
      injection Hd' as Hd'.
      exists m, a, b, d. rewrite Hv. cbn [APIVersion.compatibilityLevel newVersion].
      split; [exact Hin|]. split; [exact Hmax|]. split; [exact Ha|].
      split; [first [exact Hb | reflexivity]|]. split; [exact Hd|]. split; [reflexivity|].
      intros Hpa Hpb. rewrite <- Hd'. now apply levelOfDiff_release.
Qed.

Lemma createVersion_compatibilityLevel_examples :
  map (fun version =>
         match createVersion 1 (Scenario.orders version draft)
                 (Sample.createAll 0 [Scenario.orders "1.0.0" draft] Sample.empty) with
         | (_, Ok v) => Some (APIVersion.compatibilityLevel v)
         | _ => None
         end) ["1.1.0"; "2.0.0"; "1.0.1"]
  = [Some minor; Some major; Some patch] /\
  option_map APIVersion.compatibilityLevel
    (stored (Sample.createAll 0 [Scenario.orders "1.0.0" draft] Sample.empty)
            "orders" "1.0.0") = Some patch.
Proof. split; reflexivity. Qed.

(** Against C1 as stated: with 1.0.0 published and 3.0.0 a draft, the latest
    published version is 1.0.0, from which 3.0.1 is a major step; the level
    stored for 3.0.1 is patch, its step from the draft 3.0.0. *)
Lemma createVersion_level_ignores_status :
  map (fun v => (APIVersion.version v, APIVersion.status v))
      (versionsOf "orders" Scenario.two)
    = [("1.0.0", published); ("3.0.0", draft)] /\
  map APIVersion.version (publishedOf "orders" Scenario.two) = ["1.0.0"] /\
  SemVer.diff "1.0.0" "3.0.1" = Ok (Some SemVer.major_r) /\
  levelOfDiff (Some SemVer.major_r) = major /\
  exists w' v,
    createVersion 1 (Scenario.orders "3.0.1" draft) Scenario.two = (w', Ok v) /\
    stored w' "orders" "3.0.1" = Some v /\
    APIVersion.compatibilityLevel v = patch /\
    APIVersion.compatibilityLevel v <> major.
Proof.
  repeat split; try reflexivity.
  vm_compute. eexists; eexists. repeat split; try reflexivity. discriminate.
Qed.

(** ** The record written by createVersion *)

(** C9 (as the code has it): the record a successful [createVersion] writes
    and returns carries the status supplied by the caller and the initial
    metrics: requests, errors, response time and adoption are 0 and uptime is
    100.  The record found in the store when the call returns has the same
    metrics; its status is the one supplied unless the version was supplied as
    published and the lifecycle policy of the same call deprecated it. *)
Theorem createVersion_record now versionData w w' v :
  createVersion now versionData w = (w', Ok v) ->
  APIVersion.status v = VersionData.status versionData /\
  APIVersion.metrics v = Metrics.mk 0 0 0 100 0 /\
  stored (persisted v w) (VersionData.apiId versionData) (VersionData.version versionData)
    = Some v /\
  exists r,
    stored w' (VersionData.apiId versionData) (VersionData.version versionData) = Some r /\
    APIVersion.metrics r = Metrics.mk 0 0 0 100 0 /\
    (APIVersion.status r = VersionData.status versionData \/
     (VersionData.status versionData = published /\ APIVersion.status r = deprecated)).
Proof.
  intros Hc.
  destruct (createVersion_Ok _ _ _ _ _ Hc) as (_ & _ & latest & level & _ & _ & Hv & Hp).
  pose proof (applyLifecyclePolicy_new_record now v w) as Hrec. simpl in Hrec.
  rewrite Hp in Hrec. simpl in Hrec. destruct Hrec as (r & Hr & Hm & _ & Hs).
  subst v. simpl in *. repeat split.
  - unfold stored. simpl.
    apply (find_putItem_same (newVersion versionData level now)).
  - exists r. split; [exact Hr|]. split; [exact Hm|].
    destruct Hs as [->|Hs]; [now left | now right].
Qed.

(** Against C9 as stated: the metrics written for a new version have
    uptime 100, not 0. *)
Lemma createVersion_uptime_not_zero :
  exists w' v,
    createVersion 0 (Sample.data "orders" "1.0.0" draft Sample.specA) Sample.empty
      = (w', Ok v) /\
    stored w' "orders" "1.0.0" = Some v /\
    Metrics.uptime (APIVersion.metrics v) = 100 /\
    APIVersion.metrics v <> Metrics.mk 0 0 0 0 0.
Proof.
  vm_compute. eexists; eexists. repeat split; try reflexivity. discriminate.
Qed.

(** ** The lifecycle policy *)

Lemma key_eq_has_key o u :
  has_key (APIVersion.apiId o) (APIVersion.version o) u = true <-> key u = key o.
Proof.
  rewrite has_key_true. unfold key. split.
  - intros [-> ->]. reflexivity.
  - intros H. injection H as -> ->. tauto.
Qed.

Lemma memberOf_true old u : memberOf old u = true <-> In (key u) (map key old).
Proof.
  unfold memberOf. rewrite existsb_exists, in_map_iff. split.
  - intros (o & Ho & Hk). exists o. apply key_eq_has_key in Hk. auto.
  - intros (o & Hk & Ho). exists o. split; [exact Ho|]. now apply key_eq_has_key.
Qed.

Lemma memberOf_false old u : memberOf old u = false <-> ~ In (key u) (map key old).
Proof.
  rewrite <- memberOf_true. destruct (memberOf old u); split; congruence.
Qed.

Lemma find_NoDup table o :
  NoDup (map key table) -> In o table ->
  find (has_key (APIVersion.apiId o) (APIVersion.version o)) table = Some o.
Proof.
  induction table as [|x table IH]; intros Hnd Hin; [contradiction|].
  simpl in *. inversion Hnd as [|? ? Hx Hnd']; subst.
  destruct Hin as [->|Hin]; [now rewrite has_key_self|].
  destruct (has_key _ _ x) eqn:Hk; [|now apply IH].
  exfalso. apply Hx. apply key_eq_has_key in Hk. rewrite Hk. now apply in_map.
Qed.

Lemma NoDup_map_filter {A B : Type} (f : A -> B) (p : A -> bool) l :
  NoDup (map f l) -> NoDup (map f (filter p l)).
Proof.
  induction l as [|x l IH]; simpl; intros Hnd; [constructor|].
  inversion Hnd as [|? ? Hx Hnd']; subst.
  destruct (p x); simpl; [|now apply IH].
  constructor; [|now apply IH].
  intros Hin. apply Hx. apply in_map_iff in Hin. destruct Hin as (y & Hy & Hin).
  apply filter_In in Hin. rewrite <- Hy. apply in_map. tauto.
Qed.

Lemma NoDup_app_parts {A : Type} (l1 l2 : list A) :
  NoDup (l1 ++ l2) -> NoDup l1 /\ NoDup l2 /\ forall x, In x l1 -> ~ In x l2.
Proof.
  induction l1 as [|x l1 IH]; simpl; intros Hnd.
  - repeat split; [constructor | exact Hnd | tauto].
  - inversion Hnd as [|? ? Hx Hnd']; subst. destruct (IH Hnd') as (H1 & H2 & H3).
    repeat split; [|exact H2|].
    + constructor; [|exact H1]. intros Hin. apply Hx. apply in_or_app. now left.
    + intros y [<-|Hy] Hin; [|now apply (H3 y)].
      apply Hx. apply in_or_app. now right.
Qed.

Lemma Permutation_filter_length {A : Type} (p : A -> bool) l l' :
  Permutation l l' -> List.length (filter p l) = List.length (filter p l').
Proof.
  induction 1 as [|x l l' _ IH|x y l|l l' l'' _ IH1 _ IH2]; simpl.
  - reflexivity.
  - destruct (p x); simpl; congruence.
  - destruct (p x), (p y); reflexivity.
  - congruence.
Qed.

(** On unique keys, deprecating each record of [old] (all stored and
    published) succeeds and changes exactly the records of [old]. *)
Lemma forEach_deprecate_exact now plan old :
  forall table policies plans objects,
    NoDup (map key table) -> NoDup (map key old) ->
    (forall o, In o old -> In o table /\ APIVersion.status o = published) ->
    forEach (fun o => deprecateVersion now (APIVersion.apiId o) (APIVersion.version o) plan)
            old (mkWorld table policies plans objects)
    = (mkWorld (map (fun u => if memberOf old u then setDeprecated now plan u else u) table)
               policies plans objects, Ok tt).
Proof.
  induction old as [|o old IH]; intros table policies plans objects Hnd Hold Hin; simpl.
  - unfold ret. now rewrite map_id.
  - unfold bind. rewrite deprecateVersion_unfold. simpl.
    destruct (Hin o (or_introl eq_refl)) as [Hot Hpub].
    rewrite (find_NoDup table o Hnd Hot), Hpub. simpl.
    inversion Hold as [|? ? Ho Hold']; subst.
    rewrite IH.
    + f_equal. f_equal. unfold updateItem. rewrite map_map. apply map_ext.
      intros u. destruct (has_key _ _ u) eqn:Hk; simpl; [|reflexivity].
      apply key_eq_has_key in Hk.
      assert (Hm : memberOf old (setDeprecated now plan u) = false).
      { apply memberOf_false. change (key (setDeprecated now plan u)) with (key u).
        now rewrite Hk. }
      now rewrite Hm.
    + now rewrite map_key_updateItem.
    + exact Hold'.
    + intros o' Ho'. destruct (Hin o' (or_intror Ho')) as [Hin' Hpub'].
      split; [|exact Hpub'].
      unfold updateItem. apply in_map_iff. exists o'. split; [|exact Hin'].
      destruct (has_key _ _ o') eqn:Hk; [|reflexivity].
      exfalso. apply Ho. apply key_eq_has_key in Hk. rewrite <- Hk. now apply in_map.
Qed.

(** The published versions of an api after the records of [old] were
    deprecated are the published ones that are not in [old]. *)
Lemma published_after_deprecating now plan old apiId table :
  filter isPublished
    (filter (fun v => String.eqb (APIVersion.apiId v) apiId)
       (map (fun u => if memberOf old u then setDeprecated now plan u else u) table))
  = filter (fun u => negb (memberOf old u))
      (filter isPublished (filter (fun v => String.eqb (APIVersion.apiId v) apiId) table)).
Proof.
  induction table as [|u table IH]; simpl; [reflexivity|].
  destruct (memberOf old u) eqn:Hm; simpl.
  - destruct (String.eqb (APIVersion.apiId u) apiId); simpl; [|exact IH].
    destruct (isPublished u); simpl; [|exact IH]. now rewrite Hm.
  - destruct (String.eqb (APIVersion.apiId u) apiId); simpl; [|exact IH].
    destruct (isPublished u); simpl; [|exact IH]. now rewrite Hm, IH.
Qed.

Lemma published_count_after_deprecating now plan old apiId table policies plans objects :
  List.length (publishedOf apiId
    (mkWorld (map (fun u => if memberOf old u then setDeprecated now plan u else u) table)
             policies plans objects))
  = List.length (filter (fun u => negb (memberOf old u))
                   (publishedOf apiId (mkWorld table policies plans objects))).
Proof.
  rewrite (Permutation_length (publishedOf_perm _ _)). cbn [versionsTable].
  rewrite published_after_deprecating.
  apply Permutation_length, Permutation_filter, Permutation_sym.
  apply (publishedOf_perm apiId (mkWorld table policies plans objects)).
Qed.

Lemma filter_not_member old rest :
  NoDup (map key (old ++ rest)) ->
  filter (fun u => negb (memberOf old u)) (old ++ rest) = rest.
Proof.
  intros Hnd. rewrite map_app in Hnd.
  apply NoDup_app_parts in Hnd. destruct Hnd as (_ & _ & Hdisj).
  rewrite filter_app.
  rewrite (filter_ext_in _ (fun _ => false) old), filter_false.
  - simpl. apply forallb_filter_id. apply forallb_forall. intros u Hu.
    apply negb_true_iff, memberOf_false. intros Hin.
    apply (Hdisj _ Hin). now apply in_map.
  - intros u Hu. apply negb_false_iff, memberOf_true. now apply in_map.
Qed.

Lemma NoDup_firstn {A : Type} k (l : list A) : NoDup l -> NoDup (firstn k l).
Proof.
  intros Hnd. rewrite <- (firstn_skipn k l) in Hnd.
  now apply NoDup_app_parts in Hnd.
Qed.

Lemma find_map_keep apiId version (f : APIVersion.t -> APIVersion.t) table :
  (forall u, has_key apiId version (f u) = has_key apiId version u) ->
  find (has_key apiId version) (map f table)
  = option_map f (find (has_key apiId version) table).
Proof.
  intros Hf. induction table as [|u table IH]; simpl; [reflexivity|].
  rewrite Hf. destruct (has_key apiId version u); [reflexivity | exact IH].
Qed.

(** On unique keys a record of the table is in [old] when its key is. *)
Lemma memberOf_In old table u :
  NoDup (map key table) -> incl old table -> In u table ->
  (memberOf old u = true <-> In u old).
Proof.
  intros Hnd Hincl Hu. rewrite memberOf_true. split.
  - intros Hin. apply in_map_iff in Hin. destruct Hin as (o & Hk & Ho).
    assert (o = u); [|now subst].
    pose proof (find_NoDup table o Hnd (Hincl o Ho)) as H1.
    pose proof (find_NoDup table u Hnd Hu) as H2.
    unfold key in Hk. injection Hk as Ha Hv. rewrite Ha, Hv in H1. congruence.
  - intros Hin. now apply in_map.
Qed.

(** A run of the lifecycle policy on a store with unique keys and valid
    version strings, when the published versions outnumber the limit: the
    versions in excess, from the low end of precedence, are the ones to
    deprecate; the run stops before the first of them if the plan cannot be
    built. *)
Lemma applyLifecyclePolicy_run now v w policy :
  store_wf w ->
  policyOfApi w (APIVersion.apiId v) = Some policy ->
  Policy.maxVersions (APILifecyclePolicy.policy policy)
    < Z.of_nat (List.length (publishedOf (APIVersion.apiId v) w)) ->
  exists old,
    NoDup (map key old) /\
    incl old (publishedOf (APIVersion.apiId v) w) /\
    Z.of_nat (List.length old)
      = Z.min (Z.of_nat (List.length (publishedOf (APIVersion.apiId v) w)))
              (Z.of_nat (List.length (publishedOf (APIVersion.apiId v) w))
               - Policy.maxVersions (APILifecyclePolicy.policy policy)) /\
    (forall o u, In o old -> In u (publishedOf (APIVersion.apiId v) w) -> ~ In u old ->
                 precedes (APIVersion.version o) (APIVersion.version u)) /\
    Z.of_nat (List.length (filter (fun u => negb (memberOf old u))
                             (publishedOf (APIVersion.apiId v) w)))
      = Z.max 0 (Policy.maxVersions (APILifecyclePolicy.policy policy)) /\
    applyLifecyclePolicy now v w =
      match old, policyPlan now policy v with
      | [], _ => (w, Ok tt)
      | _ :: _, Throw e => (w, Throw e)
      | _ :: _, Ok plan =>
          (mkWorld (map (fun u => if memberOf old u then setDeprecated now plan u else u)
                        (versionsTable w))
                   (policiesTable w) (plansTable w) (bucket w), Ok tt)
      end.
Proof.
  intros [Hnd Hval] Hpol Hover. unfold policyOfApi in Hpol.
  rewrite applyLifecyclePolicy_unfold, Hpol. cbv zeta.
  set (active := publishedOf (APIVersion.apiId v) w) in *.
  set (maxVersions := Policy.maxVersions (APILifecyclePolicy.policy policy)) in *.
  apply Z.ltb_lt in Hover. rewrite Hover. apply Z.ltb_lt in Hover.
  assert (Hin : forall u, In u active ->
            In u (versionsTable w) /\ APIVersion.status u = published).
  { intros u Hu. apply In_publishedOf in Hu. tauto. }
  rewrite Forall_forall in Hval.
  rewrite (sortM_pure ascending)
    by (intros a b Ha Hb; apply compare_ascending; apply Hval; now apply Hin).
  set (sorted := Js.sort ascending active).
  pose proof (sort_perm ascending active) as Hperm. fold sorted in Hperm.
  pose proof (sort_sorted ascending TotalPreorder_ascending active) as Hsorted.
  fold sorted in Hsorted.
  assert (Hnd_sorted : NoDup (map key sorted)).
  { eapply Permutation_NoDup; [apply Permutation_map, Permutation_sym, Hperm|].
    now apply NoDup_key_versionsOf. }
  unfold Js.slice0.
  destruct (Z.of_nat (List.length active) - maxVersions <? 0) eqn:Hneg;
    [apply Z.ltb_lt in Hneg; lia|].
  set (k := Z.to_nat (Z.of_nat (List.length active) - maxVersions)).
  assert (Hnd_old : NoDup (map key (firstn k sorted))).
  { rewrite <- firstn_map. now apply NoDup_firstn. }
  assert (Hold_active : incl (firstn k sorted) active).
  { intros o Ho. apply (Permutation_in _ Hperm). now apply (In_firstn k). }
  exists (firstn k sorted).
  split; [exact Hnd_old|]. split; [exact Hold_active|].
  split; [rewrite length_firstn, (Permutation_length Hperm); unfold k; lia|].
  split; [|split].
  - intros o u Ho Hu Hnot.
    exists (ascending o u). split.
    + apply compare_ascending; apply Hval; apply Hin; [now apply Hold_active | exact Hu].
    + apply (sorted_firstn_skipn ascending k sorted o u Hsorted Ho).
      apply (Permutation_in _ (Permutation_sym Hperm)) in Hu.
      rewrite <- (firstn_skipn k sorted) in Hu. apply in_app_or in Hu.
      destruct Hu as [Hu|Hu]; [contradiction | exact Hu].
  - rewrite (Permutation_filter_length _ _ _ (Permutation_sym Hperm)).
    pose proof (filter_not_member (firstn k sorted) (skipn k sorted)) as Hrest.
    rewrite firstn_skipn in Hrest. rewrite (Hrest Hnd_sorted).
    rewrite length_skipn, (Permutation_length Hperm). unfold k. lia.
  - destruct (firstn k sorted) as [|o rest] eqn:Hold; [reflexivity|].
    destruct (policyPlan now policy v) as [plan|e]; [|reflexivity].
    destruct w as [table policies plans objects]. cbn [versionsTable] in *.
    apply forEach_deprecate_exact; [exact Hnd | exact Hnd_old |].
    intros o' Ho'. apply Hin. now apply Hold_active.
Qed.

(** C3: after a successful [createVersion] for an api with a lifecycle policy,
    if the published versions of the api (the new one included, when it was
    supplied as published) outnumber [maxVersions], the versions in excess,
    taken from the low end of semantic-version precedence, are deprecated:
    the stored record of each has status deprecated, [deprecatedAt] now, and
    the plan whose [supportEndDate] is now plus [supportPeriod] days and whose
    [replacementVersion] is the new version, with nothing else of the record
    changed.  Every other record is stored as it was, no record is added or
    removed, and the other stores are not touched.  For a limit that is not
    negative, exactly [maxVersions] versions stay published. *)
Theorem lifecycle_policy_deprecates_oldest now versionData w w' v policy :
  reachable w ->
  createVersion now versionData w = (w', Ok v) ->
  snd (getLifecyclePolicy (VersionData.apiId versionData) w) = Ok (Some policy) ->
  let active := publishedOf (VersionData.apiId versionData) (persisted v w) in
  let maxVersions := Policy.maxVersions (APILifecyclePolicy.policy policy) in
  maxVersions < Z.of_nat (List.length active) ->
  exists old,
    NoDup old /\ incl old active /\
    Z.of_nat (List.length old)
      = Z.min (Z.of_nat (List.length active)) (Z.of_nat (List.length active) - maxVersions) /\
    (forall o u, In o old -> In u active -> ~ In u old ->
                 precedes (APIVersion.version o) (APIVersion.version u)) /\
    (forall o, In o old ->
       exists r,
         stored w' (APIVersion.apiId o) (APIVersion.version o) = Some r /\
         APIVersion.status r = deprecated /\
         APIVersion.deprecatedAt r = Some now /\
         APIVersion.deprecationPlan r
           = Some (DeprecationPlan.mk
                     "Exceeded maximum version policy"
                     "Please migrate to the latest version"
                     (now + Policy.supportPeriod (APILifecyclePolicy.policy policy) * 86400000)
                     (Some (VersionData.version versionData))) /\
         content r = content o /\
         APIVersion.retiredAt r = APIVersion.retiredAt o) /\
    (forall u, In u (versionsTable (persisted v w)) -> ~ In u old ->
               stored w' (APIVersion.apiId u) (APIVersion.version u) = Some u) /\
    map key (versionsTable w') = map key (versionsTable (persisted v w)) /\
    policiesTable w' = policiesTable w /\ plansTable w' = plansTable w /\
    bucket w' = bucket (persisted v w) /\
    Z.of_nat (List.length (publishedOf (VersionData.apiId versionData) w')) = Z.max 0 maxVersions.
Proof.
  intros Hreach Hc Hpol active maxVersions Hover.
  destruct (createVersion_Ok _ _ _ _ _ Hc)
    as (Hvalid & Hfresh & latest & level & _ & _ & Hv & Hp).
  assert (Hapi : APIVersion.apiId v = VersionData.apiId versionData) by now subst v.
  assert (Hver : APIVersion.version v = VersionData.version versionData) by now subst v.
  assert (Hwf1 : store_wf (persisted v w)).
  { unfold store_wf. simpl. apply table_wf_putItem.
    - now rewrite Hver.
    - rewrite Hapi, Hver. exact Hfresh.
    - exact (reachable_wf w Hreach). }
  unfold getLifecyclePolicy in Hpol. simpl in Hpol. injection Hpol as Hpol.
  destruct (applyLifecyclePolicy_run now v (persisted v w) policy Hwf1)
    as (old & Hnd_old & Hold_active & Hlen & Hord & Hcount & Hrun).
  { unfold policyOfApi. rewrite Hapi. exact Hpol. }
  { rewrite Hapi. exact Hover. }
  rewrite Hapi in Hold_active, Hlen, Hord, Hcount. fold active in Hold_active, Hlen, Hord, Hcount.
  fold maxVersions in Hlen, Hcount.
  destruct Hwf1 as [Hnd1 Hval1].
  assert (Hold_table : incl old (versionsTable (persisted v w))).
  { intros o Ho. apply Hold_active in Ho. apply In_publishedOf in Ho. tauto. }
  rewrite Hrun in Hp. exists old.
  split; [eapply NoDup_map_inv; exact Hnd_old|]. split; [exact Hold_active|].
  split; [exact Hlen|]. split; [exact Hord|].
  destruct old as [|o0 rest] eqn:Hold.
  - assert (Hw' : w' = persisted v w) by congruence. subst w'.
    split; [intros o []|]. split; [intros u Hu _; now apply find_NoDup|].
    split; [reflexivity|]. split; [reflexivity|]. split; [reflexivity|]. split; [reflexivity|].
    rewrite <- Hcount. f_equal. fold active.
    symmetry. apply f_equal. apply forallb_filter_id. apply forallb_forall. intros u _. reflexivity.
  - destruct (policyPlan now policy v) as [plan|e] eqn:Hplan; [|discriminate].
    assert (Hw' : w' = mkWorld
              (map (fun u => if memberOf (o0 :: rest) u then setDeprecated now plan u else u)
                   (versionsTable (persisted v w)))
              (policiesTable (persisted v w)) (plansTable (persisted v w))
              (bucket (persisted v w))) by congruence.
    clear Hp. rewrite <- Hold in *. clear Hold.
    assert (Hplan' : plan = DeprecationPlan.mk
                     "Exceeded maximum version policy"
                     "Please migrate to the latest version"
                     (now + Policy.supportPeriod (APILifecyclePolicy.policy policy) * 86400000)
                     (Some (VersionData.version versionData))).
    { unfold policyPlan, toISOString in Hplan.
      destruct (_ && _); [|discriminate]. injection Hplan as <-. now rewrite Hver. }
    assert (Hfind : forall u, In u (versionsTable (persisted v w)) ->
              stored w' (APIVersion.apiId u) (APIVersion.version u)
              = Some (if memberOf old u then setDeprecated now plan u else u)).
    { intros u Hu. unfold stored. rewrite Hw'. cbn [versionsTable].
      rewrite find_map_keep, (find_NoDup _ u Hnd1 Hu); [reflexivity|].
      intros x. destruct (memberOf old x); reflexivity. }
    split.
    { intros o Ho. exists (setDeprecated now plan o).
      rewrite (Hfind o (Hold_table o Ho)).
      rewrite (proj2 (memberOf_In old _ o Hnd1 Hold_table (Hold_table o Ho)) Ho).
      rewrite <- Hplan'. repeat split. }
    split.
    { intros u Hu Hnot. rewrite (Hfind u Hu).
      destruct (memberOf old u) eqn:Hm; [|reflexivity].
      exfalso. apply Hnot. now apply (memberOf_In old _ u Hnd1 Hold_table Hu). }
    split.
    { rewrite Hw'. cbn [versionsTable]. rewrite map_map. apply map_ext.
      intros u. destruct (memberOf old u); reflexivity. }
    split; [now rewrite Hw'|]. split; [now rewrite Hw'|]. split; [now rewrite Hw'|].
    rewrite Hw', published_count_after_deprecating.
    fold (persisted v w). exact Hcount.
Qed.

(** ** Object keys are distinct *)

Lemma show_nat_inj n m : Js.show_nat n = Js.show_nat m -> n = m.
Proof.
  unfold Js.show_nat. intros H.
  assert (Hn : forall k, Nat.to_uint k <> Decimal.Nil).
  { intros k Hk. pose proof (DecimalNat.Unsigned.of_to k) as Hof.
    rewrite Hk in Hof. simpl in Hof. subst k. discriminate. }
  apply DecimalNat.Unsigned.to_uint_inj.
  pose proof (NilZero.usu _ (Hn n)) as H1. pose proof (NilZero.usu _ (Hn m)) as H2.
  rewrite H in H1. congruence.
Qed.

Lemma NoDup_map_injective {A B : Type} (f : A -> B) l :
  (forall x y, f x = f y -> x = y) -> NoDup l -> NoDup (map f l).
Proof.
  intros Hinj. induction 1 as [|x l Hx Hnd IH]; simpl; constructor; [|exact IH].
  intros Hin. apply in_map_iff in Hin. destruct Hin as (y & Hy & Hin).
  apply Hinj in Hy. now subst.
Qed.

Lemma map_fst_combine {A B : Type} (a : list A) : forall (b : list B),
  List.length a = List.length b -> map fst (combine a b) = a.
Proof.
  induction a as [|x a IH]; intros [|y b] Hlen; simpl in *; try discriminate; [reflexivity|].
  now rewrite IH by lia.
Qed.

Lemma keys_indexed l : NoDup (map fst (Json.indexed l)).
Proof.
  unfold Json.indexed. rewrite map_fst_combine by now rewrite length_map, length_seq.
  apply NoDup_map_injective; [apply show_nat_inj | apply seq_NoDup].
Qed.

Lemma keys_distinct f : NoDup (map fst (Json.distinct f)).
Proof.
  induction f as [|kv f IH]; simpl; constructor.
  - intros Hin. apply in_map_iff in Hin. destruct Hin as (x & Hx & Hin).
    apply filter_In in Hin. destruct Hin as [_ Hne].
    rewrite Hx, String.eqb_refl in Hne. discriminate.
  - now apply NoDup_map_filter.
Qed.

Lemma keys_NoDup v : NoDup (Json.keys v).
Proof.
  unfold Json.keys. destruct v; simpl; try constructor.
  - apply keys_indexed.
  - apply keys_indexed.
  - apply keys_distinct.
Qed.

(** ** The analyzer *)

Lemma includes_In l s : Js.includes l s = true <-> In s l.
Proof.
  unfold Js.includes. rewrite existsb_exists. split.
  - intros (x & Hx & He). apply String.eqb_eq in He. now subst.
  - intros H. exists s. split; [exact H | apply String.eqb_refl].
Qed.

Lemma flat_map_nil {A B : Type} (f : A -> list B) l :
  (forall x, In x l -> f x = []) -> flat_map f l = [].
Proof.
  induction l as [|x l IH]; intros H; simpl; [reflexivity|].
  rewrite (H x) by now left. simpl. apply IH. intros y Hy. apply H. now right.
Qed.

Section AnalyzerFacts.
Variable JSON_stringify : Json.value -> string.

Lemma differ_same s : differ s s = false.
Proof. destruct s as [s|]; simpl; [now rewrite String.eqb_refl | reflexivity]. Qed.

(** Identical specifications have no finding. *)
Lemma analyzeBreakingChanges_same spec :
  analyzeBreakingChanges JSON_stringify spec spec = [].
Proof.
  unfold analyzeBreakingChanges.
  match goal with |- (?a ++ ?b)%list = [] =>
    assert (Ha : a = []); [|assert (Hb : b = []); [|now rewrite Ha, Hb]] end;
    apply flat_map_nil.
  - intros path Hp. apply includes_In in Hp. now rewrite Hp.
  - intros path Hp. apply includes_In in Hp. rewrite Hp.
    apply flat_map_nil. intros method Hm. apply includes_In in Hm. rewrite Hm.
    destruct (Json.truthy _ && Json.truthy _); [|reflexivity].
    now rewrite differ_same.
Qed.

(** The findings are the removals, one per path of the first specification
    that the second lacks, followed by response-format changes. *)
Lemma analyzeBreakingChanges_shape spec1 spec2 :
  exists changed,
    analyzeBreakingChanges JSON_stringify spec1 spec2 =
    (map removedEndpoint
       (filter (fun path => negb (Js.includes (pathKeys spec2) path)) (pathKeys spec1))
     ++ changed)%list /\
    Forall (fun f => BreakingChange.type f = changed_response_format) changed.
Proof.
  unfold analyzeBreakingChanges. fold (pathKeys spec1). fold (pathKeys spec2).
  eexists. split.
  - f_equal. induction (pathKeys spec1) as [|p l IH]; simpl; [reflexivity|].
    destruct (negb _); simpl; now rewrite IH.
  - apply Forall_forall. intros f Hf.
    apply in_flat_map in Hf. destruct Hf as (path & _ & Hf).
    destruct (Js.includes _ path); [|contradiction].
    apply in_flat_map in Hf. destruct Hf as (method & _ & Hf).
    destruct (Js.includes _ method); [|contradiction].
    destruct (_ && _); [|contradiction].
    destruct (differ _ _); [|contradiction].
    destruct Hf as [<-|[]]. reflexivity.
Qed.

Lemma fold_left_deduction l acc :
  fold_left (fun acc change => acc + deduction (BreakingChange.severity change)) l acc
  = acc + totalDeduction l.
Proof.
  revert acc. induction l as [|c l IH]; intros acc; simpl; [lia|].
  rewrite IH. lia.
Qed.

(** What [compareVersions] returns for two stored versions. *)
Lemma compareVersions_stored apiId version1 version2 w v1 v2 :
  stored w apiId version1 = Some v1 ->
  stored w apiId version2 = Some v2 ->
  let findings := analyzeBreakingChanges JSON_stringify
                    (APIVersion.specification v1) (APIVersion.specification v2) in
  compareVersions JSON_stringify apiId version1 version2 w =
  (w, Ok (CompatibilityReport.mk version1 version2
            (Nat.eqb (List.length findings) 0) findings []
            (Z.max 0 (100 - totalDeduction findings)))).
Proof.
  unfold stored. intros H1 H2. unfold compareVersions, getVersion. run.
  rewrite H1, H2. now rewrite fold_left_deduction.
Qed.
End AnalyzerFacts.

Lemma filter_eqb_NoDup l p :
  NoDup l -> In p l -> filter (fun q => String.eqb q p) l = [p].
Proof.
  induction 1 as [|x l Hx Hnd IH]; intros Hin; [contradiction|]. simpl.
  destruct Hin as [->|Hin].
  - rewrite String.eqb_refl. f_equal.
    rewrite (filter_ext_in _ (fun _ => false)); [apply filter_false|].
    intros q Hq. apply String.eqb_neq. intros ->. contradiction.
  - destruct (String.eqb x p) eqn:E; [|now apply IH].
    apply String.eqb_eq in E. subst. contradiction.
Qed.

Lemma filter_removalOf_removed p l :
  filter (removalOf p) (map removedEndpoint l)
  = map removedEndpoint (filter (fun q => String.eqb q p) l).
Proof.
  induction l as [|q l IH]; simpl; [reflexivity|].
  unfold removalOf at 1. simpl. destruct (String.eqb q p); simpl; now rewrite IH.
Qed.

Lemma filter_removalOf_changed p changed :
  Forall (fun f => BreakingChange.type f = changed_response_format) changed ->
  filter (removalOf p) changed = [].
Proof.
  induction 1 as [|f l Hf _ IH]; simpl; [reflexivity|].
  unfold removalOf at 1. now rewrite Hf.
Qed.

(** ** compareVersions *)

Lemma totalDeduction_counts l :
  totalDeduction l
  = 25 * countSeverity critical l + 15 * countSeverity high l
    + 10 * countSeverity medium l + 5 * countSeverity low l.
Proof.
  unfold countSeverity. induction l as [|f l IH]; [reflexivity|].
  cbn [totalDeduction fold_right filter]. fold (totalDeduction l). rewrite IH.
  destruct (BreakingChange.severity f); cbn [deduction List.length];
    rewrite ?Nat2Z.inj_succ; lia.
Qed.

(** Every finding of the analyzer is critical or high. *)
Lemma analyzeBreakingChanges_severity JSON_stringify spec1 spec2 :
  Forall (fun f => BreakingChange.severity f = critical \/ BreakingChange.severity f = high)
         (analyzeBreakingChanges JSON_stringify spec1 spec2).
Proof.
  unfold analyzeBreakingChanges. apply Forall_app. split; apply Forall_forall; intros f Hf.
  - apply in_flat_map in Hf. destruct Hf as (path & _ & Hf).
    destruct (negb _); [|contradiction]. destruct Hf as [<-|[]]. now left.
  - apply in_flat_map in Hf. destruct Hf as (path & _ & Hf).
    destruct (Js.includes _ path); [|contradiction].
    apply in_flat_map in Hf. destruct Hf as (method & _ & Hf).
    destruct (Js.includes _ method); [|contradiction].
    destruct (_ && _); [|contradiction].
    destruct (differ _ _); [|contradiction].
    destruct Hf as [<-|[]]. now right.
Qed.

Lemma totalDeduction_lower l f :
  Forall (fun f => BreakingChange.severity f = critical \/ BreakingChange.severity f = high) l ->
  In f l ->
  deduction (BreakingChange.severity f) <= totalDeduction l /\ 15 <= totalDeduction l.
Proof.
  induction 1 as [|g l Hg Hall IH]; intros Hin; [contradiction|].
  cbn [totalDeduction fold_right]. fold (totalDeduction l).
  assert (Hpos : 0 <= totalDeduction l).
  { clear. induction l as [|g l IH]; cbn [totalDeduction fold_right]; [lia|].
    fold (totalDeduction l). destruct (BreakingChange.severity g); cbn [deduction]; lia. }
  destruct Hin as [<-|Hin].
  - destruct Hg as [-> | ->]; cbn [deduction]; lia.
  - specialize (IH Hin). destruct Hg as [-> | ->]; cbn [deduction]; lia.
Qed.

(** C4: for two stored versions [compareVersions] returns a report whose
    score is 100 minus 25 for each critical finding, 15 for each high one, 10
    for each medium one and 5 for each low one, floored at 0, and whose
    [compatible] flag says that there is no finding.  A compatible report
    scores 100 and an incompatible one at most 85; a path of the first
    specification that the second lacks makes the report incompatible with a
    score of at most 75; identical specifications give a compatible report
    with no finding and score 100. *)
Theorem compareVersions_score JSON_stringify apiId version1 version2 w v1 v2 :
  stored w apiId version1 = Some v1 ->
  stored w apiId version2 = Some v2 ->
  exists report,
    compareVersions JSON_stringify apiId version1 version2 w = (w, Ok report) /\
    CompatibilityReport.score report
      = Z.max 0 (100 - (25 * countSeverity critical (CompatibilityReport.breakingChanges report)
                        + 15 * countSeverity high (CompatibilityReport.breakingChanges report)
                        + 10 * countSeverity medium (CompatibilityReport.breakingChanges report)
                        + 5 * countSeverity low (CompatibilityReport.breakingChanges report))) /\
    (CompatibilityReport.compatible report = true <->
     CompatibilityReport.breakingChanges report = []) /\
    (CompatibilityReport.compatible report = true -> CompatibilityReport.score report = 100) /\
    (CompatibilityReport.compatible report = false -> CompatibilityReport.score report <= 85) /\
    (forall path,
        In path (pathKeys (APIVersion.specification v1)) ->
        ~ In path (pathKeys (APIVersion.specification v2)) ->
        CompatibilityReport.compatible report = false /\
        CompatibilityReport.score report <= 75) /\
    (APIVersion.specification v1 = APIVersion.specification v2 ->
     CompatibilityReport.compatible report = true /\
     CompatibilityReport.breakingChanges report = [] /\
     CompatibilityReport.score report = 100).
Proof.
  intros H1 H2. eexists. split; [apply compareVersions_stored; eassumption|].
  cbn [CompatibilityReport.score CompatibilityReport.compatible
       CompatibilityReport.breakingChanges].
  pose proof (analyzeBreakingChanges_severity JSON_stringify (APIVersion.specification v1)
                (APIVersion.specification v2)) as Hsev.
  set (findings := analyzeBreakingChanges JSON_stringify (APIVersion.specification v1)
                     (APIVersion.specification v2)) in *.
  split; [now rewrite totalDeduction_counts|]. split.
  { rewrite Nat.eqb_eq. apply length_zero_iff_nil. }
  split.
  { rewrite Nat.eqb_eq. intros H. apply length_zero_iff_nil in H. now rewrite H. }
  split.
  { intros H. destruct findings as [|f l] eqn:Hf; [discriminate|].
    pose proof (totalDeduction_lower (f :: l) f Hsev (or_introl eq_refl)). lia. }
  split.
  - intros path Hin Hnot.
    assert (Hfound : In (removedEndpoint path) findings).
    { unfold findings.
      destruct (analyzeBreakingChanges_shape JSON_stringify (APIVersion.specification v1)
                  (APIVersion.specification v2)) as (changed & -> & _).
      apply in_or_app. left. apply in_map. apply filter_In. split; [exact Hin|].
      apply negb_true_iff. destruct (Js.includes _ path) eqn:E; [|reflexivity].
      apply includes_In in E. contradiction. }
    pose proof (totalDeduction_lower findings _ Hsev Hfound) as [Hlow _].
    cbn [removedEndpoint BreakingChange.severity deduction] in Hlow.
    split; [|lia]. destruct findings; [contradiction | reflexivity].
  - intros E. unfold findings. rewrite E, analyzeBreakingChanges_same. auto.
Qed.

(** C5: in the report for versions A and B, each path key of A's
    specification that B's lacks has exactly one removed-endpoint finding,
    and its severity is critical; a report whose only finding is a removed
    endpoint has score 75. *)
Theorem compareVersions_removed_endpoint JSON_stringify apiId versionA versionB w a b :
  stored w apiId versionA = Some a ->
  stored w apiId versionB = Some b ->
  exists report,
    compareVersions JSON_stringify apiId versionA versionB w = (w, Ok report) /\
    (forall path,
        In path (pathKeys (APIVersion.specification a)) ->
        ~ In path (pathKeys (APIVersion.specification b)) ->
        exists f,
          filter (removalOf path) (CompatibilityReport.breakingChanges report) = [f] /\
          BreakingChange.type f = removed_endpoint /\
          BreakingChange.path f = path /\
          BreakingChange.severity f = critical) /\
    (forall f,
        CompatibilityReport.breakingChanges report = [f] ->
        BreakingChange.type f = removed_endpoint ->
        CompatibilityReport.score report = 75).
Proof.
  intros Ha Hb. eexists. split; [apply compareVersions_stored; eassumption|]. simpl.
  destruct (analyzeBreakingChanges_shape JSON_stringify (APIVersion.specification a)
              (APIVersion.specification b)) as (changed & -> & Hchanged).
  split.
  - intros path Hin Hnot. exists (removedEndpoint path).
    split; [|repeat split].
    rewrite filter_app, filter_removalOf_removed, (filter_removalOf_changed _ _ Hchanged).
    rewrite filter_eqb_NoDup; [reflexivity | |].
    + apply NoDup_filter. apply keys_NoDup.
    + apply filter_In. split; [exact Hin|].
      apply negb_true_iff. destruct (Js.includes _ path) eqn:E; [|reflexivity].
      apply includes_In in E. contradiction.
  - intros f Hf Htype. rewrite Hf. simpl.
    assert (Hsev : BreakingChange.severity f = critical).
    { assert (Hin : In f (map removedEndpoint
                 (filter (fun path => negb (Js.includes (pathKeys (APIVersion.specification b)) path))
                         (pathKeys (APIVersion.specification a))) ++ changed)%list)
        by (rewrite Hf; now left).
      apply in_app_or in Hin. destruct Hin as [Hin|Hin].
      - apply in_map_iff in Hin. destruct Hin as (q & <- & _). reflexivity.
      - rewrite Forall_forall in Hchanged. apply Hchanged in Hin. congruence. }
    now rewrite Hsev.
Qed.

(** C10: the report [compareVersions] returns for two stored versions has no
    warning. *)
Theorem compareVersions_no_warnings JSON_stringify apiId version1 version2 w v1 v2 :
  stored w apiId version1 = Some v1 ->
  stored w apiId version2 = Some v2 ->
  exists report,
    compareVersions JSON_stringify apiId version1 version2 w = (w, Ok report) /\
    CompatibilityReport.warnings report = [].
Proof.
  intros H1 H2. eexists. split; [apply compareVersions_stored; eassumption|]. reflexivity.
Qed.

(** Without both versions stored there is no report at all. *)
Lemma compareVersions_missing JSON_stringify apiId version1 version2 w :
  stored w apiId version1 = None \/ stored w apiId version2 = None ->
  compareVersions JSON_stringify apiId version1 version2 w = (w, Throw VersionsNotFound).
Proof.
  unfold stored, compareVersions, getVersion. run. intros [H|H]; rewrite H.
  - reflexivity.
  - destruct (find (has_key apiId version1) _); reflexivity.
Qed.

(** ** Migration plans *)

Lemma createMigrationPlan_Ok JSON_stringify now random apiId fromVersion toVersion strategy
    w w' plan :
  createMigrationPlan JSON_stringify now random apiId fromVersion toVersion strategy w
    = (w', Ok plan) ->
  exists report,
    compareVersions JSON_stringify apiId fromVersion toVersion w = (w, Ok report) /\
    MigrationPlan.steps plan = generateMigrationSteps strategy report /\
    MigrationPlan.strategy plan = strategy /\
    plansTable w' = putPlan plan (plansTable w) /\
    versionsTable w' = versionsTable w.
Proof.
  unfold createMigrationPlan, bind. intros H.
  pose proof (compareVersions_world JSON_stringify apiId fromVersion toVersion w) as Hw.
  destruct (compareVersions _ _ _ _ w) as [w0 [report|e]]; simpl in *; [|discriminate].
  subst w0. unfold setPlans, ret in H. injection H as <- <-.
  exists report. simpl. auto.
Qed.

(** C6: a plan created with strategy canary has the five steps prepare,
    deploy to 10%, increase to 50%, full deployment, cleanup, in that order,
    each after the first depending on exactly the step before it; and for any
    strategy the plan starts with the preparation step named Pre-deployment
    Validation and ends with the step named Cleanup Old Resources, which
    depends on exactly the step before it. *)
Theorem createMigrationPlan_steps JSON_stringify now random apiId fromVersion toVersion
    strategy w w' plan :
  createMigrationPlan JSON_stringify now random apiId fromVersion toVersion strategy w
    = (w', Ok plan) ->
  (exists first middle final,
      MigrationPlan.steps plan = first :: (middle ++ [final])%list /\
      MigrationStep.name first = "Pre-deployment Validation" /\
      MigrationStep.type first = preparation /\
      MigrationStep.name final = "Cleanup Old Resources" /\
      MigrationStep.dependencies final = [MigrationStep.id (last (first :: middle) first)]) /\
  (if String.eqb strategy "canary" then
     map (fun s => (MigrationStep.id s, MigrationStep.name s, MigrationStep.type s))
         (MigrationPlan.steps plan)
     = [ ("prep-1", "Pre-deployment Validation", preparation);
         ("deploy-1", "Deploy Canary (10%)", deployment);
         ("deploy-2", "Increase to 50%", deployment);
         ("deploy-3", "Full Deployment", deployment);
         ("cleanup-1", "Cleanup Old Resources", cleanup) ] /\
     chained (MigrationPlan.steps plan)
   else True).
Proof.
  intros H. apply createMigrationPlan_Ok in H. destruct H as (report & _ & -> & _).
  unfold generateMigrationSteps. split.
  - destruct (String.eqb strategy "blue-green"); [|destruct (String.eqb strategy "canary")].
    + exists prepStep, blueGreenSteps. eexists. split; [reflexivity|]. simpl. auto.
    + exists prepStep, canarySteps. eexists. split; [reflexivity|]. simpl. auto.
    + exists prepStep, []. eexists. split; [reflexivity|]. simpl. auto.
  - destruct (String.eqb strategy "canary") eqn:Hc; [|exact I].
    apply String.eqb_eq in Hc. subst strategy. simpl. auto 10.
Qed.

(** ** createVersion returns *)

Lemma policyPlan_spec now policy v :
  policyPlan now policy v =
  if dateHolds (supportEnd now policy)
  then Ok (DeprecationPlan.mk
             "Exceeded maximum version policy"
             "Please migrate to the latest version"
             (supportEnd now policy)
             (Some (APIVersion.version v)))
  else Throw RangeError.
Proof.
  unfold policyPlan, toISOString, dateHolds, supportEnd.
  change msPerDay with 86400000. change maxTime with 8640000000000000.
  destruct (_ && _); reflexivity.
Qed.

(** On a store with unique keys and valid version strings a run of the
    policy returns, unless it has a version to deprecate and the support
    period ends out of the range of [Date]: then it throws before it has
    changed anything. *)
Lemma applyLifecyclePolicy_outcome now v w :
  store_wf w ->
  (exists w', applyLifecyclePolicy now v w = (w', Ok tt)) \/
  (applyLifecyclePolicy now v w = (w, Throw RangeError) /\
   exists policy,
     policyOfApi w (APIVersion.apiId v) = Some policy /\
     Policy.maxVersions (APILifecyclePolicy.policy policy)
       < Z.of_nat (List.length (publishedOf (APIVersion.apiId v) w)) /\
     dateHolds (supportEnd now policy) = false).
Proof.
  intros Hwf. destruct (policyOfApi w (APIVersion.apiId v)) as [policy|] eqn:Hpol.
  - destruct (Z.ltb_spec (Policy.maxVersions (APILifecyclePolicy.policy policy))
                (Z.of_nat (List.length (publishedOf (APIVersion.apiId v) w))))
      as [Hover|Hle].
    + destruct (applyLifecyclePolicy_run now v w policy Hwf Hpol Hover)
        as (old & _ & _ & _ & _ & _ & Hrun).
      rewrite Hrun. destruct old as [|o rest]; [left; eauto|].
      rewrite policyPlan_spec. destruct (dateHolds _) eqn:Hd; [left; eauto|].
      right. split; [reflexivity|]. exists policy. auto.
    + left. rewrite applyLifecyclePolicy_unfold. unfold policyOfApi in Hpol.
      rewrite Hpol. cbv zeta. apply Z.ltb_ge in Hle. rewrite Hle. eauto.
  - left. rewrite applyLifecyclePolicy_unfold. unfold policyOfApi in Hpol.
    rewrite Hpol. eauto.
Qed.

Lemma safeVersion_newVersion versionData level now :
  safeVersion (newVersion versionData level now) = marshallable versionData.
Proof. reflexivity. Qed.

(** In a world the service has reached, what [createVersion] does with a
    valid version string that is not stored yet: it stops before any write
    on a number [marshall] refuses, and after the record and the
    specification are written when the policy cannot build its plan;
    otherwise it returns the record. *)
Lemma createVersion_fresh now versionData w :
  reachable w ->
  SemVer.valid (VersionData.version versionData) = true ->
  stored w (VersionData.apiId versionData) (VersionData.version versionData) = None ->
  exists level,
    if marshallable versionData then
      (exists w', createVersion now versionData w
                  = (w', Ok (newVersion versionData level now))) \/
      (createVersion now versionData w
       = (persisted (newVersion versionData level now) w, Throw RangeError) /\
       exists policy,
         policyOfApi w (VersionData.apiId versionData) = Some policy /\
         Policy.maxVersions (APILifecyclePolicy.policy policy)
           < Z.of_nat (List.length (publishedOf (VersionData.apiId versionData)
                                      (persisted (newVersion versionData level now) w))) /\
         dateHolds (supportEnd now policy) = false)
    else createVersion now versionData w = (w, Throw UnsafeNumber).
Proof.
  intros Hreach Hvalid Hfresh. pose proof (reachable_wf w Hreach) as Hwf.
  rewrite createVersion_unfold, Hvalid, Hfresh. simpl negb. cbv iota.
  destruct (getLatestVersion_spec (VersionData.apiId versionData) w Hwf)
    as (latest & Hg & Hspec).
  rewrite Hg. simpl snd. cbv iota zeta.
  assert (Hlevel : exists level,
            match latest with
            | Some l =>
                match SemVer.diff (APIVersion.version l) (VersionData.version versionData) with
                | Ok d => Ok (levelOfDiff d)
                | Throw e => Throw e
                end
            | None => Ok patch
            end = Ok level).
  { destruct latest as [l|]; [|eauto].
    destruct (versionsOf _ w) as [|x rest] eqn:Hv; [discriminate|].
    destruct Hspec as (m & Hm & Hin & _). injection Hm as ->.
    pose proof (versionsOf_valid (VersionData.apiId versionData) w Hwf) as Hval.
    rewrite Hv, Forall_forall in Hval. specialize (Hval m Hin).
    unfold SemVer.diff.
    destruct (parse_valid _ Hval) as [a ->]. destruct (parse_valid _ Hvalid) as [b ->].
    eauto. }
  destruct Hlevel as [level ->]. exists level.
  rewrite safeVersion_newVersion. destruct (marshallable versionData); [|reflexivity].
  fold (persisted (newVersion versionData level now) w).
  destruct (applyLifecyclePolicy_outcome now (newVersion versionData level now)
              (persisted (newVersion versionData level now) w))
    as [[w' Hp]|[Hp Hwhy]].
  { apply table_wf_putItem; [exact Hvalid | exact Hfresh | exact Hwf]. }
  - left. rewrite Hp. eauto.
  - right. rewrite Hp. split; [reflexivity|]. exact Hwhy.
Qed.

(* ================================================================== *)
(** * Instances *)

Lemma reachable_createAll now l : forall w,
  reachable w -> reachable (Sample.createAll now l w).
Proof.
  induction l as [|d l IH]; intros w Hw; simpl; [exact Hw|].
  apply IH. exact (reachable_perform Sample.render now (CreateVersion d) w Hw).
Defined.

Lemma reachable_five : reachable Scenario.five.
Proof.
  apply reachable_createAll.
  exact (reachable_policies [Scenario.policy5] _ reachable_empty).
Defined.

Lemma reachable_two : reachable Scenario.two.
Proof. apply reachable_createAll. exact reachable_empty. Defined.

Lemma reachable_one : reachable Cases.one.
Proof. apply reachable_createAll. exact reachable_empty. Defined.

Lemma reachable_shared : reachable Cases.shared.
Proof. apply reachable_createAll. exact reachable_empty. Defined.

Lemma reachable_endless : reachable Cases.endless.
Proof.
  apply reachable_createAll.
  exact (reachable_policies [Sample.policyOf "orders" 5 100000001] _ reachable_empty).
Defined.

Lemma createVersion_compatibilityLevel_witness :
  reachable Cases.one /\
  map (fun version =>
         match Cases.next version with
         | (_, Ok v) => Some (APIVersion.compatibilityLevel v)
         | _ => None
         end) ["1.1.0"; "2.0.0"; "1.0.1"]
  = [Some minor; Some major; Some patch].
Proof.
  assert (Hvs : versionsOf "orders" Cases.one
                = [newVersion (Scenario.orders "1.0.0" published) patch 0])
    by reflexivity.
  assert (Hlevel : forall version w' v,
            Cases.next version = (w', Ok v) ->
            forall b, SemVer.parse version = Some b -> SemVer.prerelease b = [] ->
            APIVersion.compatibilityLevel v
            = if negb (1 =? SemVer.major b)%N then major
              else if negb (0 =? SemVer.minor b)%N then minor else patch).
  { intros version w' v Hc b Hb Hpre.
    pose proof (proj2 (createVersion_compatibilityLevel 1 (Scenario.orders version draft)
                         Cases.one w' v reachable_one Hc)) as H.
    cbn [VersionData.apiId VersionData.version Scenario.orders Sample.data] in H.
    rewrite Hvs in H.
    destruct H as (latest & a & b' & d & Hin & _ & Ha & Hb' & _ & _ & Hrel).
    destruct Hin as [<-|[]].
    rewrite Hb in Hb'. injection Hb' as <-.
    vm_compute in Ha. injection Ha as <-. exact (Hrel eq_refl Hpre). }
  split; [exact reachable_one|].
  cbn [map].
  destruct (Cases.next "1.1.0") as [w1 [v1|e1]] eqn:H1; [|vm_compute in H1; discriminate].
  destruct (Cases.next "2.0.0") as [w2 [v2|e2]] eqn:H2; [|vm_compute in H2; discriminate].
  destruct (Cases.next "1.0.1") as [w3 [v3|e3]] eqn:H3; [|vm_compute in H3; discriminate].
  rewrite (Hlevel _ _ _ H1 _ eq_refl eq_refl), (Hlevel _ _ _ H2 _ eq_refl eq_refl),
    (Hlevel _ _ _ H3 _ eq_refl eq_refl).
  reflexivity.
Defined.

Lemma status_moves_forward_witness :
  stored Scenario.two "orders" "1.0.0" = Some Scenario.firstRecord /\
  (exists w' v',
      deprecateVersion 5 "orders" "1.0.0" Scenario.supportEnds Scenario.two = (w', Ok tt) /\
      stored w' "orders" "1.0.0" = Some v' /\
      APIVersion.status v' = deprecated /\ APIVersion.deprecatedAt v' = Some 5) /\
  (exists e, retireVersion 5 "orders" "1.0.0" Scenario.two = (Scenario.two, Throw e) /\
             InvalidTransition e = true) /\
  (exists v',
      stored (perform Sample.render 5 (CreateVersion (Scenario.orders "0.1.0" published))
                Scenario.two) "orders" "1.0.0" = Some v' /\
      (rank (APIVersion.status Scenario.firstRecord) <= rank (APIVersion.status v'))%nat).
Proof.
  assert (Hs : stored Scenario.two "orders" "1.0.0" = Some Scenario.firstRecord)
    by (vm_compute; reflexivity).
  split; [exact Hs|].
  exact (status_moves_forward Sample.render 5 Scenario.supportEnds
           (CreateVersion (Scenario.orders "0.1.0" published))
           Scenario.two "orders" "1.0.0" Scenario.firstRecord Hs).
Defined.

Lemma lifecycle_policy_deprecates_oldest_witness :
  reachable Scenario.five /\
  createVersion 9 (Scenario.orders "3.0.0" published) Scenario.five
    = (Scenario.afterSixth, Ok Scenario.sixthRecord) /\
  snd (getLifecyclePolicy "orders" Scenario.five) = Ok (Some Scenario.policy5) /\
  5 < Z.of_nat (List.length Scenario.active) /\
  exists old,
    NoDup old /\ incl old Scenario.active /\
    Z.of_nat (List.length old)
      = Z.min (Z.of_nat (List.length Scenario.active))
              (Z.of_nat (List.length Scenario.active) - 5) /\
    (forall o u, In o old -> In u Scenario.active -> ~ In u old ->
                 precedes (APIVersion.version o) (APIVersion.version u)) /\
    (forall o, In o old ->
       exists r,
         stored Scenario.afterSixth (APIVersion.apiId o) (APIVersion.version o) = Some r /\
         APIVersion.status r = deprecated /\
         APIVersion.deprecatedAt r = Some 9 /\
         APIVersion.deprecationPlan r
           = Some (DeprecationPlan.mk
                     "Exceeded maximum version policy"
                     "Please migrate to the latest version"
                     (9 + 30 * 86400000)
                     (Some "3.0.0")) /\
         content r = content o /\
         APIVersion.retiredAt r = APIVersion.retiredAt o) /\
    (forall u, In u (versionsTable (persisted Scenario.sixthRecord Scenario.five)) ->
               ~ In u old ->
               stored Scenario.afterSixth (APIVersion.apiId u) (APIVersion.version u)
               = Some u) /\
    map key (versionsTable Scenario.afterSixth)
      = map key (versionsTable (persisted Scenario.sixthRecord Scenario.five)) /\
    policiesTable Scenario.afterSixth = policiesTable Scenario.five /\
    plansTable Scenario.afterSixth = plansTable Scenario.five /\
    bucket Scenario.afterSixth = bucket (persisted Scenario.sixthRecord Scenario.five) /\
    Z.of_nat (List.length (publishedOf "orders" Scenario.afterSixth)) = Z.max 0 5.
Proof.
  assert (Hc : createVersion 9 (Scenario.orders "3.0.0" published) Scenario.five
               = (Scenario.afterSixth, Ok Scenario.sixthRecord)) by (vm_compute; reflexivity).
  assert (Hp : snd (getLifecyclePolicy "orders" Scenario.five) = Ok (Some Scenario.policy5))
    by (vm_compute; reflexivity).
  assert (Ho : 5 < Z.of_nat (List.length Scenario.active)) by (vm_compute; reflexivity).
  split; [exact reachable_five|]. split; [exact Hc|]. split; [exact Hp|]. split; [exact Ho|].
  exact (lifecycle_policy_deprecates_oldest 9 (Scenario.orders "3.0.0" published)
           Scenario.five Scenario.afterSixth Scenario.sixthRecord Scenario.policy5
           reachable_five Hc Hp Ho).
Defined.

(** The sixth published version under a limit of five: the lowest version
    (0.9.0) is the one deprecated, and five stay published. *)
Lemma sixth_published_version :
  Sample.statuses Scenario.five =
    [("1.0.0", published); ("1.1.0", published); ("1.2.0", published);
     ("0.9.0", published); ("2.0.0", published)] /\
  Sample.statuses Scenario.afterSixth =
    [("1.0.0", published); ("1.1.0", published); ("1.2.0", published);
     ("0.9.0", deprecated); ("2.0.0", published); ("3.0.0", published)] /\
  option_map APIVersion.deprecationPlan (stored Scenario.afterSixth "orders" "0.9.0") =
    Some (Some (DeprecationPlan.mk "Exceeded maximum version policy"
                  "Please migrate to the latest version" (9 + 30 * 86400000) (Some "3.0.0"))).
Proof. repeat split; vm_compute; reflexivity. Qed.

Lemma compareVersions_score_witness :
  stored Scenario.two "orders" "1.0.0" = Some Scenario.firstRecord /\
  stored Scenario.two "orders" "3.0.0" = Some Scenario.secondRecord /\
  exists report,
    compareVersions Sample.render "orders" "1.0.0" "3.0.0" Scenario.two
      = (Scenario.two, Ok report) /\
    CompatibilityReport.compatible report = false /\
    countSeverity critical (CompatibilityReport.breakingChanges report) = 1 /\
    CompatibilityReport.score report = 75.
Proof.
  assert (Ha : stored Scenario.two "orders" "1.0.0" = Some Scenario.firstRecord)
    by (vm_compute; reflexivity).
  assert (Hb : stored Scenario.two "orders" "3.0.0" = Some Scenario.secondRecord)
    by (vm_compute; reflexivity).
  split; [exact Ha|]. split; [exact Hb|].
  destruct (compareVersions_score Sample.render "orders" "1.0.0" "3.0.0" Scenario.two
              Scenario.firstRecord Scenario.secondRecord Ha Hb)
    as (report & Hc & Hscore & _ & _ & _ & Hmissing & _).
  exists report. split; [exact Hc|].
  assert (Hin : In "/users" (pathKeys (APIVersion.specification Scenario.firstRecord)))
    by (vm_compute; tauto).
  assert (Hnot : ~ In "/users" (pathKeys (APIVersion.specification Scenario.secondRecord)))
    by (vm_compute; intros [H|[]]; discriminate H).
  split; [exact (proj1 (Hmissing "/users" Hin Hnot))|].
  assert (Hr : snd (compareVersions Sample.render "orders" "1.0.0" "3.0.0" Scenario.two)
               = Ok report) by now rewrite Hc.
  vm_compute in Hr. injection Hr as <-.
  split; [reflexivity|]. rewrite Hscore. reflexivity.
Defined.

Lemma compareVersions_removed_endpoint_witness :
  stored Scenario.two "orders" "1.0.0" = Some Scenario.firstRecord /\
  stored Scenario.two "orders" "3.0.0" = Some Scenario.secondRecord /\
  In "/users" (pathKeys (APIVersion.specification Scenario.firstRecord)) /\
  ~ In "/users" (pathKeys (APIVersion.specification Scenario.secondRecord)) /\
  exists report,
    compareVersions Sample.render "orders" "1.0.0" "3.0.0" Scenario.two
      = (Scenario.two, Ok report) /\
    (exists f,
        filter (removalOf "/users") (CompatibilityReport.breakingChanges report) = [f] /\
        BreakingChange.type f = removed_endpoint /\
        BreakingChange.path f = "/users" /\
        BreakingChange.severity f = critical) /\
    CompatibilityReport.score report = 75.
Proof.
  assert (Ha : stored Scenario.two "orders" "1.0.0" = Some Scenario.firstRecord)
    by (vm_compute; reflexivity).
  assert (Hb : stored Scenario.two "orders" "3.0.0" = Some Scenario.secondRecord)
    by (vm_compute; reflexivity).
  assert (Hin : In "/users" (pathKeys (APIVersion.specification Scenario.firstRecord)))
    by (vm_compute; tauto).
  assert (Hnot : ~ In "/users" (pathKeys (APIVersion.specification Scenario.secondRecord))).
  { vm_compute. intros [H|[]]. discriminate. }
  split; [exact Ha|]. split; [exact Hb|]. split; [exact Hin|]. split; [exact Hnot|].
  destruct (compareVersions_removed_endpoint Sample.render "orders" "1.0.0" "3.0.0"
              Scenario.two Scenario.firstRecord Scenario.secondRecord Ha Hb)
    as (report & Hc & Hrem & Hscore).
  exists report. split; [exact Hc|]. split; [exact (Hrem "/users" Hin Hnot)|].
  apply (Hscore (removedEndpoint "/users")); [|reflexivity].
  vm_compute in Hc. injection Hc as <-. reflexivity.
Defined.

Lemma compareVersions_no_warnings_witness :
  stored Scenario.two "orders" "1.0.0" = Some Scenario.firstRecord /\
  stored Scenario.two "orders" "3.0.0" = Some Scenario.secondRecord /\
  exists report,
    compareVersions Sample.render "orders" "1.0.0" "3.0.0" Scenario.two
      = (Scenario.two, Ok report) /\
    CompatibilityReport.warnings report = [].
Proof.
  assert (Ha : stored Scenario.two "orders" "1.0.0" = Some Scenario.firstRecord)
    by (vm_compute; reflexivity).
  assert (Hb : stored Scenario.two "orders" "3.0.0" = Some Scenario.secondRecord)
    by (vm_compute; reflexivity).
  split; [exact Ha|]. split; [exact Hb|].
  exact (compareVersions_no_warnings Sample.render "orders" "1.0.0" "3.0.0" Scenario.two
           Scenario.firstRecord Scenario.secondRecord Ha Hb).
Defined.

Lemma createMigrationPlan_steps_witness :
  exists w' plan,
    createMigrationPlan Sample.render 7 "k3x9q" "orders" "1.0.0" "3.0.0" "canary" Scenario.two
      = (w', Ok plan) /\
    (exists first middle final,
        MigrationPlan.steps plan = first :: (middle ++ [final])%list /\
        MigrationStep.name first = "Pre-deployment Validation" /\
        MigrationStep.type first = preparation /\
        MigrationStep.name final = "Cleanup Old Resources" /\
        MigrationStep.dependencies final = [MigrationStep.id (last (first :: middle) first)]) /\
    map (fun s => (MigrationStep.id s, MigrationStep.name s, MigrationStep.type s))
        (MigrationPlan.steps plan)
    = [ ("prep-1", "Pre-deployment Validation", preparation);
        ("deploy-1", "Deploy Canary (10%)", deployment);
        ("deploy-2", "Increase to 50%", deployment);
        ("deploy-3", "Full Deployment", deployment);
        ("cleanup-1", "Cleanup Old Resources", cleanup) ] /\
    chained (MigrationPlan.steps plan).
Proof.
  assert (H : exists w' plan,
             createMigrationPlan Sample.render 7 "k3x9q" "orders" "1.0.0" "3.0.0" "canary"
               Scenario.two = (w', Ok plan))
    by (vm_compute; eauto).
  destruct H as (w' & plan & Hc). exists w', plan. split; [exact Hc|].
  exact (createMigrationPlan_steps Sample.render 7 "k3x9q" "orders" "1.0.0" "3.0.0" "canary"
           Scenario.two w' plan Hc).
Defined.

Lemma createVersion_existing_pair_witness :
  reachable Scenario.two /\
  stored Scenario.two "orders" "1.0.0" = Some Scenario.firstRecord /\
  createVersion 3 (Scenario.orders "1.0.0" draft) Scenario.two
    = (Scenario.two, Throw DuplicateVersion).
Proof.
  assert (Hs : stored Scenario.two "orders" "1.0.0" = Some Scenario.firstRecord)
    by (vm_compute; reflexivity).
  split; [exact reachable_two|]. split; [exact Hs|].
  exact (createVersion_existing_pair 3 (Scenario.orders "1.0.0" draft) Scenario.two
           Scenario.firstRecord reachable_two Hs).
Defined.

Lemma createVersion_record_witness :
  createVersion 9 (Scenario.orders "3.0.0" published) Scenario.five
    = (Scenario.afterSixth, Ok Scenario.sixthRecord) /\
  APIVersion.status Scenario.sixthRecord = published /\
  APIVersion.metrics Scenario.sixthRecord = Metrics.mk 0 0 0 100 0 /\
  stored (persisted Scenario.sixthRecord Scenario.five) "orders" "3.0.0"
    = Some Scenario.sixthRecord /\
  exists r,
    stored Scenario.afterSixth "orders" "3.0.0" = Some r /\
    APIVersion.metrics r = Metrics.mk 0 0 0 100 0 /\
    (APIVersion.status r = published \/
     (published = published /\ APIVersion.status r = deprecated)).
Proof.
  assert (Hc : createVersion 9 (Scenario.orders "3.0.0" published) Scenario.five
               = (Scenario.afterSixth, Ok Scenario.sixthRecord)) by (vm_compute; reflexivity).
  split; [exact Hc|].
  exact (createVersion_record 9 (Scenario.orders "3.0.0" published) Scenario.five
           Scenario.afterSixth Scenario.sixthRecord Hc).
Defined.

(** ** The semver model on examples *)

Example parse_1_2_3 : SemVer.parse "1.2.3" = Some (SemVer.mk 1 2 3 [] []).
Proof. reflexivity. Qed.
Example parse_pre : SemVer.parse " v1.0.0-alpha.1+build.5 " =
  Some (SemVer.mk 1 0 0 [SemVer.IStr "alpha"; SemVer.INum 1] ["build"; "5"]).
Proof. reflexivity. Qed.
Example parse_bad : map SemVer.valid ["v1"; "1.0"; "01.0.0"; "1.0.0-"; "1.0.0-01"; "1.0.0+"; "a.b.c"; ""; "1.0.0-a..b"] =
  [false;false;false;false;false;false;false;false;false].
Proof. reflexivity. Qed.
Example parse_good : map SemVer.valid ["1.0.0"; "0.0.0"; "1.0.0-0a"; "1.0.0--"; "1.0.0+001"; "v2.10.3"; "1.0.0-x-y.z"] =
  [true;true;true;true;true;true;true].
Proof. reflexivity. Qed.
Example diff_ex : map (fun p => SemVer.diff (fst p) (snd p))
   [("1.0.0","1.1.0"); ("1.0.0","2.0.0"); ("1.0.0","1.0.1"); ("1.0.0","1.0.0"); ("1.0.0","2.0.0-rc.1"); ("1.0.0-1", "1.0.0"); ("1.1.0-1", "1.1.0"); ("1.1.1-1", "1.1.1"); ("1.1.1-1","1.1.1-2")] =
   map Ok [Some SemVer.minor_r; Some SemVer.major_r; Some SemVer.patch_r; None; Some SemVer.premajor; Some SemVer.major_r; Some SemVer.minor_r; Some SemVer.patch_r; Some SemVer.prerelease_r].
Proof. reflexivity. Qed.

(* ================================================================== *)
(** * Further properties of the service *)

(** ** What requests keep of a stored record *)

Section Tracking.
Variable R : APIVersion.t -> APIVersion.t -> Prop.
Hypothesis R_refl : forall v, R v v.
Hypothesis R_trans : forall a b c, R a b -> R b c -> R a c.
Hypothesis R_deprecate :
  forall now plan v, APIVersion.status v = published -> R v (setDeprecated now plan v).
Hypothesis R_retire :
  forall now v, APIVersion.status v = deprecated -> R v (setRetired now v).

Lemma tracks_refl table : tracks R table table.
Proof. intros a v r H. exists r. auto. Qed.

Lemma tracks_trans t1 t2 t3 : tracks R t1 t2 -> tracks R t2 t3 -> tracks R t1 t3.
Proof.
  intros H12 H23 a v r H. destruct (H12 _ _ _ H) as (r2 & H2 & L2).
  destruct (H23 _ _ _ H2) as (r3 & H3 & L3). exists r3. eauto.
Qed.

Lemma tracks_update apiId version set table v :
  (forall a0 v0 u, has_key a0 v0 (set u) = has_key a0 v0 u) ->
  find (has_key apiId version) table = Some v ->
  R v (set v) ->
  tracks R table (updateItem apiId version set table).
Proof.
  intros Hkey Hf HR a0 v0 r Hr.
  rewrite find_updateItem, Hr by (intros; apply Hkey). simpl.
  destruct (has_key apiId version r) eqn:Hk.
  - destruct (has_key_unique _ _ _ _ _ (find_has_key _ _ _ _ Hr) Hk) as [-> ->].
    assert (r = v) by congruence. subst r. eauto.
  - eauto.
Qed.

Lemma tracks_putItem item table :
  find (has_key (APIVersion.apiId item) (APIVersion.version item)) table = None ->
  tracks R table (putItem item table).
Proof.
  intros Hnone a v r Hr. exists r. split; [|apply R_refl].
  rewrite find_putItem_other; [exact Hr|].
  destruct (has_key a v item) eqn:Hk; [|reflexivity].
  apply has_key_true in Hk. destruct Hk as [<- <-]. congruence.
Qed.

Lemma deprecateVersion_tracks now apiId version plan w :
  tracks R (versionsTable w)
           (versionsTable (fst (deprecateVersion now apiId version plan w))).
Proof.
  rewrite deprecateVersion_unfold.
  destruct (find _ _) as [v|] eqn:Hf; simpl; [|apply tracks_refl].
  destruct (Status_eqb _ _) eqn:Hs; simpl; [|apply tracks_refl].
  apply Status_eqb_eq in Hs. eapply tracks_update; eauto.
Qed.

Lemma retireVersion_tracks now apiId version w :
  tracks R (versionsTable w) (versionsTable (fst (retireVersion now apiId version w))).
Proof.
  rewrite retireVersion_unfold.
  destruct (find _ _) as [v|] eqn:Hf; simpl; [|apply tracks_refl].
  destruct (Status_eqb _ _) eqn:Hs; simpl; [|apply tracks_refl].
  apply Status_eqb_eq in Hs. eapply tracks_update; eauto.
Qed.

Lemma applyLifecyclePolicy_tracks now version w :
  tracks R (versionsTable w) (versionsTable (fst (applyLifecyclePolicy now version w))).
Proof.
  apply (applyLifecyclePolicy_invariant now version (tracks R (versionsTable w)));
    [|apply tracks_refl].
  intros plan table a v r Htr Hf Hs.
  eapply tracks_trans; [exact Htr|]. eapply tracks_update; eauto.
Qed.

Lemma createVersion_tracks now versionData w :
  tracks R (versionsTable w) (versionsTable (fst (createVersion now versionData w))).
Proof.
  rewrite createVersion_unfold.
  destruct (negb _); simpl; [apply tracks_refl|].
  destruct (stored _ _ _) eqn:Hst; simpl; [apply tracks_refl|].
  destruct (snd (getLatestVersion _ _)) as [latest|e]; simpl; [|apply tracks_refl].
  match goal with |- context [match ?L with Ok _ => _ | Throw _ => _ end] =>
    destruct L as [level|e] end; simpl; [|apply tracks_refl].
  destruct (safeVersion _); simpl; [|apply tracks_refl].
  match goal with |- context [applyLifecyclePolicy now ?V ?W] =>
    pose proof (applyLifecyclePolicy_tracks now V W) as Htr;
    destruct (applyLifecyclePolicy now V W) as [w' [[]|e]] end; simpl in *;
    (eapply tracks_trans; [|exact Htr]); apply tracks_putItem; exact Hst.
Qed.

Lemma createMigrationPlan_versions JSON_stringify now random apiId fromVersion toVersion
    strategy w :
  versionsTable (fst (createMigrationPlan JSON_stringify now random apiId fromVersion
                        toVersion strategy w)) = versionsTable w.
Proof.
  unfold createMigrationPlan, bind.
  pose proof (compareVersions_world JSON_stringify apiId fromVersion toVersion w) as Hw.
  destruct (compareVersions _ _ _ _ w) as [w0 [report|e]]; simpl in *; now subst w0.
Qed.

Lemma perform_tracks JSON_stringify now op w :
  tracks R (versionsTable w) (versionsTable (perform JSON_stringify now op w)).
Proof.
  destruct op; simpl.
  - apply createVersion_tracks.
  - apply tracks_refl.
  - rewrite getLatestVersion_world. apply tracks_refl.
  - apply tracks_refl.
  - apply deprecateVersion_tracks.
  - apply retireVersion_tracks.
  - rewrite compareVersions_world. apply tracks_refl.
  - rewrite createMigrationPlan_versions. apply tracks_refl.
Qed.

Lemma handle_tracks JSON_stringify now random req w :
  tracks R (versionsTable w) (versionsTable (fst (handle JSON_stringify now random req w))).
Proof.
  destruct req; simpl.
  - destruct tenantId as [t|]; [|apply tracks_refl].
    destruct (String.eqb t ""); [apply tracks_refl|].
    pose proof (createVersion_tracks now (withIds body apiId t) w) as H.
    destruct (createVersion _ _ w) as [w' [v|e]]; exact H.
  - apply tracks_refl.
  - unfold getVersion. destruct (find _ _); apply tracks_refl.
  - pose proof (compareVersions_world JSON_stringify apiId version1 version2 w) as H.
    destruct (compareVersions _ _ _ _ w) as [w' [r|e]]; simpl in *; subst;
      apply tracks_refl.
  - pose proof (deprecateVersion_tracks now apiId version body w) as H.
    destruct (deprecateVersion _ _ _ _ w) as [w' [[]|e]]; exact H.
  - pose proof (createMigrationPlan_versions JSON_stringify now random apiId fromVersion
                  toVersion strategy w) as H.
    destruct (createMigrationPlan _ _ _ _ _ _ _ w) as [w' [p|e]]; simpl in *;
      rewrite H; apply tracks_refl.
Qed.
End Tracking.

(** X1: whatever request the service handles, a stored record keeps its
    content: identifiers, creation data, specification, deployment,
    compatibility level and metrics stay as written; only the lifecycle
    fields can change. *)
Theorem stored_content_is_immutable JSON_stringify now op w apiId version v :
  stored w apiId version = Some v ->
  exists v', stored (perform JSON_stringify now op w) apiId version = Some v' /\
             content v' = content v.
Proof.
  intros Hs.
  apply (perform_tracks (fun a b => content b = content a)); try exact Hs.
  - reflexivity.
  - intros a b c Hab Hbc. congruence.
  - reflexivity.
  - reflexivity.
Qed.

(** X2: no HTTP route retires a version: after any request to the router a
    stored record that was not retired is still not retired, and its
    [retiredAt] is untouched. *)
Theorem routes_never_retire JSON_stringify now random req w apiId version v :
  stored w apiId version = Some v ->
  APIVersion.status v <> retired ->
  exists v',
    stored (fst (handle JSON_stringify now random req w)) apiId version = Some v' /\
    APIVersion.status v' <> retired /\
    APIVersion.retiredAt v' = APIVersion.retiredAt v.
Proof.
  intros Hs Hnr.
  destruct (handle_tracks
              (fun a b => APIVersion.retiredAt b = APIVersion.retiredAt a /\
                          (APIVersion.status b = retired -> APIVersion.status a = retired))
              (fun a => conj eq_refl (fun H => H))) with
      (JSON_stringify := JSON_stringify) (now := now) (random := random) (req := req)
      (w := w) (apiId := apiId) (version := version) (v := v)
    as (v' & Hv' & Hret & Hst).
  - intros a b c [H1 H2] [H3 H4]. split; [congruence | auto].
  - intros now0 plan a _. split; [reflexivity | discriminate].
  - exact Hs.
  - exists v'. split; [exact Hv'|]. split; [|exact Hret]. intros H. auto.
Qed.

(** ** deprecateVersion and retireVersion in detail *)

Lemma find_updateItem_other apiId version apiId' version' set table :
  (forall v, has_key apiId version (set v) = has_key apiId version v) ->
  (apiId, version) <> (apiId', version') ->
  find (has_key apiId version) (updateItem apiId' version' set table)
  = find (has_key apiId version) table.
Proof.
  intros Hset Hne. rewrite find_updateItem by exact Hset.
  destruct (find (has_key apiId version) table) as [r|] eqn:Hr; [|reflexivity]. simpl.
  destruct (has_key apiId' version' r) eqn:Hk; [|reflexivity].
  destruct (has_key_unique _ _ _ _ _ (find_has_key _ _ _ _ Hr) Hk) as [-> ->].
  congruence.
Qed.

(** X3: deprecating a stored, published version attaches the given plan to
    it, keeps its content and its [retiredAt], changes no other record and
    touches neither the policies, the plans nor the bucket. *)
Theorem deprecateVersion_effect now plan w apiId version v :
  stored w apiId version = Some v ->
  APIVersion.status v = published ->
  exists w' v',
    deprecateVersion now apiId version plan w = (w', Ok tt) /\
    stored w' apiId version = Some v' /\
    APIVersion.deprecationPlan v' = Some plan /\
    content v' = content v /\
    APIVersion.retiredAt v' = APIVersion.retiredAt v /\
    (forall apiId0 version0,
        (apiId0, version0) <> (apiId, version) ->
        stored w' apiId0 version0 = stored w apiId0 version0) /\
    policiesTable w' = policiesTable w /\ plansTable w' = plansTable w /\
    bucket w' = bucket w.
Proof.
  unfold stored. intros Hs Hpub.
  rewrite deprecateVersion_unfold, Hs, Hpub. simpl.
  eexists; eexists. split; [reflexivity|]. simpl.
  rewrite find_updateItem, Hs by reflexivity. simpl.
  rewrite (find_has_key _ _ _ _ Hs).
  split; [reflexivity|]. repeat split.
  intros a0 v0 Hne. now apply find_updateItem_other.
Qed.

(** X4: deprecation followed by retirement: from a stored, published version
    both calls succeed in that order, and the record ends retired with both
    timestamps recorded, the plan still attached and its content intact;
    after that neither call succeeds on it again. *)
Theorem deprecate_then_retire t1 t2 t3 plan w apiId version v :
  stored w apiId version = Some v ->
  APIVersion.status v = published ->
  exists w1 w2 v2,
    deprecateVersion t1 apiId version plan w = (w1, Ok tt) /\
    retireVersion t2 apiId version w1 = (w2, Ok tt) /\
    stored w2 apiId version = Some v2 /\
    APIVersion.status v2 = retired /\
    APIVersion.deprecatedAt v2 = Some t1 /\
    APIVersion.retiredAt v2 = Some t2 /\
    APIVersion.deprecationPlan v2 = Some plan /\
    content v2 = content v /\
    deprecateVersion t3 apiId version plan w2 = (w2, Throw InvalidDeprecation) /\
    retireVersion t3 apiId version w2 = (w2, Throw InvalidRetirement).
Proof.
  unfold stored. intros Hs Hpub.
  rewrite deprecateVersion_unfold, Hs, Hpub. simpl.
  eexists; eexists; eexists. split; [reflexivity|].
  assert (H1 : find (has_key apiId version)
                 (updateItem apiId version (setDeprecated t1 plan) (versionsTable w))
               = Some (setDeprecated t1 plan v)).
  { rewrite find_updateItem, Hs by reflexivity. simpl.
    now rewrite (find_has_key _ _ _ _ Hs). }
  rewrite retireVersion_unfold. simpl. rewrite H1. simpl.
  split; [reflexivity|]. simpl.
  assert (H2 : find (has_key apiId version)
                 (updateItem apiId version (setRetired t2)
                    (updateItem apiId version (setDeprecated t1 plan) (versionsTable w)))
               = Some (setRetired t2 (setDeprecated t1 plan v))).
  { rewrite find_updateItem, H1 by reflexivity. unfold option_map.
    now rewrite has_key_setDeprecated, (find_has_key _ _ _ _ Hs). }
  rewrite H2. repeat split.
  - rewrite deprecateVersion_unfold. simpl. now rewrite H2.
  - rewrite retireVersion_unfold. simpl. now rewrite H2.
Qed.

(** X5: [deprecateVersion] and [retireVersion] on a pair that has no record
    throw the not-found error and leave every store as it was; over HTTP the
    deprecate route answers 500 for such a pair, the version route 404. *)
Theorem transition_of_missing_version JSON_stringify now random plan w apiId version :
  stored w apiId version = None ->
  deprecateVersion now apiId version plan w = (w, Throw VersionNotFound) /\
  retireVersion now apiId version w = (w, Throw VersionNotFound) /\
  handle JSON_stringify now random (PostDeprecate apiId version plan) w
    = (w, mkResponse 500 (ErrorBody "Failed to deprecate version")) /\
  handle JSON_stringify now random (GetVersionRoute apiId version) w
    = (w, mkResponse 404 (ErrorBody "Version not found")).
Proof.
  unfold stored. intros Hs. simpl. unfold getVersion.
  rewrite deprecateVersion_unfold, retireVersion_unfold, Hs. auto.
Qed.

(** ** The analyzer in general *)

Lemma totalDeduction_app l1 l2 :
  totalDeduction (l1 ++ l2) = totalDeduction l1 + totalDeduction l2.
Proof.
  unfold totalDeduction. induction l1 as [|f l1 IH]; simpl; [reflexivity|].
  rewrite IH. lia.
Qed.

Lemma totalDeduction_removed l :
  totalDeduction (map removedEndpoint l) = 25 * Z.of_nat (List.length l).
Proof.
  unfold totalDeduction. induction l as [|p l IH]; [reflexivity|].
  cbn [map fold_right List.length]. rewrite IH. simpl deduction. lia.
Qed.

Lemma countType_removed l :
  countType removed_endpoint (map removedEndpoint l) = List.length l /\
  countType changed_response_format (map removedEndpoint l) = 0%nat.
Proof.
  unfold countType. induction l as [|p l [IH1 IH2]]; simpl; [auto|].
  split; [now rewrite IH1 | exact IH2].
Qed.

Lemma changed_findings changed :
  Forall (fun f => exists method path, f = changedResponseFormat method path) changed ->
  totalDeduction changed = 15 * Z.of_nat (List.length changed) /\
  countType changed_response_format changed = List.length changed /\
  countType removed_endpoint changed = 0%nat.
Proof.
  unfold totalDeduction, countType.
  induction 1 as [|f l (m & p & ->) _ (IH1 & IH2 & IH3)]; [simpl; auto|].
  cbn [fold_right filter List.length]. simpl BreakingChange.type.
  cbn iota. cbn [List.length]. rewrite IH1, IH2, IH3. simpl deduction.
  repeat split; lia.
Qed.

Section AnalyzerKinds.
Variable JSON_stringify : Json.value -> string.

Lemma analyzeBreakingChanges_parts spec1 spec2 :
  exists removed changed,
    analyzeBreakingChanges JSON_stringify spec1 spec2
      = (map removedEndpoint removed ++ changed)%list /\
    Forall (fun f => exists method path, f = changedResponseFormat method path) changed.
Proof.
  unfold analyzeBreakingChanges. eexists; eexists. split.
  - f_equal. instantiate (1 := filter (fun path => negb (Js.includes
        (Json.keys (Json.orEmpty (Specification.paths spec2))) path))
        (Json.keys (Json.orEmpty (Specification.paths spec1)))).
    induction (Json.keys (Json.orEmpty (Specification.paths spec1))) as [|p l IH];
      simpl; [reflexivity|].
    destruct (negb _); simpl; now rewrite IH.
  - apply Forall_forall. intros f Hf.
    apply in_flat_map in Hf. destruct Hf as (path & _ & Hf).
    destruct (Js.includes _ path); [|contradiction].
    apply in_flat_map in Hf. destruct Hf as (method & _ & Hf).
    destruct (Js.includes _ method); [|contradiction].
    destruct (_ && _); [|contradiction].
    destruct (differ _ _); [|contradiction].
    destruct Hf as [<-|[]]. eauto.
Qed.

(** X6: the analyzer reports two kinds of finding and no other: removed
    endpoints, always critical, and changed response formats, always high; it
    never reports a changed schema or an added required field, nor a finding
    of medium or low severity. *)
Theorem analyzer_reports_two_kinds apiId version1 version2 w v1 v2 :
  stored w apiId version1 = Some v1 ->
  stored w apiId version2 = Some v2 ->
  exists report,
    compareVersions JSON_stringify apiId version1 version2 w = (w, Ok report) /\
    Forall (fun f =>
              (BreakingChange.type f = removed_endpoint /\
               BreakingChange.severity f = critical) \/
              (BreakingChange.type f = changed_response_format /\
               BreakingChange.severity f = high))
           (CompatibilityReport.breakingChanges report).
Proof.
  intros H1 H2. eexists. split; [apply compareVersions_stored; eassumption|]. simpl.
  destruct (analyzeBreakingChanges_parts (APIVersion.specification v1)
              (APIVersion.specification v2)) as (removed & changed & -> & Hch).
  apply Forall_app. split.
  - apply Forall_forall. intros f Hf. apply in_map_iff in Hf.
    destruct Hf as (p & <- & _). now left.
  - eapply Forall_impl; [|exact Hch]. intros f (m & p & ->). now right.
Qed.

(** X7: the score of a report lies between 0 and 100, is a multiple of 5,
    and is 100 less 25 per removed endpoint and 15 per changed response
    format, floored at 0. *)
Theorem score_by_kind apiId version1 version2 w v1 v2 :
  stored w apiId version1 = Some v1 ->
  stored w apiId version2 = Some v2 ->
  exists report,
    compareVersions JSON_stringify apiId version1 version2 w = (w, Ok report) /\
    0 <= CompatibilityReport.score report <= 100 /\
    CompatibilityReport.score report mod 5 = 0 /\
    CompatibilityReport.score report
      = Z.max 0 (100
                 - 25 * Z.of_nat (countType removed_endpoint
                                    (CompatibilityReport.breakingChanges report))
                 - 15 * Z.of_nat (countType changed_response_format
                                    (CompatibilityReport.breakingChanges report))).
Proof.
  intros H1 H2. eexists. split; [apply compareVersions_stored; eassumption|].
  cbn [CompatibilityReport.score CompatibilityReport.breakingChanges].
  destruct (analyzeBreakingChanges_parts (APIVersion.specification v1)
              (APIVersion.specification v2)) as (removed & changed & -> & Hch).
  destruct (changed_findings changed Hch) as (Hd & Hc1 & Hc2).
  destruct (countType_removed removed) as (Hr1 & Hr2).
  rewrite totalDeduction_app, totalDeduction_removed, Hd.
  assert (Hcount : forall t, countType t (map removedEndpoint removed ++ changed)
                             = (countType t (map removedEndpoint removed)
                                + countType t changed)%nat).
  { intros t. unfold countType. now rewrite filter_app, length_app. }
  rewrite !Hcount, Hr1, Hr2, Hc1, Hc2.
  set (r := Z.of_nat (List.length removed)). set (c := Z.of_nat (List.length changed)).
  assert (0 <= r) by (unfold r; lia). assert (0 <= c) by (unfold c; lia).
  split; [lia|]. split.
  - destruct (Z.max_spec 0 (100 - (25 * r + 15 * c))) as [[_ ->]|[_ ->]]; [|reflexivity].
    replace (100 - (25 * r + 15 * c)) with ((20 - (5 * r + 3 * c)) * 5) by lia.
    apply Z.mod_mul. lia.
  - f_equal. lia.
Qed.

(** X8: additions are compatible: when every path key of A's specification
    is a path key of B's with the same path item, the report has no finding,
    is compatible and scores 100, whatever else B's specification adds. *)
Theorem added_endpoints_are_compatible apiId versionA versionB w a b :
  stored w apiId versionA = Some a ->
  stored w apiId versionB = Some b ->
  (forall path,
      In path (pathKeys (APIVersion.specification a)) ->
      In path (pathKeys (APIVersion.specification b)) /\
      Json.get (Specification.paths (APIVersion.specification b)) path
      = Json.get (Specification.paths (APIVersion.specification a)) path) ->
  exists report,
    compareVersions JSON_stringify apiId versionA versionB w = (w, Ok report) /\
    CompatibilityReport.breakingChanges report = [] /\
    CompatibilityReport.compatible report = true /\
    CompatibilityReport.score report = 100.
Proof.
  intros Ha Hb Hext. eexists. split; [apply compareVersions_stored; eassumption|]. simpl.
  assert (Hnil : analyzeBreakingChanges JSON_stringify (APIVersion.specification a)
                   (APIVersion.specification b) = []).
  { unfold analyzeBreakingChanges. fold (pathKeys (APIVersion.specification a)).
    fold (pathKeys (APIVersion.specification b)).
    match goal with |- (?x ++ ?y)%list = [] =>
      assert (Hx : x = []); [|assert (Hy : y = []); [|now rewrite Hx, Hy]] end;
      apply flat_map_nil.
    - intros path Hp. destruct (Hext path Hp) as [Hin _].
      apply includes_In in Hin. now rewrite Hin.
    - intros path _. destruct (Js.includes _ path) eqn:Hinc; [|reflexivity].
      apply includes_In in Hinc. destruct (Hext path Hinc) as [_ ->].
      apply flat_map_nil. intros method Hm. apply includes_In in Hm. rewrite Hm.
      destruct (Json.truthy _ && Json.truthy _); [|reflexivity].
      now rewrite differ_same. }
  rewrite Hnil. auto.
Qed.
End AnalyzerKinds.

(** ** Migration plans in general *)

(** X9: for every strategy the generated steps form one chain: each step
    after the first depends on exactly the step before it, the identifiers
    are distinct and every step is pending; blue-green has four steps, canary
    five, any other strategy the two bookends only; and the steps do not
    depend on the compatibility report. *)
Theorem migration_steps_form_a_chain strategy report report' :
  chained (generateMigrationSteps strategy report) /\
  NoDup (map MigrationStep.id (generateMigrationSteps strategy report)) /\
  Forall (fun s => MigrationStep.status s = pending)
         (generateMigrationSteps strategy report) /\
  List.length (generateMigrationSteps strategy report)
    = (if String.eqb strategy "blue-green" then 4
       else if String.eqb strategy "canary" then 5 else 2)%nat /\
  generateMigrationSteps strategy report' = generateMigrationSteps strategy report.
Proof.
  unfold generateMigrationSteps.
  destruct (String.eqb strategy "blue-green"); [|destruct (String.eqb strategy "canary")];
    simpl; (split; [tauto|]); (split; [|split; [repeat constructor | split; reflexivity]]);
    repeat constructor; simpl; intuition discriminate.
Qed.

Lemma find_putPlan_same plan table :
  find (fun p => String.eqb (MigrationPlan.id p) (MigrationPlan.id plan)) (putPlan plan table)
  = Some plan.
Proof.
  induction table as [|p table IH]; simpl.
  - now rewrite String.eqb_refl.
  - destruct (String.eqb (MigrationPlan.id p) (MigrationPlan.id plan)) eqn:E; simpl.
    + now rewrite String.eqb_refl.
    + now rewrite E.
Qed.

(** X10: [createMigrationPlan] succeeds exactly when both versions are
    stored, whatever the compatibility report says: the plan is then stored
    under its identifier in status planned, with the fixed rollback plan, and
    the versions, the policies and the bucket are untouched.  When a version
    is missing it throws and stores nothing. *)
Theorem createMigrationPlan_outcome JSON_stringify now random apiId fromVersion toVersion
    strategy w :
  match stored w apiId fromVersion, stored w apiId toVersion with
  | Some _, Some _ =>
      exists w' plan,
        createMigrationPlan JSON_stringify now random apiId fromVersion toVersion strategy w
          = (w', Ok plan) /\
        planOf w' (MigrationPlan.id plan) = Some plan /\
        MigrationPlan.id plan = "migration-" ++ Js.show_Z now ++ "-" ++ random /\
        MigrationPlan.status plan = planned /\
        MigrationPlan.strategy plan = strategy /\
        MigrationPlan.rollbackPlan plan
          = RollbackPlan.mk true ["error-rate > 5%"; "response-time > 2000ms"]
              ["Stop traffic to new version"; "Route all traffic to old version";
               "Investigate issues"] /\
        versionsTable w' = versionsTable w /\ policiesTable w' = policiesTable w /\
        bucket w' = bucket w
  | _, _ =>
      createMigrationPlan JSON_stringify now random apiId fromVersion toVersion strategy w
        = (w, Throw VersionsNotFound)
  end.
Proof.
  destruct (stored w apiId fromVersion) as [v1|] eqn:H1;
    [destruct (stored w apiId toVersion) as [v2|] eqn:H2|].
  - unfold createMigrationPlan, bind.
    rewrite (compareVersions_stored JSON_stringify _ _ _ _ _ _ H1 H2).
    cbv zeta. unfold setPlans, ret. cbn [fst snd].
    eexists; eexists. split; [reflexivity|]. unfold planOf. cbn [plansTable].
    split; [apply find_putPlan_same|]. repeat split.
  - unfold createMigrationPlan, bind.
    rewrite compareVersions_missing by (now right). reflexivity.
  - unfold createMigrationPlan, bind.
    rewrite compareVersions_missing by (now left). reflexivity.
Qed.

(** ** createVersion in general *)

Lemma find_putObject_same key o b :
  find (fun kv => String.eqb (fst kv) key) (putObject key o b) = Some (key, o).
Proof.
  induction b as [|[k o'] b IH]; simpl.
  - now rewrite String.eqb_refl.
  - destruct (String.eqb k key) eqn:E; simpl.
    + now rewrite String.eqb_refl.
    + now rewrite E.
Qed.


Lemma find_putObject_other key key' o b :
  key' <> key ->
  find (fun kv => String.eqb (fst kv) key') (putObject key o b)
  = find (fun kv => String.eqb (fst kv) key') b.
Proof.
  intros Hne. induction b as [|[k o'] b IH]; simpl.
  - destruct (String.eqb key key') eqn:E; [apply String.eqb_eq in E; congruence | reflexivity].
  - destruct (String.eqb k key) eqn:E; simpl.
    + apply String.eqb_eq in E. subst k.
      destruct (String.eqb key key') eqn:E'; [apply String.eqb_eq in E'; congruence|].
      reflexivity.
    + now rewrite IH.
Qed.

Lemma createVersion_cases now versionData w :
  reachable w ->
  (SemVer.valid (VersionData.version versionData) = false /\
   createVersion now versionData w = (w, Throw InvalidVersionFormat)) \/
  (SemVer.valid (VersionData.version versionData) = true /\
   (exists existing,
       stored w (VersionData.apiId versionData) (VersionData.version versionData)
       = Some existing) /\
   createVersion now versionData w = (w, Throw DuplicateVersion)) \/
  (SemVer.valid (VersionData.version versionData) = true /\
   stored w (VersionData.apiId versionData) (VersionData.version versionData) = None /\
   marshallable versionData = false /\
   createVersion now versionData w = (w, Throw UnsafeNumber)) \/
  (SemVer.valid (VersionData.version versionData) = true /\
   stored w (VersionData.apiId versionData) (VersionData.version versionData) = None /\
   marshallable versionData = true /\
   exists level,
     (exists w', createVersion now versionData w
                 = (w', Ok (newVersion versionData level now))) \/
     (createVersion now versionData w
      = (persisted (newVersion versionData level now) w, Throw RangeError) /\
      exists policy,
        policyOfApi w (VersionData.apiId versionData) = Some policy /\
        Policy.maxVersions (APILifecyclePolicy.policy policy)
          < Z.of_nat (List.length (publishedOf (VersionData.apiId versionData)
                                     (persisted (newVersion versionData level now) w))) /\
        dateHolds (supportEnd now policy) = false)).
Proof.
  intros Hreach.
  destruct (SemVer.valid (VersionData.version versionData)) eqn:Hvalid.
  - right.
    destruct (stored w (VersionData.apiId versionData) (VersionData.version versionData))
      as [existing|] eqn:Hst.
    + left. split; [reflexivity|]. split; [eauto|].
      now apply createVersion_duplicate with (existing := existing).
    + right. destruct (createVersion_fresh now versionData w Hreach Hvalid Hst) as [level H].
      destruct (marshallable versionData).
      * right. repeat (split; [reflexivity|]). exists level. exact H.
      * left. repeat (split; [reflexivity|]). exact H.
  - left. split; [reflexivity|]. unfold createVersion. now rewrite Hvalid.
Qed.

Lemma applyLifecyclePolicy_frame now version w :
  let w' := fst (applyLifecyclePolicy now version w) in
  List.length (versionsTable w') = List.length (versionsTable w) /\
  policiesTable w' = policiesTable w /\ plansTable w' = plansTable w /\
  bucket w' = bucket w.
Proof.
  apply (applyLifecyclePolicy_invariant now version
           (fun table => List.length table = List.length (versionsTable w)));
    [|reflexivity].
  intros plan table a v r Hlen _ _. unfold updateItem. now rewrite length_map.
Qed.








(** X12: after a successful [createVersion] the bucket holds, under the key
    built from tenant, api and version, the specification that was supplied,
    with the record's identifiers and creation time as metadata. *)
Theorem specification_is_stored now versionData w w' v :
  createVersion now versionData w = (w', Ok v) ->
  specificationKey v
    = "api-specifications/" ++ VersionData.tenantId versionData ++ "/"
        ++ VersionData.apiId versionData ++ "/" ++ VersionData.version versionData
        ++ "/openapi.json" /\
  object w' (specificationKey v)
    = Some (S3Object.mk (VersionData.specification versionData)
              (VersionData.apiId versionData, VersionData.version versionData,
               VersionData.tenantId versionData, now)).
Proof.
  intros Hc.
  destruct (createVersion_Ok _ _ _ _ _ Hc) as (_ & _ & latest & level & _ & _ & Hnew & Hp).
  pose proof (applyLifecyclePolicy_frame now v (persisted v w)) as Hframe.
  cbv zeta in Hframe. rewrite Hp in Hframe. cbn [fst] in Hframe.
  destruct Hframe as (_ & _ & _ & Hb).
  split; [now subst v|].
  unfold object. rewrite Hb. unfold persisted. cbn [bucket].
  rewrite find_putObject_same. now subst v.
Qed.

(** X13: when no lifecycle policy is configured for the api, or the published
    versions (the new one included) do not outnumber its limit, a successful
    [createVersion] deprecates nothing: the versions table is the old one with
    the new record appended. *)
Theorem createVersion_within_limit now versionData w w' v :
  createVersion now versionData w = (w', Ok v) ->
  match policyOfApi w (VersionData.apiId versionData) with
  | None => True
  | Some policy =>
      Z.of_nat (List.length (publishedOf (VersionData.apiId versionData) (persisted v w)))
      <= Policy.maxVersions (APILifecyclePolicy.policy policy)
  end ->
  versionsTable w' = (versionsTable w ++ [v])%list.
Proof.
  intros Hc Hlimit.
  destruct (createVersion_Ok _ _ _ _ _ Hc) as (_ & Hst & latest & level & _ & _ & Hnew & Hp).
  assert (Hapi : APIVersion.apiId v = VersionData.apiId versionData) by now subst v.
  rewrite applyLifecyclePolicy_unfold in Hp. rewrite Hapi in Hp.
  unfold policyOfApi in Hlimit.
  change (policiesTable (persisted v w)) with (policiesTable w) in Hp.
  assert (Hw' : w' = persisted v w).
  { destruct (find _ (policiesTable w)) as [policy|]; [|congruence].
    cbv zeta in Hp. apply Z.ltb_ge in Hlimit. rewrite Hlimit in Hp. congruence. }
  rewrite Hw'. simpl. apply putItem_fresh. subst v. exact Hst.
Qed.

(** ** The lifecycle policy stays within its api *)

Lemma insertM_In {A : Type} (cmpM : A -> A -> result comparison) x : forall l r y,
  JsM.insert cmpM x l = Ok r -> In y r -> y = x \/ In y l.
Proof.
  induction l as [|z l IH]; intros r y Hr Hy; simpl in Hr.
  - injection Hr as <-. destruct Hy as [<-|[]]. now left.
  - destruct (cmpM x z) as [[]|e]; try discriminate.
    + injection Hr as <-. destruct Hy as [<-|Hy]; auto.
    + injection Hr as <-. destruct Hy as [<-|Hy]; auto.
    + destruct (JsM.insert cmpM x l) as [r'|e] eqn:Hi; [|discriminate].
      injection Hr as <-. destruct Hy as [<-|Hy]; [right; now left|].
      destruct (IH r' y eq_refl Hy); [now left | right; now right].
Qed.

Lemma sortM_In {A : Type} (cmpM : A -> A -> result comparison) : forall l s y,
  JsM.sort cmpM l = Ok s -> In y s -> In y l.
Proof.
  induction l as [|x l IH]; intros s y Hs Hy; simpl in Hs.
  - injection Hs as <-. contradiction.
  - destruct (JsM.sort cmpM l) as [s'|e] eqn:Hl; [|discriminate].
    destruct (insertM_In cmpM x s' s y Hs Hy) as [->|Hin]; [now left|].
    right. now apply (IH s').
Qed.

Lemma slice0_In {A : Type} (l : list A) n y : In y (Js.slice0 l n) -> In y l.
Proof. unfold Js.slice0. destruct (n <? 0); apply In_firstn. Qed.

Lemma filter_updateItem_other_api apiId apiId' version set table :
  apiId' <> apiId ->
  (forall u, APIVersion.apiId (set u) = APIVersion.apiId u) ->
  filter (fun v => String.eqb (APIVersion.apiId v) apiId') (updateItem apiId version set table)
  = filter (fun v => String.eqb (APIVersion.apiId v) apiId') table.
Proof.
  intros Hne Hset. induction table as [|u table IH]; simpl; [reflexivity|].
  destruct (has_key apiId version u) eqn:Hk.
  - apply has_key_true in Hk. destruct Hk as [Ha _].
    rewrite Hset, Ha.
    assert (E : String.eqb apiId apiId' = false) by (apply String.eqb_neq; congruence).
    now rewrite E.
  - now rewrite IH.
Qed.

Lemma forEach_deprecate_other_api now plan apiId apiId' l :
  Forall (fun o => APIVersion.apiId o = apiId) l -> apiId' <> apiId ->
  forall w,
    versionsOf apiId' (fst (forEach (fun o => deprecateVersion now (APIVersion.apiId o)
                                               (APIVersion.version o) plan) l w))
    = versionsOf apiId' w.
Proof.
  intros Hall Hne. induction Hall as [|o l Ho _ IH]; intros w; simpl; [reflexivity|].
  unfold bind. rewrite deprecateVersion_unfold, Ho.
  destruct (find _ _) as [v|]; simpl; [|reflexivity].
  destruct (Status_eqb _ _); simpl; [|reflexivity].
  rewrite IH. unfold versionsOf. simpl. f_equal.
  now apply filter_updateItem_other_api.
Qed.

Lemma applyLifecyclePolicy_other_api now v w apiId' :
  apiId' <> APIVersion.apiId v ->
  versionsOf apiId' (fst (applyLifecyclePolicy now v w)) = versionsOf apiId' w.
Proof.
  intros Hne. rewrite applyLifecyclePolicy_unfold.
  destruct (find _ _) as [policy|]; simpl; [|reflexivity].
  destruct (_ <? _); simpl; [|reflexivity].
  destruct (JsM.sort _ _) as [sorted|e] eqn:Hs; simpl; [|reflexivity].
  destruct (Js.slice0 sorted _) as [|o0 rest] eqn:Hold; [reflexivity|].
  destruct (policyPlan now policy v) as [plan|e]; [|reflexivity].
  apply forEach_deprecate_other_api with (apiId := APIVersion.apiId v); [|exact Hne].
  apply Forall_forall. intros o Ho. rewrite <- Hold in Ho.
  apply slice0_In in Ho. apply (sortM_In _ _ _ _ Hs) in Ho.
  apply In_publishedOf in Ho. tauto.
Qed.

(** X14: a call to [createVersion] for one api, whether it returns or throws,
    leaves the stored versions of every other api exactly as they were: the
    lifecycle policy only deprecates versions of the api it was run for. *)
Theorem createVersion_leaves_other_apis now versionData w apiId' :
  apiId' <> VersionData.apiId versionData ->
  versionsOf apiId' (fst (createVersion now versionData w)) = versionsOf apiId' w.
Proof.
  intros Hne. rewrite createVersion_unfold.
  destruct (negb _); simpl; [reflexivity|].
  destruct (stored _ _ _) eqn:Hst; simpl; [reflexivity|].
  destruct (snd (getLatestVersion _ _)) as [latest|e]; simpl; [|reflexivity].
  match goal with |- context [match ?L with Ok _ => _ | Throw _ => _ end] =>
    destruct L as [level|e] end; simpl; [|reflexivity].
  destruct (safeVersion _); simpl; [|reflexivity].
  match goal with |- context [applyLifecyclePolicy now ?V ?W] =>
    pose proof (applyLifecyclePolicy_other_api now V W apiId' Hne) as Hother;
    destruct (applyLifecyclePolicy now V W) as [w' [[]|e]] end; simpl in *;
    rewrite Hother; unfold versionsOf; simpl; f_equal;
    rewrite putItem_fresh by exact Hst;
    rewrite filter_app; simpl;
    (assert (E : String.eqb (VersionData.apiId versionData) apiId' = false)
       by (apply String.eqb_neq; congruence));
    rewrite E; apply app_nil_r.
Qed.

(** ** The limit holds after every creation *)

Lemma applyLifecyclePolicy_exceeding now v w w' policy :
  store_wf w ->
  policyOfApi w (APIVersion.apiId v) = Some policy ->
  Policy.maxVersions (APILifecyclePolicy.policy policy)
    < Z.of_nat (List.length (publishedOf (APIVersion.apiId v) w)) ->
  applyLifecyclePolicy now v w = (w', Ok tt) ->
  Z.of_nat (List.length (publishedOf (APIVersion.apiId v) w'))
  = Z.max 0 (Policy.maxVersions (APILifecyclePolicy.policy policy)).
Proof.
  intros Hwf Hpol Hover Hrun'.
  destruct (applyLifecyclePolicy_run now v w policy Hwf Hpol Hover)
    as (old & _ & _ & _ & _ & Hcount & Hrun).
  rewrite Hrun in Hrun'. destruct old as [|o0 rest] eqn:Hold.
  - assert (Hw' : w' = w) by congruence. subst w'.
    rewrite <- Hcount. f_equal. symmetry. apply f_equal.
    apply forallb_filter_id. apply forallb_forall. intros u _. reflexivity.
  - destruct (policyPlan now policy v) as [plan|e]; [|discriminate].
    assert (Hw' : w' = mkWorld
              (map (fun u => if memberOf (o0 :: rest) u then setDeprecated now plan u else u)
                   (versionsTable w))
              (policiesTable w) (plansTable w) (bucket w)) by congruence.
    rewrite Hw', published_count_after_deprecating.
    destruct w; exact Hcount.
Qed.

(** X15: in a world the service has reached, after a successful
    [createVersion] for an api whose lifecycle policy has a limit that is not
    negative, at most [maxVersions] versions of the api are published. *)
Theorem published_never_exceeds_limit now versionData w w' v policy :
  reachable w ->
  createVersion now versionData w = (w', Ok v) ->
  policyOfApi w (VersionData.apiId versionData) = Some policy ->
  0 <= Policy.maxVersions (APILifecyclePolicy.policy policy) ->
  Z.of_nat (List.length (publishedOf (VersionData.apiId versionData) w'))
  <= Policy.maxVersions (APILifecyclePolicy.policy policy).
Proof.
  intros Hreach Hc Hpol Hmax.
  destruct (createVersion_Ok _ _ _ _ _ Hc)
    as (Hvalid & Hfresh & latest & level & _ & _ & Hv & Hp).
  assert (Hapi : APIVersion.apiId v = VersionData.apiId versionData) by now subst v.
  assert (Hver : APIVersion.version v = VersionData.version versionData) by now subst v.
  assert (Hwf1 : store_wf (persisted v w)).
  { unfold store_wf. simpl. apply table_wf_putItem.
    - now rewrite Hver.
    - rewrite Hapi, Hver. exact Hfresh.
    - exact (reachable_wf w Hreach). }
  rewrite <- Hapi in *.
  destruct (Z.ltb_spec (Policy.maxVersions (APILifecyclePolicy.policy policy))
              (Z.of_nat (List.length (publishedOf (APIVersion.apiId v) (persisted v w)))))
    as [Hover|Hwithin].
  - rewrite (applyLifecyclePolicy_exceeding now v (persisted v w) w' policy Hwf1 Hpol Hover Hp).
    lia.
  - rewrite applyLifecyclePolicy_unfold in Hp.
    unfold policyOfApi in Hpol.
    change (policiesTable (persisted v w)) with (policiesTable w) in Hp.
    rewrite Hpol in Hp. cbv zeta in Hp.
    apply Z.ltb_ge in Hwithin. rewrite Hwithin in Hp. apply Z.ltb_ge in Hwithin.
    injection Hp as <-. exact Hwithin.
Qed.

(** ** Invariants of the versions table *)

Section TableInvariant.
Variable P : list APIVersion.t -> Prop.
Hypothesis P_deprecate :
  forall now plan apiId version table,
    P table -> P (updateItem apiId version (setDeprecated now plan) table).
Hypothesis P_retire :
  forall now apiId version table,
    P table -> P (updateItem apiId version (setRetired now) table).
Hypothesis P_put :
  forall versionData level now table,
    find (has_key (VersionData.apiId versionData) (VersionData.version versionData)) table
      = None ->
    P table -> P (putItem (newVersion versionData level now) table).

Lemma createVersion_keeps now versionData w :
  P (versionsTable w) -> P (versionsTable (fst (createVersion now versionData w))).
Proof.
  intros HP. rewrite createVersion_unfold.
  destruct (negb _); simpl; [exact HP|].
  destruct (stored _ _ _) eqn:Hst; simpl; [exact HP|].
  destruct (snd (getLatestVersion _ _)) as [latest|e]; simpl; [|exact HP].
  match goal with |- context [match ?L with Ok _ => _ | Throw _ => _ end] =>
    destruct L as [level|e] end; simpl; [|exact HP].
  destruct (safeVersion _); simpl; [|exact HP].
  match goal with |- context [applyLifecyclePolicy now ?V ?W] =>
    pose proof (applyLifecyclePolicy_invariant now V P
                  (fun plan table a v r Ht _ _ => P_deprecate now plan a v table Ht) W) as Hpol;
    destruct (applyLifecyclePolicy now V W) as [w' [[]|e]] end; simpl in *;
    apply Hpol; apply P_put; assumption.
Qed.

Lemma perform_keeps JSON_stringify now op w :
  P (versionsTable w) -> P (versionsTable (perform JSON_stringify now op w)).
Proof.
  intros HP. destruct op; simpl.
  - now apply createVersion_keeps.
  - exact HP.
  - now rewrite getLatestVersion_world.
  - exact HP.
  - rewrite deprecateVersion_unfold.
    destruct (find _ _) as [v|]; simpl; [|exact HP].
    destruct (Status_eqb _ _); simpl; [|exact HP]. now apply P_deprecate.
  - rewrite retireVersion_unfold.
    destruct (find _ _) as [v|]; simpl; [|exact HP].
    destruct (Status_eqb _ _); simpl; [|exact HP]. now apply P_retire.
  - now rewrite compareVersions_world.
  - now rewrite createMigrationPlan_versions.
Qed.

Lemma reachable_keeps w : P [] -> reachable w -> P (versionsTable w).
Proof.
  intros Hnil. induction 1; simpl.
  - exact Hnil.
  - now apply perform_keeps.
  - exact IHreachable.
Qed.
End TableInvariant.

(** X16: in every world the service reaches, each stored record has a valid
    semantic version string and still has the metrics it was created with
    (requests, errors, response time and adoption 0, uptime 100: no operation
    updates them), and looking up its pair returns that very record. *)
Theorem stored_records_invariant w v :
  reachable w ->
  In v (versionsTable w) ->
  SemVer.valid (APIVersion.version v) = true /\
  APIVersion.metrics v = Metrics.mk 0 0 0 100 0 /\
  stored w (APIVersion.apiId v) (APIVersion.version v) = Some v.
Proof.
  intros Hreach Hin. destruct (reachable_wf w Hreach) as [Hnd Hval].
  rewrite Forall_forall in Hval. split; [now apply Hval|]. split.
  - assert (Hall : Forall (fun u => APIVersion.metrics u = Metrics.mk 0 0 0 100 0)
                          (versionsTable w)).
    { apply (reachable_keeps
               (Forall (fun u => APIVersion.metrics u = Metrics.mk 0 0 0 100 0)));
        [| | | constructor | exact Hreach].
      - intros now plan a ver table Ht. unfold updateItem. apply Forall_map.
        eapply Forall_impl; [|exact Ht]. intros u Hu. simpl.
        destruct (has_key a ver u); exact Hu.
      - intros now a ver table Ht. unfold updateItem. apply Forall_map.
        eapply Forall_impl; [|exact Ht]. intros u Hu. simpl.
        destruct (has_key a ver u); exact Hu.
      - intros d level now table Hfresh Ht.
        rewrite putItem_fresh by exact Hfresh.
        apply Forall_app. split; [exact Ht | repeat constructor]. }
    rewrite Forall_forall in Hall. now apply Hall.
  - now apply find_NoDup.
Qed.

(** ** Specifications in the bucket *)

Lemma lastUnder_app k table v :
  lastUnder k (table ++ [v])
  = if String.eqb (specificationKey v) k then Some v else lastUnder k table.
Proof. unfold lastUnder. rewrite rev_app_distr. reflexivity. Qed.

Lemma lastUnder_updateItem k apiId version set table :
  (forall u, specificationKey (set u) = specificationKey u) ->
  lastUnder k (updateItem apiId version set table)
  = option_map (fun u => if has_key apiId version u then set u else u) (lastUnder k table).
Proof.
  intros Hset. unfold lastUnder, updateItem. rewrite <- map_rev.
  induction (rev table) as [|x l IH]; cbn [map find option_map]; [reflexivity|].
  assert (E : specificationKey (if has_key apiId version x then set x else x)
              = specificationKey x) by (destruct (has_key _ _ x); auto).
  rewrite E. destruct (String.eqb _ k); [reflexivity | exact IH].
Qed.

Lemma lastUnder_In k table u :
  lastUnder k table = Some u -> In u table /\ specificationKey u = k.
Proof.
  unfold lastUnder. intros H. apply find_some in H. destruct H as [Hin Hk].
  split; [now apply in_rev | now apply String.eqb_eq].
Qed.

Lemma document_updateItem k apiId version set table :
  (forall u, specificationKey (set u) = specificationKey u) ->
  (forall u, documentOf (set u) = documentOf u) ->
  option_map documentOf (lastUnder k (updateItem apiId version set table))
  = option_map documentOf (lastUnder k table).
Proof.
  intros Hkey Hdoc. rewrite lastUnder_updateItem by exact Hkey.
  destruct (lastUnder k table) as [u|]; simpl; [|reflexivity].
  destruct (has_key apiId version u); [now rewrite Hdoc | reflexivity].
Qed.

Lemma bucket_holds_last_documents w :
  reachable w ->
  forall k, object w k = option_map documentOf (lastUnder k (versionsTable w)).
Proof.
  induction 1 as [|JSON_stringify now op w Hreach IH|policies w Hreach IH].
  - reflexivity.
  - destruct op; simpl.
    + rewrite createVersion_unfold.
      destruct (negb _); simpl; [exact IH|].
      destruct (stored _ _ _) eqn:Hst; simpl; [exact IH|].
      destruct (snd (getLatestVersion _ _)) as [latest|e]; simpl; [|exact IH].
      match goal with |- context [match ?L with Ok _ => _ | Throw _ => _ end] =>
        destruct L as [level|e] end; simpl; [|exact IH].
      destruct (safeVersion _); simpl; [|exact IH].
      match goal with |- context [applyLifecyclePolicy now ?V ?W] =>
        pose proof (applyLifecyclePolicy_invariant now V
                      (fun table => forall k,
                         option_map documentOf (lastUnder k table)
                         = option_map documentOf
                             (lastUnder k (versionsTable W)))) as Hpol;
        specialize (Hpol
          (fun plan table a ver r Ht _ _ k =>
             eq_trans (document_updateItem k a ver (setDeprecated now plan) table
                         (fun _ => eq_refl) (fun _ => eq_refl)) (Ht k))
          W (fun _ => eq_refl));
        cbv zeta in Hpol;
        assert (Hgoal : forall k,
          object (fst (applyLifecyclePolicy now V W)) k
          = option_map documentOf
              (lastUnder k (versionsTable (fst (applyLifecyclePolicy now V W)))));
        [|destruct (applyLifecyclePolicy now V W) as [w' [[]|e]]; exact Hgoal] end.
      destruct Hpol as (Htab & _ & _ & Hb). intros k.
      rewrite Htab. unfold object. rewrite Hb. cbn [versionsTable bucket].
      rewrite putItem_fresh by exact Hst. rewrite lastUnder_app.
      destruct (String.eqb _ k) eqn:E.
      * apply String.eqb_eq in E. subst k. now rewrite find_putObject_same.
      * rewrite find_putObject_other by (intros ->; now rewrite String.eqb_refl in E).
        apply IH.
    + exact IH.
    + now rewrite getLatestVersion_world.
    + exact IH.
    + rewrite deprecateVersion_unfold.
      destruct (find _ _) as [r|]; cbn [fst]; [|exact IH].
      destruct (Status_eqb _ _); cbn [fst]; [|exact IH].
      intros k. cbn [versionsTable]. rewrite document_updateItem by reflexivity. apply IH.
    + rewrite retireVersion_unfold.
      destruct (find _ _) as [r|]; cbn [fst]; [|exact IH].
      destruct (Status_eqb _ _); cbn [fst]; [|exact IH].
      intros k. cbn [versionsTable]. rewrite document_updateItem by reflexivity. apply IH.
    + now rewrite compareVersions_world.
    + unfold createMigrationPlan, bind.
      pose proof (compareVersions_world JSON_stringify apiId fromVersion toVersion w) as Hw.
      destruct (compareVersions _ _ _ _ w) as [w0 [report|e]]; simpl in *; subst w0;
        exact IH.
  - exact IH.
Qed.

(** X17: in every world the service reaches, and with the stores answering
    every request, the bucket holds under each object key the specification
    document of the record written last among the stored records with that
    key (its specification, with its api identifier, version, tenant
    identifier and creation time as metadata), and nothing under a key of no
    stored record.  So every stored version finds a document under its key,
    that of a stored version with the same key; it is its own when no other
    stored record has that key.  Two records can have one key, as the key
    joins the tenant and api identifiers with a slash: then the older
    record's document is gone. *)
Theorem every_version_has_its_specification w :
  reachable w ->
  (forall k,
      object w k =
      match lastUnder k (versionsTable w) with
      | Some u =>
          Some (S3Object.mk (APIVersion.specification u)
                  (APIVersion.apiId u, APIVersion.version u, APIVersion.tenantId u,
                   APIVersion.createdAt u))
      | None => None
      end) /\
  (forall k, (forall u, In u (versionsTable w) -> specificationKey u <> k) ->
             object w k = None) /\
  (forall v, In v (versionsTable w) ->
     exists u,
       In u (versionsTable w) /\ specificationKey u = specificationKey v /\
       object w (specificationKey v)
       = Some (S3Object.mk (APIVersion.specification u)
                 (APIVersion.apiId u, APIVersion.version u, APIVersion.tenantId u,
                  APIVersion.createdAt u))) /\
  (forall v, In v (versionsTable w) ->
     (forall u, In u (versionsTable w) -> specificationKey u = specificationKey v -> u = v) ->
     object w (specificationKey v)
     = Some (S3Object.mk (APIVersion.specification v)
               (APIVersion.apiId v, APIVersion.version v, APIVersion.tenantId v,
                APIVersion.createdAt v))).
Proof.
  intros Hreach. pose proof (bucket_holds_last_documents w Hreach) as Hinv.
  assert (Hsome : forall v, In v (versionsTable w) ->
            exists u, lastUnder (specificationKey v) (versionsTable w) = Some u).
  { intros v Hv. unfold lastUnder.
    destruct (find _ (rev (versionsTable w))) as [u|] eqn:Hf; [eauto|].
    apply in_rev in Hv. pose proof (find_none _ _ Hf v Hv) as Hno. simpl in Hno.
    now rewrite String.eqb_refl in Hno. }
  split; [|split; [|split]].
  - intros k. rewrite Hinv. now destruct (lastUnder k (versionsTable w)).
  - intros k Hnone. rewrite Hinv.
    destruct (lastUnder k (versionsTable w)) as [u|] eqn:Hl; [|reflexivity].
    apply lastUnder_In in Hl. destruct Hl as [Hin Hk]. now elim (Hnone u Hin).
  - intros v Hv. destruct (Hsome v Hv) as [u Hu]. exists u.
    destruct (lastUnder_In _ _ _ Hu) as [Hin Hk].
    split; [exact Hin|]. split; [exact Hk|]. rewrite Hinv, Hu. reflexivity.
  - intros v Hv Honly. destruct (Hsome v Hv) as [u Hu].
    destruct (lastUnder_In _ _ _ Hu) as [Hin Hk].
    rewrite Hinv, Hu. rewrite (Honly u Hin Hk). reflexivity.
Qed.

(** ** The routes *)

(** X18: in a world the service has reached, and with the stores answering
    every request, a request that is not answered with status 200 has changed
    nothing in any store, with one exception: a POST of a new version that
    stopped in the lifecycle policy, because the support period of the
    versions to deprecate ends out of the range of [Date], is answered 500
    after the record and its specification were written.  The three GET
    routes change nothing whatever they answer. *)
Theorem failed_requests_change_little JSON_stringify now random req w :
  reachable w ->
  (statusCode (snd (handle JSON_stringify now random req w)) <> 200 ->
   fst (handle JSON_stringify now random req w) = w \/
   exists apiId tenantId body v policy,
     req = PostVersion apiId (Some tenantId) body /\
     key v = (apiId, VersionData.version body) /\
     APIVersion.tenantId v = tenantId /\
     stored w apiId (VersionData.version body) = None /\
     versionsTable (fst (handle JSON_stringify now random req w))
       = (versionsTable w ++ [v])%list /\
     object (fst (handle JSON_stringify now random req w)) (specificationKey v)
       = Some (S3Object.mk (VersionData.specification body)
                 (apiId, VersionData.version body, tenantId, now)) /\
     policiesTable (fst (handle JSON_stringify now random req w)) = policiesTable w /\
     plansTable (fst (handle JSON_stringify now random req w)) = plansTable w /\
     policyOfApi w apiId = Some policy /\
     dateHolds (supportEnd now policy) = false) /\
  match req with
  | GetVersionsRoute _ | GetVersionRoute _ _ | GetCompare _ _ _ =>
      fst (handle JSON_stringify now random req w) = w
  | _ => True
  end.
Proof.
  intros Hreach. destruct req; simpl.
  - split; [|exact I].
    destruct tenantId as [t|]; [|now left].
    destruct (String.eqb t ""); [now left|].
    destruct (createVersion_cases now (withIds body apiId t) w Hreach)
      as [[_ Hc]|[(_ & _ & Hc)|[(_ & _ & _ & Hc)|(_ & Hst & _ & level & H)]]];
      try (rewrite Hc; now left).
    destruct H as [[w' Hc]|[Hc (policy & Hpol & _ & Hdate)]]; rewrite Hc; simpl.
    + intros H. now contradiction H.
    + intros _. right.
      exists apiId, t, body, (newVersion (withIds body apiId t) level now), policy.
      split; [reflexivity|]. split; [reflexivity|]. split; [reflexivity|].
      split; [exact Hst|]. split; [apply putItem_fresh; exact Hst|].
      split; [unfold object, persisted; cbn [bucket]; now rewrite find_putObject_same|].
      auto.
  - split; [now left | reflexivity].
  - unfold getVersion. destruct (find _ _); (split; [now left | reflexivity]).
  - pose proof (compareVersions_world JSON_stringify apiId version1 version2 w) as Hw.
    destruct (compareVersions _ _ _ _ w) as [w' [r|e]]; simpl in *; subst; auto.
  - split; [|exact I]. rewrite deprecateVersion_unfold.
    destruct (find _ _) as [r|]; [|now left].
    destruct (Status_eqb _ _); simpl; [|now left].
    intros H. now contradiction H.
  - split; [|exact I]. unfold createMigrationPlan, bind.
    pose proof (compareVersions_world JSON_stringify apiId fromVersion toVersion w) as Hw.
    destruct (compareVersions _ _ _ _ w) as [w' [r|e]]; simpl in *; subst; [|now left].
    intros H. now contradiction H.
Qed.


(* ================================================================== *)
(** * Further instances *)

Lemma stored_first : stored Scenario.two "orders" "1.0.0" = Some Scenario.firstRecord.
Proof. vm_compute. reflexivity. Defined.

Lemma stored_second : stored Scenario.two "orders" "3.0.0" = Some Scenario.secondRecord.
Proof. vm_compute. reflexivity. Defined.

Lemma created_third :
  createVersion 1 (Scenario.orders "3.0.1" draft) Scenario.two
  = (fst Scenario.third, Ok Scenario.thirdRecord).
Proof. vm_compute. reflexivity. Defined.

Lemma created_sixth :
  createVersion 9 (Scenario.orders "3.0.0" published) Scenario.five
  = (Scenario.afterSixth, Ok Scenario.sixthRecord).
Proof. vm_compute. reflexivity. Defined.

Lemma stored_content_is_immutable_witness :
  stored Scenario.two "orders" "1.0.0" = Some Scenario.firstRecord /\
  exists v',
    stored (perform Sample.render 5
              (DeprecateVersion "orders" "1.0.0" Scenario.supportEnds) Scenario.two)
           "orders" "1.0.0" = Some v' /\
    content v' = content Scenario.firstRecord.
Proof.
  split; [exact stored_first|].
  exact (stored_content_is_immutable Sample.render 5
           (DeprecateVersion "orders" "1.0.0" Scenario.supportEnds)
           Scenario.two "orders" "1.0.0" Scenario.firstRecord stored_first).
Defined.

Lemma routes_never_retire_witness :
  stored Scenario.two "orders" "1.0.0" = Some Scenario.firstRecord /\
  APIVersion.status Scenario.firstRecord <> retired /\
  exists v',
    stored (fst (handle Sample.render 5 "k3x9q" Cases.deprecateFirst Scenario.two))
           "orders" "1.0.0" = Some v' /\
    APIVersion.status v' <> retired /\
    APIVersion.retiredAt v' = APIVersion.retiredAt Scenario.firstRecord.
Proof.
  assert (Hn : APIVersion.status Scenario.firstRecord <> retired) by discriminate.
  split; [exact stored_first|]. split; [exact Hn|].
  exact (routes_never_retire Sample.render 5 "k3x9q" Cases.deprecateFirst Scenario.two
           "orders" "1.0.0" Scenario.firstRecord stored_first Hn).
Defined.

Lemma deprecateVersion_effect_witness :
  stored Scenario.two "orders" "1.0.0" = Some Scenario.firstRecord /\
  APIVersion.status Scenario.firstRecord = published /\
  exists w' v',
    deprecateVersion 5 "orders" "1.0.0" Scenario.supportEnds Scenario.two = (w', Ok tt) /\
    stored w' "orders" "1.0.0" = Some v' /\
    APIVersion.deprecationPlan v' = Some Scenario.supportEnds /\
    content v' = content Scenario.firstRecord /\
    APIVersion.retiredAt v' = APIVersion.retiredAt Scenario.firstRecord /\
    (forall apiId0 version0,
        (apiId0, version0) <> ("orders", "1.0.0") ->
        stored w' apiId0 version0 = stored Scenario.two apiId0 version0) /\
    policiesTable w' = policiesTable Scenario.two /\
    plansTable w' = plansTable Scenario.two /\
    bucket w' = bucket Scenario.two.
Proof.
  split; [exact stored_first|]. split; [reflexivity|].
  exact (deprecateVersion_effect 5 Scenario.supportEnds Scenario.two "orders" "1.0.0"
           Scenario.firstRecord stored_first eq_refl).
Defined.

Lemma deprecate_then_retire_witness :
  stored Scenario.two "orders" "1.0.0" = Some Scenario.firstRecord /\
  APIVersion.status Scenario.firstRecord = published /\
  exists w1 w2 v2,
    deprecateVersion 5 "orders" "1.0.0" Scenario.supportEnds Scenario.two = (w1, Ok tt) /\
    retireVersion 6 "orders" "1.0.0" w1 = (w2, Ok tt) /\
    stored w2 "orders" "1.0.0" = Some v2 /\
    APIVersion.status v2 = retired /\
    APIVersion.deprecatedAt v2 = Some 5 /\
    APIVersion.retiredAt v2 = Some 6 /\
    APIVersion.deprecationPlan v2 = Some Scenario.supportEnds /\
    content v2 = content Scenario.firstRecord /\
    deprecateVersion 7 "orders" "1.0.0" Scenario.supportEnds w2
      = (w2, Throw InvalidDeprecation) /\
    retireVersion 7 "orders" "1.0.0" w2 = (w2, Throw InvalidRetirement).
Proof.
  split; [exact stored_first|]. split; [reflexivity|].
  exact (deprecate_then_retire 5 6 7 Scenario.supportEnds Scenario.two "orders" "1.0.0"
           Scenario.firstRecord stored_first eq_refl).
Defined.

Lemma transition_of_missing_version_witness :
  stored Scenario.two "orders" "9.9.9" = None /\
  deprecateVersion 5 "orders" "9.9.9" Scenario.supportEnds Scenario.two
    = (Scenario.two, Throw VersionNotFound) /\
  retireVersion 5 "orders" "9.9.9" Scenario.two = (Scenario.two, Throw VersionNotFound) /\
  handle Sample.render 5 "k3x9q" (PostDeprecate "orders" "9.9.9" Scenario.supportEnds)
         Scenario.two
    = (Scenario.two, mkResponse 500 (ErrorBody "Failed to deprecate version")) /\
  handle Sample.render 5 "k3x9q" (GetVersionRoute "orders" "9.9.9") Scenario.two
    = (Scenario.two, mkResponse 404 (ErrorBody "Version not found")).
Proof.
  assert (Hs : stored Scenario.two "orders" "9.9.9" = None) by (vm_compute; reflexivity).
  split; [exact Hs|].
  exact (transition_of_missing_version Sample.render 5 "k3x9q" Scenario.supportEnds
           Scenario.two "orders" "9.9.9" Hs).
Defined.

Lemma analyzer_reports_two_kinds_witness :
  stored Scenario.two "orders" "1.0.0" = Some Scenario.firstRecord /\
  stored Scenario.two "orders" "3.0.0" = Some Scenario.secondRecord /\
  exists report,
    compareVersions Sample.render "orders" "1.0.0" "3.0.0" Scenario.two
      = (Scenario.two, Ok report) /\
    Forall (fun f =>
              (BreakingChange.type f = removed_endpoint /\
               BreakingChange.severity f = critical) \/
              (BreakingChange.type f = changed_response_format /\
               BreakingChange.severity f = high))
           (CompatibilityReport.breakingChanges report).
Proof.
  split; [exact stored_first|]. split; [exact stored_second|].
  exact (analyzer_reports_two_kinds Sample.render "orders" "1.0.0" "3.0.0" Scenario.two
           Scenario.firstRecord Scenario.secondRecord stored_first stored_second).
Defined.

Lemma score_by_kind_witness :
  stored Scenario.two "orders" "1.0.0" = Some Scenario.firstRecord /\
  stored Scenario.two "orders" "3.0.0" = Some Scenario.secondRecord /\
  exists report,
    compareVersions Sample.render "orders" "1.0.0" "3.0.0" Scenario.two
      = (Scenario.two, Ok report) /\
    0 <= CompatibilityReport.score report <= 100 /\
    CompatibilityReport.score report mod 5 = 0 /\
    CompatibilityReport.score report
      = Z.max 0 (100
                 - 25 * Z.of_nat (countType removed_endpoint
                                    (CompatibilityReport.breakingChanges report))
                 - 15 * Z.of_nat (countType changed_response_format
                                    (CompatibilityReport.breakingChanges report))).
Proof.
  split; [exact stored_first|]. split; [exact stored_second|].
  exact (score_by_kind Sample.render "orders" "1.0.0" "3.0.0" Scenario.two
           Scenario.firstRecord Scenario.secondRecord stored_first stored_second).
Defined.

Lemma added_endpoints_are_compatible_witness :
  stored Scenario.two "orders" "3.0.0" = Some Scenario.secondRecord /\
  stored Scenario.two "orders" "1.0.0" = Some Scenario.firstRecord /\
  (forall path,
      In path (pathKeys (APIVersion.specification Scenario.secondRecord)) ->
      In path (pathKeys (APIVersion.specification Scenario.firstRecord)) /\
      Json.get (Specification.paths (APIVersion.specification Scenario.firstRecord)) path
      = Json.get (Specification.paths (APIVersion.specification Scenario.secondRecord)) path) /\
  exists report,
    compareVersions Sample.render "orders" "3.0.0" "1.0.0" Scenario.two
      = (Scenario.two, Ok report) /\
    CompatibilityReport.breakingChanges report = [] /\
    CompatibilityReport.compatible report = true /\
    CompatibilityReport.score report = 100.
Proof.
  assert (Hext : forall path,
      In path (pathKeys (APIVersion.specification Scenario.secondRecord)) ->
      In path (pathKeys (APIVersion.specification Scenario.firstRecord)) /\
      Json.get (Specification.paths (APIVersion.specification Scenario.firstRecord)) path
      = Json.get (Specification.paths (APIVersion.specification Scenario.secondRecord)) path).
  { intros path Hin. vm_compute in Hin. destruct Hin as [<-|[]].
    split; [vm_compute; tauto | vm_compute; reflexivity]. }
  split; [exact stored_second|]. split; [exact stored_first|]. split; [exact Hext|].
  exact (added_endpoints_are_compatible Sample.render "orders" "3.0.0" "1.0.0" Scenario.two
           Scenario.secondRecord Scenario.firstRecord stored_second stored_first Hext).
Defined.


Lemma specification_is_stored_witness :
  createVersion 1 (Scenario.orders "3.0.1" draft) Scenario.two
    = (fst Scenario.third, Ok Scenario.thirdRecord) /\
  specificationKey Scenario.thirdRecord
    = "api-specifications/tenant-1/orders/3.0.1/openapi.json" /\
  object (fst Scenario.third) (specificationKey Scenario.thirdRecord)
    = Some (S3Object.mk Sample.specA ("orders", "3.0.1", "tenant-1", 1)).
Proof.
  split; [exact created_third|].
  exact (specification_is_stored 1 (Scenario.orders "3.0.1" draft) Scenario.two
           (fst Scenario.third) Scenario.thirdRecord created_third).
Defined.

Lemma createVersion_within_limit_witness :
  createVersion 1 (Scenario.orders "3.0.1" draft) Scenario.two
    = (fst Scenario.third, Ok Scenario.thirdRecord) /\
  policyOfApi Scenario.two "orders" = None /\
  versionsTable (fst Scenario.third)
    = (versionsTable Scenario.two ++ [Scenario.thirdRecord])%list.
Proof.
  split; [exact created_third|]. split; [reflexivity|].
  exact (createVersion_within_limit 1 (Scenario.orders "3.0.1" draft) Scenario.two
           (fst Scenario.third) Scenario.thirdRecord created_third I).
Defined.

Lemma createVersion_leaves_other_apis_witness :
  "billing" <> "orders" /\
  versionsOf "billing"
    (fst (createVersion 9 (Scenario.orders "3.0.0" published) Cases.mixed))
  = versionsOf "billing" Cases.mixed.
Proof.
  assert (Hne : "billing" <> "orders") by discriminate.
  split; [exact Hne|].
  exact (createVersion_leaves_other_apis 9 (Scenario.orders "3.0.0" published) Cases.mixed
           "billing" Hne).
Defined.

Lemma published_never_exceeds_limit_witness :
  reachable Scenario.five /\
  createVersion 9 (Scenario.orders "3.0.0" published) Scenario.five
    = (Scenario.afterSixth, Ok Scenario.sixthRecord) /\
  policyOfApi Scenario.five "orders" = Some Scenario.policy5 /\
  0 <= 5 /\
  Z.of_nat (List.length (publishedOf "orders" Scenario.afterSixth)) <= 5.
Proof.
  assert (Hp : policyOfApi Scenario.five "orders" = Some Scenario.policy5)
    by (vm_compute; reflexivity).
  assert (Hm : 0 <= 5) by lia.
  split; [exact reachable_five|]. split; [exact created_sixth|]. split; [exact Hp|].
  split; [exact Hm|].
  exact (published_never_exceeds_limit 9 (Scenario.orders "3.0.0" published) Scenario.five
           Scenario.afterSixth Scenario.sixthRecord Scenario.policy5
           reachable_five created_sixth Hp Hm).
Defined.

Lemma stored_records_invariant_witness :
  reachable Scenario.two /\
  In Scenario.firstRecord (versionsTable Scenario.two) /\
  SemVer.valid "1.0.0" = true /\
  APIVersion.metrics Scenario.firstRecord = Metrics.mk 0 0 0 100 0 /\
  stored Scenario.two "orders" "1.0.0" = Some Scenario.firstRecord.
Proof.
  assert (Hin : In Scenario.firstRecord (versionsTable Scenario.two))
    by (vm_compute; tauto).
  split; [exact reachable_two|]. split; [exact Hin|].
  exact (stored_records_invariant Scenario.two Scenario.firstRecord reachable_two Hin).
Defined.

Lemma every_version_has_its_specification_witness :
  reachable Cases.shared /\
  versionsTable Cases.shared = [Cases.sharedFirst; Cases.sharedSecond] /\
  specificationKey Cases.sharedFirst = specificationKey Cases.sharedSecond /\
  object Cases.shared (specificationKey Cases.sharedFirst)
  = Some (S3Object.mk Sample.specB ("a/b", "1.0.0", "t", 0)) /\
  object Cases.shared "api-specifications/t/a/b/1.0.1/openapi.json" = None.
Proof.
  split; [exact reachable_shared|]. split; [reflexivity|]. split; [reflexivity|].
  destruct (every_version_has_its_specification Cases.shared reachable_shared)
    as (Hall & Hnone & _).
  split.
  - exact (Hall (specificationKey Cases.sharedFirst)).
  - apply Hnone. intros u [<-|[<-|[]]]; vm_compute; discriminate.
Defined.

Lemma failed_requests_change_little_witness :
  reachable Cases.endless /\
  statusCode (snd (handle Sample.render 9 "k3x9q" Cases.postSixth Cases.endless)) <> 200 /\
  fst (handle Sample.render 9 "k3x9q" Cases.postSixth Cases.endless) <> Cases.endless /\
  exists v,
    key v = ("orders", "3.0.0") /\
    versionsTable (fst (handle Sample.render 9 "k3x9q" Cases.postSixth Cases.endless))
    = (versionsTable Cases.endless ++ [v])%list.
Proof.
  assert (Hs : statusCode (snd (handle Sample.render 9 "k3x9q" Cases.postSixth
                                  Cases.endless)) <> 200)
    by (vm_compute; discriminate).
  assert (Hd : fst (handle Sample.render 9 "k3x9q" Cases.postSixth Cases.endless)
               <> Cases.endless)
    by (vm_compute; discriminate).
  split; [exact reachable_endless|]. split; [exact Hs|]. split; [exact Hd|].
  destruct (proj1 (failed_requests_change_little Sample.render 9 "k3x9q" Cases.postSixth
                     Cases.endless reachable_endless) Hs)
    as [Hsame|(apiId & tenantId & body & v & policy & Hreq & Hkey & _ & _ & Htab & _)].
  - now elim Hd.
  - injection Hreq as <- _ <-. exists v. split; [exact Hkey | exact Htab].
Defined.


(** ** The latest version, again *)

(** X20: in a world the service has reached, [getLatestVersion] returns
    without touching the stores: nothing when the api has no stored version,
    and otherwise a stored version of the api, of whatever status, that no
    stored version of the api exceeds in semantic-version precedence. *)
Theorem latest_version_is_highest apiId w :
  reachable w ->
  exists latest,
    getLatestVersion apiId w = (w, Ok latest) /\
    match latest with
    | None => versionsOf apiId w = []
    | Some l =>
        In l (versionsTable w) /\ APIVersion.apiId l = apiId /\
        forall u, In u (versionsTable w) -> APIVersion.apiId u = apiId ->
                  precedes (APIVersion.version u) (APIVersion.version l)
    end.
Proof.
  intros Hreach.
  destruct (getLatestVersion_spec apiId w (reachable_wf w Hreach)) as (latest & Hg & Hspec).
  exists latest. split; [exact Hg|].
  destruct (versionsOf apiId w) as [|x rest] eqn:Hv.
  - now subst latest.
  - destruct Hspec as (l & -> & Hin & Hmax).
    assert (Hmem : forall u, In u (x :: rest) <->
                             In u (versionsTable w) /\ APIVersion.apiId u = apiId).
    { intros u. rewrite <- Hv. apply In_versionsOf. }
    split; [now apply Hmem|]. split; [now apply Hmem|].
    intros u Hu Ha. apply Hmax. now apply Hmem.
Qed.

Lemma latest_version_is_highest_witness :
  reachable Scenario.two /\
  exists latest,
    getLatestVersion "orders" Scenario.two = (Scenario.two, Ok latest) /\
    match latest with
    | None => versionsOf "orders" Scenario.two = []
    | Some l =>
        In l (versionsTable Scenario.two) /\ APIVersion.apiId l = "orders" /\
        forall u, In u (versionsTable Scenario.two) -> APIVersion.apiId u = "orders" ->
                  precedes (APIVersion.version u) (APIVersion.version l)
    end.
Proof.
  split; [exact reachable_two|].
  exact (latest_version_is_highest "orders" Scenario.two reachable_two).
Defined.

(** The draft 3.0.0 is the latest version of [two], ahead of the published
    1.0.0. *)
Lemma latest_version_example :
  getLatestVersion "orders" Scenario.two = (Scenario.two, Ok (Some Scenario.secondRecord)).
Proof. vm_compute. reflexivity. Qed.

(* ================================================================== *)
(** * The royalty distribution service *)

Section RoyaltyFacts.
Import PrimFloat.
#[local] Set Warnings "-inexact-float".
Local Open Scope float_scope.

Lemma positive_le_lt (a b m : positive) :
  (b < a)%positive ->
  match Pos.compare a m with Gt => false | _ => true end = true ->
  match Pos.compare b m with Lt => true | _ => false end = true.
Proof.
  intros Hab H.
  destruct (Pos.compare_spec a m); try discriminate;
    destruct (Pos.compare_spec b m); try reflexivity; lia.
Qed.

(** A number that is at least 98 is above 97: NaN and the infinities
    included, by the comparison of the IEEE 754 specification. *)
Lemma above_98_above_97 s : (98 <=? s) = true -> (97 <? s) = true.
Proof.
  rewrite FloatAxioms.leb_spec, FloatAxioms.ltb_spec.
  set (a := FloatOps.Prim2SF 98). set (b := FloatOps.Prim2SF 97).
  vm_compute in a, b. subst a b.
  unfold SpecFloat.SFleb, SpecFloat.SFltb, SpecFloat.SFcompare.
  destruct (FloatOps.Prim2SF s) as [sg|sg| |sg m e]; try destruct sg; try congruence.
  destruct (Z.compare (-46) e); try congruence.
  apply positive_le_lt. reflexivity.
Qed.

Ltac split_criteria m :=
  destruct (98 <=? Royalty.ContainerMetrics.successRate m);
  destruct (99.5 <=? Royalty.ContainerMetrics.uptime m);
  destruct (4.5 <=? Royalty.ContainerMetrics.averageRating m);
  destruct (10000 <=? Royalty.ContainerMetrics.monthlyRevenue m);
  destruct (85 <=? Royalty.ContainerMetrics.userRetentionRate m);
  destruct (15 <=? Royalty.ContainerMetrics.growthRate m);
  destruct (Royalty.ContainerMetrics.avgResponseTime m <=? 150).

Lemma validateCloningCriteria_eligible m :
  Royalty.CloningValidation.eligible (Royalty.validateCloningCriteria m)
  = (Royalty.lostWeight m <=? 15)%Z.
Proof.
  unfold Royalty.validateCloningCriteria, Royalty.criteria, Royalty.lostWeight.
  split_criteria m; vm_compute; reflexivity.
Qed.

Lemma lostWeight_mandatory m :
  (Royalty.lostWeight m <= 15)%Z ->
  (98 <=? Royalty.ContainerMetrics.successRate m) = true /\
  (99.5 <=? Royalty.ContainerMetrics.uptime m) = true.
Proof.
  unfold Royalty.lostWeight.
  split_criteria m; intros H; split; try reflexivity; exfalso; lia.
Qed.

(** X21: [validateCloningCriteria] makes a container eligible exactly when
    the weights of the criteria it fails add up to at most 15 of the 100;
    the failures are the names of the failed criteria in the order of the
    list, the score lies between 0 and 100, and an eligible container has a
    success rate of at least 98 and an uptime of at least 99.5, whatever
    its other metrics are. *)
Theorem cloning_eligibility m :
  let v := Royalty.validateCloningCriteria m in
  Royalty.CloningValidation.eligible v = (Royalty.lostWeight m <=? 15)%Z /\
  Royalty.CloningValidation.failures v
  = map Royalty.Criterion.name
        (filter (fun c => negb (Royalty.Criterion.check c)) (Royalty.criteria m)) /\
  (0 <=? Royalty.CloningValidation.score v)
  && (Royalty.CloningValidation.score v <=? 100) = true /\
  (Royalty.CloningValidation.eligible v = true ->
   (98 <=? Royalty.ContainerMetrics.successRate m) = true /\
   (99.5 <=? Royalty.ContainerMetrics.uptime m) = true).
Proof.
  cbv zeta. split; [apply validateCloningCriteria_eligible|].
  split; [|split].
  - unfold Royalty.validateCloningCriteria, Royalty.criteria.
    split_criteria m; vm_compute; reflexivity.
  - unfold Royalty.validateCloningCriteria, Royalty.criteria.
    split_criteria m; vm_compute; reflexivity.
  - rewrite validateCloningCriteria_eligible. intros H.
    apply lostWeight_mandatory. apply Z.leb_le. exact H.
Qed.

(** X22: [cloneSuccessfulContainer] refuses a container exactly when it
    fails criteria of more than 15 points.  Otherwise the original
    creator's share is one of 25, 27, 30, 32 and 35 percent (so it passes
    the 30 that [calculateOriginalCreatorShare] caps its part at), the
    clone's share is the rest of the 100, and the two creators are the
    source's creator and the one named in the enhancements, anonymous
    if none is named.  The requests the function awaits are taken to
    succeed. *)
Theorem clone_royalty_split m creatorId cloneCreatorId cloneId :
  match Royalty.cloneSuccessfulContainer m creatorId cloneCreatorId cloneId with
  | inl _ => (15 < Royalty.lostWeight m)%Z
  | inr r =>
      (Royalty.lostWeight m <= 15)%Z /\
      In (Royalty.CloneRoyalty.originalShare r) [25; 27; 30; 32; 35] /\
      Royalty.CloneRoyalty.originalShare r + Royalty.CloneRoyalty.cloneShare r = 100 /\
      Royalty.CloneRoyalty.cloneId r = cloneId /\
      Royalty.CloneRoyalty.originalCreatorId r = creatorId /\
      Royalty.CloneRoyalty.cloneCreatorId r
      = match cloneCreatorId with
        | Some c => if String.eqb c "" then "anonymous" else c
        | None => "anonymous"
        end
  end.
Proof.
  unfold Royalty.cloneSuccessfulContainer.
  rewrite validateCloningCriteria_eligible.
  destruct (Z.leb_spec (Royalty.lostWeight m) 15) as [Hle|Hgt]; simpl; [|exact Hgt].
  split; [exact Hle|].
  destruct (lostWeight_mandatory m Hle) as [Hs _].
  apply above_98_above_97 in Hs.
  unfold Royalty.calculateOriginalCreatorShare. rewrite Hs.
  destruct (99 <? Royalty.ContainerMetrics.successRate m);
    destruct (Royalty.ContainerMetrics.innovation m) as [i|];
    try destruct (0.8 <? i); try destruct (0.6 <? i);
    (split; [vm_compute; tauto|]); (split; [vm_compute; reflexivity|]);
    auto.
Qed.

(** What the service answers for the metrics it reads today. *)
Lemma clone_of_measured_container :
  Royalty.cloneSuccessfulContainer (Royalty.getContainerMetrics "c-1") "ada" None "c-2"
  = inr (Royalty.CloneRoyalty.mk "c-2" "ada" "anonymous" 30 70 3).
Proof. vm_compute. reflexivity. Qed.

Lemma tierStep_skip m tiers info i :
  (forall t, nth_error tiers i = Some t -> Royalty.meetsTier m t = false) ->
  Royalty.tierStep m tiers info i = info.
Proof.
  unfold Royalty.tierStep. destruct (nth_error tiers i) as [t|]; auto.
  intros H. rewrite (H t eq_refl). reflexivity.
Qed.

Lemma fold_tierStep_skip m tiers n : forall k info,
  (forall j t, (k <= j < k + n)%nat -> nth_error tiers j = Some t ->
               Royalty.meetsTier m t = false) ->
  fold_left (Royalty.tierStep m tiers) (seq k n) info = info.
Proof.
  induction n as [|n IH]; intros k info H; simpl; auto.
  rewrite tierStep_skip.
  - apply IH. intros j t Hj. apply H. lia.
  - intros t. apply H. lia.
Qed.

(** X23: [calculateTierInfo] names the last tier of the list whose three
    minimums the metrics meet, whether or not the tiers before it are met,
    and as next tier the one that follows it in the list, none after the
    last. *)
Theorem tier_is_last_match m tiers i t :
  nth_error tiers i = Some t ->
  Royalty.meetsTier m t = true ->
  (forall j t', (i < j)%nat -> nth_error tiers j = Some t' ->
                Royalty.meetsTier m t' = false) ->
  Royalty.TierInfo.currentTier (Royalty.calculateTierInfo m tiers)
  = Royalty.RoyaltyTier.tier t /\
  Royalty.TierInfo.nextTier (Royalty.calculateTierInfo m tiers)
  = option_map Royalty.RoyaltyTier.tier (nth_error tiers (i + 1)).
Proof.
  intros Hi Hm Hlast. unfold Royalty.calculateTierInfo.
  assert (Hlen : (i < List.length tiers)%nat) by (apply nth_error_Some; congruence).
  assert (Hseq : seq 0 (List.length tiers)
                 = (seq 0 i ++ i :: seq (S i) (List.length tiers - S i))%list).
  { replace (List.length tiers) with (i + S (List.length tiers - S i))%nat at 1 by lia.
    rewrite seq_app. reflexivity. }
  rewrite Hseq, fold_left_app. cbn [fold_left].
  rewrite fold_tierStep_skip by (intros j t' Hj; apply Hlast; lia).
  unfold Royalty.tierStep. rewrite Hi, Hm.
  cbn [Royalty.TierInfo.currentTier Royalty.TierInfo.nextTier].
  split; [reflexivity|].
  destruct (Nat.ltb_spec i (List.length tiers - 1)) as [E|E]; [reflexivity|].
  assert (Hn : nth_error tiers (i + 1) = None) by (apply nth_error_None; lia).
  rewrite Hn. reflexivity.
Qed.

Lemma tier_is_last_match_witness :
  nth_error Royalty.royaltyTiers 2
  = Some (Royalty.RoyaltyTier.mk "gold" 98 99 4.5 1.5) /\
  Royalty.TierInfo.currentTier
    (Royalty.calculateTierInfo (Royalty.getContainerMetrics "c-1") Royalty.royaltyTiers)
  = "gold" /\
  Royalty.TierInfo.nextTier
    (Royalty.calculateTierInfo (Royalty.getContainerMetrics "c-1") Royalty.royaltyTiers)
  = Some "platinum".
Proof.
  split; [reflexivity|].
  apply (tier_is_last_match (Royalty.getContainerMetrics "c-1") Royalty.royaltyTiers 2
           (Royalty.RoyaltyTier.mk "gold" 98 99 4.5 1.5)).
  - reflexivity.
  - vm_compute. reflexivity.
  - intros j t' Hj.
    do 4 (destruct j as [|j]; [lia || (intros [= <-]; vm_compute; reflexivity)|]).
    simpl. destruct j; discriminate.
Defined.

(** X24: when the metrics meet the minimums of no tier, [calculateTierInfo]
    still answers bronze, with no next tier and no progress: bronze is the
    floor, not a tier that has to be earned. *)
Theorem tier_defaults_to_bronze m tiers :
  (forall t, In t tiers -> Royalty.meetsTier m t = false) ->
  Royalty.calculateTierInfo m tiers = Royalty.TierInfo.mk "bronze" None 0.
Proof.
  intros H. unfold Royalty.calculateTierInfo.
  apply fold_tierStep_skip. intros j t _ Hj. apply H.
  apply nth_error_In with j. exact Hj.
Qed.

Lemma tier_defaults_to_bronze_witness :
  Royalty.meetsTier Royalty.newcomer (Royalty.RoyaltyTier.mk "bronze" 90 95 3.5 1.0) = false /\
  Royalty.calculateTierInfo Royalty.newcomer Royalty.royaltyTiers
  = Royalty.TierInfo.mk "bronze" None 0.
Proof.
  split; [vm_compute; reflexivity|].
  apply (tier_defaults_to_bronze Royalty.newcomer Royalty.royaltyTiers).
  intros t [<-|[<-|[<-|[<-|[]]]]]; vm_compute; reflexivity.
Defined.

End RoyaltyFacts.
